(** * Beat/keyframe derivation and style-consistency engine

    A shallow embedding of the data-model and control logic of the
    novel-to-trailer pipeline scripts, and the properties of the
    specification that concern them:

    - [build_main_character_profiles.py]: character aggregation, importance
      score and main-character selection;
    - [trailer_to_keyframe.py]: the scene index and the keyframe deriver;
    - [scene_to_trailer.py]: the trailer beat planner;
    - [unify_keyframe_style.py]: the prompt rewriter;
    - [novel_world_profile.py]: the two-stage world-profile synthesizer.

    Conventions of the embedding.
    - Python [str] is [string]; [float] values are modelled by rationals
      [Q] (every float that occurs in the modelled arithmetic is a small
      multiple of 1/2, which IEEE doubles represent exactly); [int] is [Z].
    - A [dict] whose iteration order matters is an association list in
      insertion order; a [dict] used only for lookup is a [gmap].
    - The generation service is an external collaborator.  It is a
      parameter [generate_content] of each pipeline function: a function of
      the list of requests already sent and of the current request, so that
      the same prompt may be answered differently on a retry.  Functions that
      call it thread the request log.
    - A Python exception that leaves a function is the [Raise] result. *)

From Stdlib Require Import QArith Ascii String.
From stdpp Require Import gmap strings list fin_maps.
From Stdlib Require Import Sorting.Sorted.

(** ** Python helpers *)

Module Py.

(** Exceptions that the modelled code can raise or let through. *)
Inductive exn : Type :=
  | ServerError (msg : string)
  | ValidationError
  | ValueError (msg : string)
  | TypeError
  | IndexError
  | AttributeError
  | UnboundLocalError.

Inductive result (A : Type) : Type :=
  | Ok (a : A)
  | Raise (e : exn).
Arguments Ok {A} a.
Arguments Raise {A} e.

#[export] Instance result_ret : MRet result := fun A a => Ok a.

#[export] Instance result_bind : MBind result :=
  fun A B k r =>
    match r with
    | Ok a => k a
    | Raise e => Raise e
    end.

(** Truth value of a [str]: the empty string is false. *)
Definition truthy (s : string) : bool := negb (String.eqb s "").

(** Truth value of a value that may be [None]. *)
Definition truthy_opt (o : option string) : bool :=
  match o with
  | Some s => truthy s
  | None => false
  end.

(** [a or b] on optional strings, with a final default:
    [d.get(k1) or d.get(k2) or default]. *)
Definition or_else (o : option string) (default : string) : string :=
  match o with
  | Some s => if truthy s then s else default
  | None => default
  end.

(** ASCII white space as [str.isspace] sees it: tab, line feed, vertical
    tab, form feed, carriage return, the four separators 0x1c-0x1f and the
    space.  Strings are byte strings here, so the non-ASCII white space of
    Unicode is not covered. *)
Definition isspace (c : ascii) : bool :=
  let n := nat_of_ascii c in
  ((9 <=? n) && (n <=? 13)) || ((28 <=? n) && (n <=? 32)).

Fixpoint lstrip (s : string) : string :=
  match s with
  | EmptyString => EmptyString
  | String c s' => if isspace c then lstrip s' else s
  end.

Fixpoint string_rev_acc (s acc : string) : string :=
  match s with
  | EmptyString => acc
  | String c s' => string_rev_acc s' (String c acc)
  end.

Definition string_rev (s : string) : string := string_rev_acc s EmptyString.

Definition rstrip (s : string) : string := string_rev (lstrip (string_rev s)).

(** [s.strip()] *)
Definition strip (s : string) : string := rstrip (lstrip s).

(** [c.lower()] on ASCII letters. *)
Definition lower_ascii (c : ascii) : ascii :=
  let n := nat_of_ascii c in
  if (65 <=? n) && (n <=? 90) then ascii_of_nat (n + 32) else c.

Fixpoint lower (s : string) : string :=
  match s with
  | EmptyString => EmptyString
  | String c s' => String (lower_ascii c) (lower s')
  end.

(** [needle in hay] on strings. *)
Fixpoint contains (needle hay : string) : bool :=
  String.prefix needle hay ||
  match hay with
  | EmptyString => false
  | String _ hay' => contains needle hay'
  end.

(** [l[:k]]: a non-negative bound keeps the first [k] elements, a negative
    one drops the last [-k]. *)
Definition slice_to {A : Type} (k : Z) (l : list A) : list A :=
  if (0 <=? k)%Z then take (Z.to_nat k) l
  else take (Z.to_nat (Z.of_nat (length l) + k)) l.

(** Arbitrary JSON data carried along unread ([dict] fields). *)
#[local] Unset Elimination Schemes.
Inductive json : Type :=
  | JNull
  | JBool (b : bool)
  | JNum (q : Q)
  | JStr (s : string)
  | JArr (l : list json)
  | JObj (fields : list (string * json)).
#[local] Set Elimination Schemes.

End Py.

Import Py.

(** ** The generation client

    The part of a [generate_content] response that the scripts read. *)

Module GenAI.

Record Part : Type := { part_text : option string }.

Record Content : Type := { parts : option (list Part) }.

Record Candidate : Type := { content : option Content }.

Record PromptFeedback : Type := { block_reason : option string }.

Record UsageMetadata : Type := {
  prompt_token_count : option Z;
  candidates_token_count : option Z;
  total_token_count : option Z
}.

Record Response : Type := {
  text : option string;
  candidates : option (list Candidate);
  prompt_feedback : option PromptFeedback;
  usage_metadata : option UsageMetadata
}.

(** [text is None or not text.strip()] *)
Definition blank (o : option string) : bool :=
  match o with
  | None => true
  | Some s => negb (truthy (strip s))
  end.

(** [response.candidates[0].content.parts[0].text], with the exception each
    missing piece raises. *)
Definition first_part_text (response : Response) : result (option string) :=
  match candidates response with
  | None => Raise TypeError
  | Some [] => Raise IndexError
  | Some (c :: _) =>
      match content c with
      | None => Raise AttributeError
      | Some ct =>
          match parts ct with
          | None => Raise TypeError
          | Some [] => Raise IndexError
          | Some (p :: _) => Ok (part_text p)
          end
      end
  end.

(** The lines shared by every structured-output call:
<<
    raw = getattr(response, "text", None)
    if raw is None or not raw.strip():
        raw = response.candidates[0].content.parts[0].text
>> *)
Definition response_raw (response : Response) : result (option string) :=
  if blank (text response) then first_part_text response
  else Ok (text response).

(** [Model.model_validate_json(raw)]: decoding and schema validation are
    the library's ([decode]); a [raw] that is [None] is rejected. *)
Definition model_validate_json {T : Type} (decode : string -> option T)
    (raw : option string) : result T :=
  match raw with
  | None => Raise ValidationError
  | Some s =>
      match decode s with
      | Some v => Ok v
      | None => Raise ValidationError
      end
  end.

(** [generate_content] as seen by a caller: the requests sent so far and
    the current request determine the answer or the exception. *)
Definition client (Req : Type) : Type := list Req -> Req -> result Response.

(** Code that talks to the client: it reads and extends the request log
    and returns a value or lets an exception through. *)
Definition M (Req A : Type) : Type := list Req -> result A * list Req.

#[export] Instance M_ret (Req : Type) : MRet (M Req) :=
  fun A a log => (Ok a, log).

#[export] Instance M_bind (Req : Type) : MBind (M Req) :=
  fun A B k m log =>
    match m log with
    | (Ok a, log') => k a log'
    | (Raise e, log') => (Raise e, log')
    end.

Definition raise {Req A : Type} (e : exn) : M Req A :=
  fun log => (Raise e, log).

(** A pure step that may raise. *)
Definition lift {Req A : Type} (r : result A) : M Req A :=
  fun log => (r, log).

(** [client.models.generate_content(contents=prompt, ...)] *)
Definition call {Req : Type} (generate_content : client Req) (prompt : Req)
    : M Req Response :=
  fun log => (generate_content log prompt, log ++ [prompt]).

(** A call inside [try]: the exception, if any, is handed to the caller as
    a value. *)
Definition try_call {Req : Type} (generate_content : client Req) (prompt : Req)
    : M Req (result Response) :=
  fun log => (Ok (generate_content log prompt), log ++ [prompt]).

(** [try: body except Exception: handler]: every modelled exception is an
    [Exception]. *)
Definition try_except {Req A : Type} (body : M Req A) (handler : exn -> M Req A)
    : M Req A :=
  fun log =>
    match body log with
    | (Ok a, log') => (Ok a, log')
    | (Raise e, log') => handler e log'
    end.

End GenAI.

Import GenAI.

(** ** [build_main_character_profiles.py]: aggregation and selection *)

Module BuildMainCharacterProfiles.

Inductive TraitCategory : Type :=
  | physical_appearance | temperament | hairstyle | clothing | status | other.

Inductive Importance : Type :=
  | main_protagonist | secondary_lead | supporting | minor.

Record TraitSnippet : Type := {
  category : TraitCategory;
  original_text : string;
  normalized : string
}.

Record ChapterCharacterMention : Type := {
  canonical_name : string;
  aliases : list string;
  importance : Importance;
  chapter_id : string;
  chapter_role_summary : string;
  trait_snippets : list TraitSnippet
}.

Record ChapterCharactersWithTraits : Type := {
  ch_chapter_id : string;
  characters : list ChapterCharacterMention
}.

(** The [importance_counts] dictionary: one counter per tier. *)
Record ImportanceCounts : Type := {
  count_main_protagonist : nat;
  count_secondary_lead : nat;
  count_supporting : nat;
  count_minor : nat
}.

(** [counts[tier]] *)
Definition get_count (counts : ImportanceCounts) (tier : Importance) : nat :=
  match tier with
  | main_protagonist => count_main_protagonist counts
  | secondary_lead => count_secondary_lead counts
  | supporting => count_supporting counts
  | minor => count_minor counts
  end.

(** [counts[tier] += 1] *)
Definition incr_count (tier : Importance) (counts : ImportanceCounts) : ImportanceCounts :=
  match tier with
  | main_protagonist =>
      {| count_main_protagonist := S (count_main_protagonist counts);
         count_secondary_lead := count_secondary_lead counts;
         count_supporting := count_supporting counts;
         count_minor := count_minor counts |}
  | secondary_lead =>
      {| count_main_protagonist := count_main_protagonist counts;
         count_secondary_lead := S (count_secondary_lead counts);
         count_supporting := count_supporting counts;
         count_minor := count_minor counts |}
  | supporting =>
      {| count_main_protagonist := count_main_protagonist counts;
         count_secondary_lead := count_secondary_lead counts;
         count_supporting := S (count_supporting counts);
         count_minor := count_minor counts |}
  | minor =>
      {| count_main_protagonist := count_main_protagonist counts;
         count_secondary_lead := count_secondary_lead counts;
         count_supporting := count_supporting counts;
         count_minor := S (count_minor counts) |}
  end.

(** The value stored per canonical name (an AggregatedCharacter). *)
Record Entry : Type := {
  entry_aliases : gset string;
  entry_chapters_seen : gset string;
  entry_importance_counts : ImportanceCounts;
  entry_mentions : list ChapterCharacterMention
}.

Definition new_entry : Entry :=
  {| entry_aliases := ∅;
     entry_chapters_seen := ∅;
     entry_importance_counts :=
       {| count_main_protagonist := 0; count_secondary_lead := 0;
          count_supporting := 0; count_minor := 0 |};
     entry_mentions := [] |}.

(** The four updates of one entry for one mention [c]. *)
Definition update_entry (c : ChapterCharacterMention) (entry : Entry) : Entry :=
  {| entry_aliases :=
       entry_aliases entry ∪ list_to_set (strip <$> List.filter truthy (aliases c));
     entry_chapters_seen := entry_chapters_seen entry ∪ {[ chapter_id c ]};
     entry_importance_counts :=
       incr_count (importance c) (entry_importance_counts entry);
     entry_mentions := entry_mentions entry ++ [c] |}.

(** [char_map] is a [dict] that is later iterated: an association list in
    insertion order, without repeated keys. *)
Definition char_map_t : Type := list (string * Entry).

(** [name in char_map] *)
Fixpoint has_key (name : string) (char_map : char_map_t) : bool :=
  match char_map with
  | [] => false
  | (k, _) :: rest => String.eqb k name || has_key name rest
  end.

(** [char_map[name]] *)
Fixpoint get_entry (name : string) (char_map : char_map_t) : option Entry :=
  match char_map with
  | [] => None
  | (k, e) :: rest => if String.eqb k name then Some e else get_entry name rest
  end.

(** In-place update of the entry stored under [name]. *)
Fixpoint alter_entry (f : Entry -> Entry) (name : string) (char_map : char_map_t)
    : char_map_t :=
  match char_map with
  | [] => []
  | (k, e) :: rest =>
      if String.eqb k name then (k, f e) :: rest
      else (k, e) :: alter_entry f name rest
  end.

(** The body of the inner loop of [aggregate_characters]. *)
Definition add_mention (char_map : char_map_t) (c : ChapterCharacterMention)
    : char_map_t :=
  let name := strip (canonical_name c) in
  if negb (truthy name) then char_map
  else
    let char_map :=
      if has_key name char_map then char_map
      else char_map ++ [(name, new_entry)] in
    alter_entry (update_entry c) name char_map.

Definition aggregate_characters (chapter_results : list ChapterCharactersWithTraits)
    : char_map_t :=
  foldl (fun char_map ch => foldl add_mention char_map (characters ch))
        [] chapter_results.

Definition score_character (entry : Entry) : Q :=
  let counts := entry_importance_counts entry in
  let score :=
    (inject_Z (Z.of_nat (get_count counts main_protagonist)) * 3
     + inject_Z (Z.of_nat (get_count counts secondary_lead)) * 2
     + inject_Z (Z.of_nat (get_count counts supporting)) * 1)%Q in
  (score + inject_Z (Z.of_nat (size (entry_chapters_seen entry))) * (1 # 2))%Q.

(** [l.sort(key=key, reverse=True)].  Python's sort is stable, also with
    [reverse=True]: the result is ordered by decreasing key and items with
    equal keys keep their relative order.  [insert_desc] puts [x], which
    stood before every item of [l], in front of the first item whose key
    does not exceed its own. *)
Fixpoint insert_desc {A : Type} (key : A -> Q) (x : A) (l : list A) : list A :=
  match l with
  | [] => [x]
  | y :: l' =>
      if Qle_bool (key y) (key x) then x :: y :: l'
      else y :: insert_desc key x l'
  end.

Definition sort_reverse {A : Type} (key : A -> Q) (l : list A) : list A :=
  foldr (insert_desc key) [] l.

Definition scored_t : Type := string * Q * Entry.

Definition item_score (item : scored_t) : Q := item.1.2.

(** The list [scored] that the first loop of [select_main_characters]
    builds, in the iteration order of [char_map]. *)
Definition scored_items (char_map : char_map_t) : list scored_t :=
  (fun '(name, entry) => (name, score_character entry, entry)) <$> char_map.

Definition select_main_characters (char_map : char_map_t)
    (max_main_chars : Z) (min_score : Q) : list scored_t :=
  let scored := scored_items char_map in
  let scored := sort_reverse item_score scored in
  let scored := List.filter (fun item => Qle_bool min_score (item_score item)) scored in
  slice_to max_main_chars scored.

(** The property that [sort(reverse=True)] is documented to have, as a
    relation between the list before and after: same items, decreasing
    keys, and for every key value the items that have it in their original
    order. *)
Definition stable_sorted_desc {A : Type} (key : A -> Q) (l out : list A) : Prop :=
  l ≡ₚ out
  ∧ StronglySorted (fun a b => (key b <= key a)%Q) out
  ∧ ∀ q : Q, List.filter (fun a => Qeq_bool (key a) q) out
             = List.filter (fun a => Qeq_bool (key a) q) l.

(** The mentions of all chapters in visiting order. *)
Definition all_mentions (chapter_results : list ChapterCharactersWithTraits)
    : list ChapterCharacterMention :=
  chapter_results ≫= characters.

(** The mentions that [aggregate_characters] files under [name]. *)
Definition mentions_of (name : string) (l : list ChapterCharacterMention)
    : list ChapterCharacterMention :=
  List.filter (fun c => String.eqb (strip (canonical_name c)) name) l.

Definition importance_eqb (a b : Importance) : bool :=
  match a, b with
  | main_protagonist, main_protagonist
  | secondary_lead, secondary_lead
  | supporting, supporting
  | minor, minor => true
  | _, _ => false
  end.

Definition count_tier (tier : Importance) (l : list ChapterCharacterMention) : nat :=
  length (List.filter (fun c => importance_eqb (importance c) tier) l).

(** *** Auxiliary definitions of the properties, data of the scenarios *)

(** The updates of one entry by a list of mentions, in order. *)
Definition fold_entry (entry : Entry) (ms : list ChapterCharacterMention) : Entry :=
  foldl (fun e c => update_entry c e) entry ms.

(** The entry under [n] after a run of mentions, from the entry before. *)
Definition fold_opt (o : option Entry) (ms : list ChapterCharacterMention)
    : option Entry :=
  match ms with
  | [] => o
  | _ :: _ => Some (fold_entry (default new_entry o) ms)
  end.

(** A count as a score term. *)
Definition Qn (n : nat) : Q := inject_Z (Z.of_nat n).

Definition mention (name : string) (tier : Importance) (chapter : string)
    : ChapterCharacterMention :=
  {| canonical_name := name; aliases := []; importance := tier;
     chapter_id := chapter; chapter_role_summary := ""; trait_snippets := [] |}.

(** Scenario B of the specification: "Chu Yu" is [main_protagonist] in
    five chapters and [supporting] in a sixth; "Wei Yun" and "Gu Chusheng"
    tie at 5.0, "Steward" scores 3.0 and "Maid" 0.5. *)
Definition scenario_B : list ChapterCharactersWithTraits :=
  [ {| ch_chapter_id := "ch1";
       characters := [mention "Chu Yu" main_protagonist "ch1";
                      mention "Maid" minor "ch1"] |};
    {| ch_chapter_id := "ch2";
       characters := [mention "Chu Yu" main_protagonist "ch2";
                      mention "Wei Yun" secondary_lead "ch2";
                      mention "Gu Chusheng" secondary_lead "ch2"] |};
    {| ch_chapter_id := "ch3";
       characters := [mention " Chu Yu " main_protagonist "ch3";
                      mention "Gu Chusheng" secondary_lead "ch3";
                      mention "Wei Yun" secondary_lead "ch3"] |};
    {| ch_chapter_id := "ch4";
       characters := [mention "Steward" supporting "ch4";
                      mention "Chu Yu" supporting "ch4"] |};
    {| ch_chapter_id := "ch5";
       characters := [mention "Chu Yu" main_protagonist "ch5";
                      mention "Steward" supporting "ch5"] |};
    {| ch_chapter_id := "ch6";
       characters := [mention "Chu Yu" main_protagonist "ch6"] |} ].

Definition scenario_B_entry : Entry :=
  fold_entry new_entry (mentions_of "Chu Yu" (all_mentions scenario_B)).

Definition scenario_B_selected : list string :=
  fst ∘ fst <$> select_main_characters (aggregate_characters scenario_B) 3 3.

End BuildMainCharacterProfiles.

(** ** [trailer_to_keyframe.py]: scene index and keyframe deriver *)

Module TrailerToKeyframe.

Inductive ShotType : Type :=
  | ELS | LS | MLS | MS | MCU | CU | ECU
  | Insert | Low | High | BirdsEye | WormsEye.

Record Keyframe : Type := {
  kf_id : string;
  beat_id : string;
  order_in_beat : Z;
  suggested_duration_sec : Q;
  shot_type : ShotType;
  camera_angle : string;
  composition : string;
  action : string;
  emotion_tags : list string;
  characters : list string;
  story_grounding : json;
  dialogue_or_text : option string;
  image_prompt : string
}.

Record BeatKeyframes : Type := {
  bk_beat_id : string;
  bk_role : string;
  keyframes : list Keyframe
}.

Record KeyframePlan : Type := {
  plan_novel_id : string;
  plan_title : string;
  plan_keyframes : list Keyframe
}.

(** A scene as read back from [novel_scenes.json] (a [dict]); [scene_id]
    is what [s.get("scene_id")] returns. *)
Record Scene : Type := {
  scene_id : option string;
  chapter : string;
  brief : string;
  scene_characters : list string;
  scene_emotion_tags : list string;
  scene_function : string;
  original_text : string
}.

(** [chapter_id] is [ch.get("chapter_id", "")], [scenes] is
    [ch.get("scenes", [])]. *)
Record ChapterScenes : Type := {
  chapter_id : string;
  scenes : list Scene
}.

Record NovelScenes : Type := {
  ns_novel_id : option string;
  ns_title : option string;
  chapters : list ChapterScenes
}.

(** A beat as read back from [trailer_script.json] (a [dict]); the fields
    are what [beat.get(...)] returns, [None] for a missing key. *)
Record Beat : Type := {
  b_beat_id : option string;
  b_role : option string;
  b_duration_sec : option Q;
  b_source_scenes : option (list string);
  b_characters : option (list string);
  b_logline : option string;
  b_visual_idea : option string;
  b_key_moments : list string;
  b_dialogue_or_text : list string
}.

Record TrailerScript : Type := {
  ts_novel_id : option string;
  ts_title : option string;
  beats : list Beat
}.

(** [f"{chap_id}_s{sid}"] *)
Definition compound (chap_id sid : string) : string :=
  chap_id +:+ "_s" +:+ sid.

(** The body of the inner loop of [index_scenes_by_id]. *)
Definition index_scene (chap_id : string) (mapping : gmap string Scene) (s : Scene)
    : gmap string Scene :=
  match scene_id s with
  | None => mapping
  | Some sid =>
      if negb (truthy sid) then mapping
      else
        let mapping :=
          if truthy chap_id then <[compound chap_id sid := s]> mapping
          else mapping in
        <[sid := s]> mapping
  end.

Definition index_chapter (mapping : gmap string Scene) (ch : ChapterScenes)
    : gmap string Scene :=
  foldl (index_scene (chapter_id ch)) mapping (scenes ch).

Definition index_scenes_by_id (novel_scenes_output : NovelScenes)
    : gmap string Scene :=
  foldl index_chapter ∅ (chapters novel_scenes_output).

(** What [build_keyframe_prompt_for_beat] renders into the prompt text: the
    request is kept as the arguments of that function. *)
Record Prompt : Type := {
  prompt_beat : Beat;
  prompt_scenes_for_beat : list Scene;
  prompt_novel_id : string;
  prompt_title : string
}.

Definition build_keyframe_prompt_for_beat (beat : Beat) (scenes_for_beat : list Scene)
    (novel_id title : string) : Prompt :=
  {| prompt_beat := beat;
     prompt_scenes_for_beat := scenes_for_beat;
     prompt_novel_id := novel_id;
     prompt_title := title |}.

(** [kf.characters = beat_characters] *)
Definition set_characters (beat_characters : list string) (kf : Keyframe) : Keyframe :=
  {| kf_id := kf_id kf;
     beat_id := beat_id kf;
     order_in_beat := order_in_beat kf;
     suggested_duration_sec := suggested_duration_sec kf;
     shot_type := shot_type kf;
     camera_angle := camera_angle kf;
     composition := composition kf;
     action := action kf;
     emotion_tags := emotion_tags kf;
     characters := beat_characters;
     story_grounding := story_grounding kf;
     dialogue_or_text := dialogue_or_text kf;
     image_prompt := image_prompt kf |}.

(** [[scene_index[sid] for sid in source_ids if sid in scene_index]] *)
Definition resolve_scenes (scene_index : gmap string Scene) (source_ids : list string)
    : list Scene :=
  omap (fun sid => scene_index !! sid) source_ids.

Section Deriver.

Variable generate_content : client Prompt.
(** JSON decoding and validation against the [BeatKeyframes] schema. *)
Variable decode : string -> option BeatKeyframes.

(** The body of the loop over the beats: [None] when the beat is skipped
    by [continue], the keyframes appended to [all_keyframes] otherwise. *)
Definition keyframes_for_beat (scene_index : gmap string Scene)
    (novel_id title : string) (beat : Beat) : M Prompt (option (list Keyframe)) :=
  let source_ids := default [] (b_source_scenes beat) in
  let scenes_for_beat := resolve_scenes scene_index source_ids in
  match scenes_for_beat with
  | [] => mret None
  | _ :: _ =>
      let prompt := build_keyframe_prompt_for_beat beat scenes_for_beat novel_id title in
      response ← call generate_content prompt;
      raw ← lift (response_raw response);
      beat_kf ← lift (model_validate_json decode raw);
      let beat_characters := default [] (b_characters beat) in
      mret (Some (set_characters beat_characters <$> keyframes beat_kf))
  end.

(** The answer to the request for one beat, decoded. *)
Definition decoded_answer (log : list Prompt) (prompt : Prompt) : result BeatKeyframes :=
  response ← generate_content log prompt;
  raw ← response_raw response;
  model_validate_json decode raw.

(** [kf] is one of the keyframes appended for [beat]. *)
Definition derived_from (scene_index : gmap string Scene) (novel_id title : string)
    (beat : Beat) (kf : Keyframe) : Prop :=
  exists log0 log1 kfs,
    keyframes_for_beat scene_index novel_id title beat log0 = (Ok (Some kfs), log1)
    /\ kf ∈ kfs.

Fixpoint beats_loop (scene_index : gmap string Scene) (novel_id title : string)
    (beats : list Beat) (all_keyframes : list Keyframe) : M Prompt (list Keyframe) :=
  match beats with
  | [] => mret all_keyframes
  | beat :: rest =>
      r ← keyframes_for_beat scene_index novel_id title beat;
      match r with
      | None => beats_loop scene_index novel_id title rest all_keyframes
      | Some kfs => beats_loop scene_index novel_id title rest (all_keyframes ++ kfs)
      end
  end.

(** The plan that is written to [output_path]. *)
Definition generate_keyframes_for_trailer (novel_scenes_output : NovelScenes)
    (trailer_script : TrailerScript) : M Prompt KeyframePlan :=
  let scene_index := index_scenes_by_id novel_scenes_output in
  let novel_id :=
    if truthy_opt (ts_novel_id trailer_script)
    then default "" (ts_novel_id trailer_script)
    else default "unknown_novel" (ns_novel_id novel_scenes_output) in
  let title :=
    if truthy_opt (ts_title trailer_script)
    then default "" (ts_title trailer_script)
    else default "unknown_title" (ns_title novel_scenes_output) in
  all_keyframes ← beats_loop scene_index novel_id title (beats trailer_script) [];
  mret {| plan_novel_id := novel_id;
          plan_title := title;
          plan_keyframes := all_keyframes |}.

End Deriver.

(** The writes [index_scenes_by_id] performs, in order: for every scene
    with a non-empty [scene_id], its compound key (when the chapter has an
    id) and then its bare key. *)
Definition scene_writes (chap_id : string) (s : Scene) : list (string * Scene) :=
  match scene_id s with
  | None => []
  | Some sid =>
      if negb (truthy sid) then []
      else (if truthy chap_id then [(compound chap_id sid, s)] else [])
           ++ [(sid, s)]
  end.

Definition corpus_writes (novel_scenes_output : NovelScenes) : list (string * Scene) :=
  chapters novel_scenes_output ≫=
    (fun ch => scenes ch ≫= scene_writes (chapter_id ch)).

(** The last scene written under [key], if any. *)
Definition last_write (key : string) (writes : list (string * Scene)) : option Scene :=
  snd <$> last (List.filter (fun w => String.eqb w.1 key) writes).

(** *** Auxiliary definitions of the properties, data of the scenarios *)

(** One write into the index. *)
Definition write (mapping : gmap string Scene) (w : string * Scene) : gmap string Scene :=
  <[w.1 := w.2]> mapping.

(** A scene with the given [scene_id] and brief. *)
Definition scene (sid text : string) : Scene :=
  {| scene_id := Some sid; chapter := ""; brief := text; scene_characters := [];
     scene_emotion_tags := []; scene_function := ""; original_text := "" |}.

(** A corpus in which the key [v01_ch001_s1] is the compound form of the
    first scene of chapter [v01_ch001] and the bare [scene_id] of a scene of
    chapter [v01_ch002]. *)
Definition clashing_corpus : NovelScenes :=
  {| ns_novel_id := None; ns_title := None;
     chapters :=
       [ {| chapter_id := "v01_ch001";
            scenes := [scene "1" "the general returns"; scene "2" "the oath"] |};
         {| chapter_id := "v01_ch002";
            scenes := [scene "v01_ch001_s1" "a memory of the return"] |} ] |}.

(** A corpus in which two chapters hold a scene with the bare id [x_s1],
    which is also the compound key of the scene [1] of the later chapter
    [x]; and a corpus in which two chapters hold a scene with an empty id. *)
Definition shadowed_corpus : NovelScenes :=
  {| ns_novel_id := None; ns_title := None;
     chapters :=
       [ {| chapter_id := "a"; scenes := [scene "x_s1" "in chapter a"] |};
         {| chapter_id := "b"; scenes := [scene "x_s1" "in chapter b"] |};
         {| chapter_id := "x"; scenes := [scene "1" "in chapter x"] |} ] |}.

Definition unnamed_corpus : NovelScenes :=
  {| ns_novel_id := None; ns_title := None;
     chapters :=
       [ {| chapter_id := "a"; scenes := [scene "" "in chapter a"] |};
         {| chapter_id := "b"; scenes := [scene "" "in chapter b"] |} ] |}.

(** Scenario A of the specification: chapter [v01_ch001] with three scenes
    and chapter [v01_ch002] with two. *)
Definition scenario_A : NovelScenes :=
  {| ns_novel_id := Some "novel"; ns_title := Some "Title";
     chapters :=
       [ {| chapter_id := "v01_ch001";
            scenes := [scene "1" "a"; scene "2" "b"; scene "3" "c"] |};
         {| chapter_id := "v01_ch002";
            scenes := [scene "1" "d"; scene "2" "e"] |} ] |}.

(** A keyframe as the generation call returns it, with a character list
    of its own. *)
Definition generated_keyframe : Keyframe :=
  {| kf_id := "KF_B1_01"; beat_id := "B1"; order_in_beat := 1;
     suggested_duration_sec := 3; shot_type := MS;
     camera_angle := "eye level"; composition := "centered";
     action := "she opens the gate"; emotion_tags := ["resolve"];
     characters := ["A passer-by"];
     story_grounding := JObj [("scene_ids", JArr [JStr "v01_ch001_s1"])];
     dialogue_or_text := Some "She returns";
     image_prompt := "A woman opens a heavy gate at dawn" |}.

(** A generation service that answers every request with the same text,
    and a decoder that reads [generated_keyframe] out of that text. *)
Definition constant_client : client Prompt :=
  fun _ _ => Ok {| text := Some "json"; candidates := None;
                   prompt_feedback := None; usage_metadata := None |}.

Definition constant_decode : string -> option BeatKeyframes :=
  fun _ => Some {| bk_beat_id := "B1"; bk_role := "hook";
                   keyframes := [generated_keyframe] |}.

Definition beat_citing (id : string) (source_ids : list string) : Beat :=
  {| b_beat_id := Some id; b_role := Some "hook"; b_duration_sec := Some 6%Q;
     b_source_scenes := Some source_ids; b_characters := Some ["Chu Yu"];
     b_logline := Some ""; b_visual_idea := Some "";
     b_key_moments := []; b_dialogue_or_text := [] |}.

(** A script whose only beat cites one scene of scenario A and one scene
    that does not exist. *)
Definition half_dangling_script : TrailerScript :=
  {| ts_novel_id := Some "novel"; ts_title := Some "Title";
     beats := [beat_citing "B1" ["v01_ch001_s1"; "v01_ch001_s9"]] |}.

Definition half_dangling_run : result KeyframePlan * list Prompt :=
  generate_keyframes_for_trailer constant_client constant_decode scenario_A
    half_dangling_script [].

Definition two_beat_script : TrailerScript :=
  {| ts_novel_id := Some "novel"; ts_title := Some "Title";
     beats := [beat_citing "B1" ["v01_ch001_s1"; "v01_ch001_s3"];
               beat_citing "B2" ["v01_ch002_s2"]] |}.

End TrailerToKeyframe.

(** ** [scene_to_trailer.py]: trailer beat planner *)

Module SceneToTrailer.

Inductive BeatRole : Type := hook | conflict | escalation | cliffhanger.

Inductive SpoilerLevel : Type := spoiler_none | light | medium | heavy.

Record TrailerBeat : Type := {
  beat_id : string;
  role : BeatRole;
  duration_sec : Q;
  source_scenes : list string;
  characters : list string;
  logline : string;
  visual_idea : string;
  key_moments : list string;
  dialogue_or_text : list string;
  spoiler_level : SpoilerLevel;
  reasoning : string
}.

Record TrailerScript : Type := {
  novel_id : string;
  title : string;
  target_audience : string;
  platform : string;
  max_duration_sec : Z;
  style_tags : list string;
  beats : list TrailerBeat;
  notes_for_storyboard : string
}.

(** [novel_scenes.json] as loaded: the keys the planner reads, and the
    whole document, which goes into the prompt. *)
Record NovelScenes : Type := {
  ns_novel_id : option string;
  ns_metadata_bookCode : option string;
  ns_title : option string;
  ns_document : json
}.

(** The arguments [build_trailer_prompt] renders into the prompt text. *)
Record Prompt : Type := {
  prompt_novelscenes_json : json;
  prompt_novel_id : string;
  prompt_title : string;
  prompt_platform : string;
  prompt_max_duration_sec : Z
}.

Definition build_trailer_prompt (novelscenes_json : json) (novel_id title platform : string)
    (max_duration_sec : Z) : Prompt :=
  {| prompt_novelscenes_json := novelscenes_json;
     prompt_novel_id := novel_id;
     prompt_title := title;
     prompt_platform := platform;
     prompt_max_duration_sec := max_duration_sec |}.

(** The prompt [generate_trailer_script_from_scenes] builds from its
    arguments. *)
Definition trailer_prompt_for (novel_scenes : NovelScenes) (platform : string)
    (max_duration_sec : Z) : Prompt :=
  let novel_id :=
    or_else (ns_novel_id novel_scenes)
      (or_else (ns_metadata_bookCode novel_scenes)
         (or_else (ns_title novel_scenes) "unknown_novel")) in
  let title := or_else (ns_title novel_scenes) "unknown_title" in
  build_trailer_prompt (ns_document novel_scenes) novel_id title platform
    max_duration_sec.

Section Planner.

Variable generate_content : client Prompt.
(** JSON decoding and validation against the [TrailerScript] schema. *)
Variable decode : string -> option TrailerScript.

(** The script that is written to [output_path]. *)
Definition generate_trailer_script_from_scenes (novel_scenes : NovelScenes)
    (platform : string) (max_duration_sec : Z) : M Prompt TrailerScript :=
  let prompt := trailer_prompt_for novel_scenes platform max_duration_sec in
  response ← call generate_content prompt;
  raw ← lift (response_raw response);
  trailer_script ← lift (model_validate_json decode raw);
  mret trailer_script.

End Planner.

(** [sum(beat.duration_sec for beat in beats)] *)
Definition total_duration (script : TrailerScript) : Q :=
  foldl (fun acc beat => (acc + duration_sec beat)%Q) 0%Q (beats script).

(** *** Data of the scenarios *)

Definition beat (id : string) (r : BeatRole) (seconds : Q) : TrailerBeat :=
  {| beat_id := id; role := r; duration_sec := seconds;
     source_scenes := ["v01_ch001_s1"]; characters := ["Chu Yu"];
     logline := ""; visual_idea := ""; key_moments := []; dialogue_or_text := [];
     spoiler_level := light; reasoning := "" |}.

Definition script_of (beats : list TrailerBeat) : TrailerScript :=
  {| novel_id := "novel"; title := "Title"; target_audience := "";
     platform := "tiktok"; max_duration_sec := 30; style_tags := [];
     beats := beats; notes_for_storyboard := "" |}.

(** Scenario C of the specification: four beats of 6, 8, 10 and 4 seconds,
    and the same with the third beat at 14 seconds. *)
Definition scenario_C_valid : TrailerScript :=
  script_of [beat "B1" hook 6; beat "B2" conflict 8;
             beat "B3" escalation 10; beat "B4" cliffhanger 4].

Definition scenario_C_too_long : TrailerScript :=
  script_of [beat "B1" hook 6; beat "B2" conflict 8;
             beat "B3" escalation 14; beat "B4" cliffhanger 4].

Definition novel_scenes_file : NovelScenes :=
  {| ns_novel_id := Some "novel"; ns_metadata_bookCode := None;
     ns_title := Some "Title"; ns_document := JObj [] |}.

(** A generation service that answers every request with the same text,
    and a decoder that reads [script] out of that text. *)
Definition answering : client Prompt :=
  fun _ _ => Ok {| text := Some "json"; candidates := None;
                   prompt_feedback := None; usage_metadata := None |}.

Definition decoding_to (script : TrailerScript) : string -> option TrailerScript :=
  fun _ => Some script.

End SceneToTrailer.

(** ** [novel_world_profile.py]: two-stage world profile *)

Module NovelWorldProfile.

Record ChapterWorldHints : Type := {
  h_novel_name : string;
  h_chapter_id : string;
  time_and_era : string;
  geography_and_region : string;
  h_social_structure : string;
  tech_and_warfare : string;
  h_typical_locales : list string;
  clothing_and_wardrobe : list (string * string);
  h_color_and_mood : string;
  h_visual_motifs : list string;
  h_global_style : string
}.

Record WorldProfile : Type := {
  wp_novel_name : string;
  world_summary : string;
  era_label : string;
  region_style : string;
  tech_level : string;
  social_structure : string;
  typical_locales : list string;
  wardrobe_guide : list (string * string);
  color_and_mood : string;
  visual_motifs : list string;
  global_style : string
}.

(** [novel.json] as loaded: what [.get] returns for the keys that are read. *)
Record Chapter : Type := {
  ch_name : option string;
  ch_chapter_id : option string;
  ch_content : string
}.

Record Volume : Type := { vol_chapters : list Chapter }.

Record Novel : Type := {
  n_name : option string;
  n_title : option string;
  n_summary : string;
  n_volumes : list Volume
}.

(** The two prompts, kept as the arguments of
    [build_chapter_hints_prompt] and [build_world_profile_prompt_from_hints]. *)
Inductive Prompt : Type :=
  | ChapterHintsPrompt (novel_name chapter_id chapter_text : string)
  | WorldProfilePrompt (novel_name novel_summary : string)
      (hints_list : list ChapterWorldHints).

Definition set_hints_novel_name (novel_name : string) (hints : ChapterWorldHints)
    : ChapterWorldHints :=
  {| h_novel_name := novel_name;
     h_chapter_id := h_chapter_id hints;
     time_and_era := time_and_era hints;
     geography_and_region := geography_and_region hints;
     h_social_structure := h_social_structure hints;
     tech_and_warfare := tech_and_warfare hints;
     h_typical_locales := h_typical_locales hints;
     clothing_and_wardrobe := clothing_and_wardrobe hints;
     h_color_and_mood := h_color_and_mood hints;
     h_visual_motifs := h_visual_motifs hints;
     h_global_style := h_global_style hints |}.

Definition set_profile_novel_name (name : string) (profile : WorldProfile)
    : WorldProfile :=
  {| wp_novel_name := name;
     world_summary := world_summary profile;
     era_label := era_label profile;
     region_style := region_style profile;
     tech_level := tech_level profile;
     social_structure := social_structure profile;
     typical_locales := typical_locales profile;
     wardrobe_guide := wardrobe_guide profile;
     color_and_mood := color_and_mood profile;
     visual_motifs := visual_motifs profile;
     global_style := global_style profile |}.

Section TwoStage.

Variable generate_content : client Prompt.
Variable decode_hints : string -> option ChapterWorldHints.
Variable decode_profile : string -> option WorldProfile.

Definition extract_chapter_world_hints (novel_name chapter_id chapter_text : string)
    : M Prompt ChapterWorldHints :=
  let prompt := ChapterHintsPrompt novel_name chapter_id chapter_text in
  response ← call generate_content prompt;
  raw ← lift (response_raw response);
  hints ← lift (model_validate_json decode_hints raw);
  mret (if negb (truthy (h_novel_name hints))
        then set_hints_novel_name novel_name hints
        else hints).

Definition build_world_profile_from_hints (novel_name novel_summary : string)
    (hints_list : list ChapterWorldHints) : M Prompt WorldProfile :=
  let prompt := WorldProfilePrompt novel_name novel_summary hints_list in
  response ← call generate_content prompt;
  raw ← lift (response_raw response);
  profile ← lift (model_validate_json decode_profile raw);
  mret (if negb (truthy (wp_novel_name profile))
        then set_profile_novel_name novel_name profile
        else profile).

(** [ch.get("name") or ch.get("chapter_id") or "Unknown chapter"] *)
Definition chapter_label (ch : Chapter) : string :=
  or_else (ch_name ch) (or_else (ch_chapter_id ch) "Unknown chapter").

(** The request of stage one for a chapter. *)
Definition hints_prompt (novel_name : string) (ch : Chapter) : Prompt :=
  ChapterHintsPrompt novel_name (chapter_label ch) (ch_content ch).

(** [hints] is what stage one extracts for [ch] at some point of the run. *)
Definition hints_of (novel_name : string) (ch : Chapter) (hints : ChapterWorldHints)
    : Prop :=
  exists log0 log1,
    extract_chapter_world_hints novel_name (chapter_label ch) (ch_content ch) log0
    = (Ok hints, log1).

(** Stage one: the loop over the chapters that fills [hints_list]. *)
Fixpoint hints_loop (novel_name : string) (chapters : list Chapter)
    (hints_list : list ChapterWorldHints) : M Prompt (list ChapterWorldHints) :=
  match chapters with
  | [] => mret hints_list
  | ch :: rest =>
      hints ← extract_chapter_world_hints novel_name (chapter_label ch) (ch_content ch);
      hints_loop novel_name rest (hints_list ++ [hints])
  end.

(** The chapters that are scanned: those of [volumes[0]], cut by
    [chapters[:max_chapters]] unless [max_chapters] is [None]. *)
Definition scanned_chapters (data : Novel) (max_chapters : option Z)
    : result (list Chapter) :=
  match n_volumes data with
  | [] => Raise (ValueError "no volumes")
  | v :: _ =>
      match vol_chapters v with
      | [] => Raise (ValueError "volumes[0].chapters is empty")
      | chapters =>
          Ok match max_chapters with
             | Some k => slice_to k chapters
             | None => chapters
             end
      end
  end.

(** The profile that is written to [output_path]. *)
Definition build_world_profile_two_stage (data : Novel) (max_chapters : option Z)
    : M Prompt WorldProfile :=
  let novel_name := or_else (n_name data) (or_else (n_title data) "Unknown novel") in
  let novel_summary := n_summary data in
  chapters ← lift (scanned_chapters data max_chapters);
  hints_list ← hints_loop novel_name chapters [];
  build_world_profile_from_hints novel_name novel_summary hints_list.

End TwoStage.

(** All chapters of the novel, volume after volume. *)
Definition all_chapters (data : Novel) : list Chapter :=
  n_volumes data ≫= vol_chapters.

(** The hints lists passed to world-profile generation calls, in the order
    of the calls. *)
Definition profile_calls (log : list Prompt) : list (list ChapterWorldHints) :=
  omap (fun p => match p with
                 | WorldProfilePrompt _ _ hints_list => Some hints_list
                 | ChapterHintsPrompt _ _ _ => None
                 end) log.

(** *** Data of the scenarios *)

(** A service that answers a chapter request with the chapter label, and a
    decoder that reads a hints record for that label. *)
Definition echo_client : client Prompt :=
  fun _ prompt =>
    Ok {| text := Some match prompt with
                       | ChapterHintsPrompt _ chapter_id _ => chapter_id
                       | WorldProfilePrompt _ _ _ => "profile"
                       end;
          candidates := None; prompt_feedback := None; usage_metadata := None |}.

Definition hints_for (chapter_id : string) : ChapterWorldHints :=
  {| h_novel_name := "Novel"; h_chapter_id := chapter_id; time_and_era := "";
     geography_and_region := ""; h_social_structure := ""; tech_and_warfare := "";
     h_typical_locales := []; clothing_and_wardrobe := []; h_color_and_mood := "";
     h_visual_motifs := []; h_global_style := "" |}.

Definition a_profile : WorldProfile :=
  {| wp_novel_name := "Novel"; world_summary := ""; era_label := ""; region_style := "";
     tech_level := ""; social_structure := ""; typical_locales := [];
     wardrobe_guide := []; color_and_mood := ""; visual_motifs := [];
     global_style := "" |}.

Definition chapter_named (name : string) : Chapter :=
  {| ch_name := Some name; ch_chapter_id := None; ch_content := "text of " +:+ name |}.

(** A novel of two volumes: chapters 1 and 2, then chapter 3. *)
Definition two_volume_novel : Novel :=
  {| n_name := Some "Novel"; n_title := None; n_summary := "summary";
     n_volumes :=
       [ {| vol_chapters := [chapter_named "chapter 1"; chapter_named "chapter 2"] |};
         {| vol_chapters := [chapter_named "chapter 3"] |} ] |}.

Definition run_on (data : Novel) (max_chapters : option Z)
    : result WorldProfile * list Prompt :=
  build_world_profile_two_stage echo_client (fun s => Some (hints_for s))
    (fun _ => Some a_profile) data max_chapters [].

End NovelWorldProfile.

(** ** [unify_keyframe_style.py]: style guide and prompt rewriter *)

Module UnifyKeyframeStyle.

Record Keyframe : Type := {
  kf_id : string;
  beat_id : string;
  order_in_beat : Z;
  suggested_duration_sec : Q;
  shot_type : string;
  camera_angle : string;
  composition : string;
  action : string;
  emotion_tags : list string;
  characters : list string;
  story_grounding : json;
  dialogue_or_text : string;
  image_prompt : string
}.

Record KeyframePlan : Type := {
  novel_id : string;
  title : string;
  keyframes : list Keyframe
}.

Record CharacterStyle : Type := {
  cs_name : string;
  cs_role : string;
  visual_description : string
}.

Record GlobalStyle : Type := {
  rendering_style : string;
  lighting_style : string;
  color_palette : string;
  environment_style : string;
  notes : string
}.

Record TrailerStyleGuide : Type := {
  sg_novel_id : string;
  sg_title : string;
  global_style : GlobalStyle;
  sg_characters : list CharacterStyle
}.

(** The two prompts, kept as the arguments of [build_style_guide_prompt]
    and [build_rewrite_prompt]. *)
Inductive Prompt : Type :=
  | StyleGuidePrompt (plan : KeyframePlan) (world_profile : option json)
  | RewritePrompt (style : TrailerStyleGuide) (kf : Keyframe).

Definition build_style_guide_prompt (plan : KeyframePlan) (world_profile : option json)
    : Prompt := StyleGuidePrompt plan world_profile.

Definition build_rewrite_prompt (style : TrailerStyleGuide) (kf : Keyframe) : Prompt :=
  RewritePrompt style kf.

(** The three token counters of [main]. *)
Record Tokens : Type := {
  total_prompt_tokens : Z;
  total_completion_tokens : Z;
  total_tokens : Z
}.

Definition max_retries : nat := 5.

(** ["503" in error_msg or "overloaded" in error_msg.lower()] *)
Definition overloaded (error_msg : string) : bool :=
  contains "503" error_msg || contains "overloaded" (lower error_msg).

(** [x += n], where the count read from the usage record may be [None]. *)
Definition add_count (x : Z) (n : option Z) : result Z :=
  match n with
  | Some n => Ok (x + n)%Z
  | None => Raise TypeError
  end.

(** The accounting after a call that produced a result. *)
Definition count_usage (resp : Response) (tokens : Tokens) : result Tokens :=
  match usage_metadata resp with
  | None => Ok tokens
  | Some usage =>
      p ← add_count (total_prompt_tokens tokens) (prompt_token_count usage);
      c ← add_count (total_completion_tokens tokens) (candidates_token_count usage);
      t ← add_count (total_tokens tokens) (total_token_count usage);
      Ok {| total_prompt_tokens := p;
            total_completion_tokens := c;
            total_tokens := t |}
  end.

(** The accounting after the last blocked attempt: only the prompt tokens. *)
Definition count_blocked_usage (resp : Response) (tokens : Tokens) : result Tokens :=
  match usage_metadata resp with
  | None => Ok tokens
  | Some usage =>
      p ← add_count (total_prompt_tokens tokens) (prompt_token_count usage);
      t ← add_count (total_tokens tokens) (prompt_token_count usage);
      Ok {| total_prompt_tokens := p;
            total_completion_tokens := total_completion_tokens tokens;
            total_tokens := t |}
  end.

(** [resp.prompt_feedback] is set and its [block_reason] is true. *)
Definition blocked (resp : Response) : bool :=
  match prompt_feedback resp with
  | Some feedback => truthy_opt (block_reason feedback)
  | None => false
  end.

(** [kf.model_copy(update={"image_prompt": new_prompt})] *)
Definition set_image_prompt (new_prompt : string) (kf : Keyframe) : Keyframe :=
  {| kf_id := kf_id kf;
     beat_id := beat_id kf;
     order_in_beat := order_in_beat kf;
     suggested_duration_sec := suggested_duration_sec kf;
     shot_type := shot_type kf;
     camera_angle := camera_angle kf;
     composition := composition kf;
     action := action kf;
     emotion_tags := emotion_tags kf;
     characters := characters kf;
     story_grounding := story_grounding kf;
     dialogue_or_text := dialogue_or_text kf;
     image_prompt := new_prompt |}.

(** The body of the [try] that looks for a text in the candidates when
    [resp.text] is blank. *)
Definition candidate_text (resp : Response) : result (option string) :=
  match candidates resp with
  | None | Some [] => Raise (ValueError "No candidates in response")
  | Some (c :: _) =>
      match content c with
      | None => Raise AttributeError
      | Some ct =>
          match parts ct with
          | None | Some [] => Raise (ValueError "No parts in response")
          | Some (p :: _) => Ok (part_text p)
          end
      end
  end.

Section Rewriter.

Variable generate_content : client Prompt.
(** JSON decoding and validation against the [TrailerStyleGuide] schema. *)
Variable decode : string -> option TrailerStyleGuide.

(** The retry loop around the style-guide call.  [remaining] is
    [max_retries - retry_count]: the loop runs while it is positive, and an
    attempt that fails on an overloaded server decreases it and gives up
    when it reaches zero.  Started at [max_retries] the loop always leaves
    by [break] or [raise]. *)
Fixpoint style_attempts (remaining : nat) (style_prompt : Prompt) : M Prompt Response :=
  match remaining with
  | 0 => raise UnboundLocalError
  | S r =>
      a ← try_call generate_content style_prompt;
      match a with
      | Ok style_resp => mret style_resp
      | Raise (ServerError error_msg) =>
          if overloaded error_msg then
            match r with
            | 0 => raise (ServerError error_msg)
            | S _ => style_attempts r style_prompt
            end
          else raise (ServerError error_msg)
      | Raise e => raise e
      end
  end.

(** The retry loop around one rewrite call; it yields [content_blocked],
    the last response and the counters. *)
Fixpoint rewrite_attempts (remaining : nat) (rewrite_prompt : Prompt) (tokens : Tokens)
    : M Prompt (bool * Response * Tokens) :=
  match remaining with
  | 0 => raise UnboundLocalError
  | S r =>
      a ← try_call generate_content rewrite_prompt;
      match a with
      | Ok resp =>
          if blocked resp then
            match r with
            | 0 =>
                tokens ← lift (count_blocked_usage resp tokens);
                mret (true, resp, tokens)
            | S _ => rewrite_attempts r rewrite_prompt tokens
            end
          else mret (false, resp, tokens)
      | Raise (ServerError error_msg) =>
          if overloaded error_msg then
            match r with
            | 0 => raise (ServerError error_msg)
            | S _ => rewrite_attempts r rewrite_prompt tokens
            end
          else raise (ServerError error_msg)
      | Raise e => raise e
      end
  end.

(** The body of the loop over the keyframes: the keyframe appended to
    [new_keyframes] and the counters. *)
Definition rewrite_keyframe (style_guide : TrailerStyleGuide) (kf : Keyframe)
    (tokens : Tokens) : M Prompt (Keyframe * Tokens) :=
  let rewrite_prompt := build_rewrite_prompt style_guide kf in
  '(content_blocked, resp, tokens) ← rewrite_attempts max_retries rewrite_prompt tokens;
  if content_blocked : bool then mret (kf, tokens)
  else
    let new_prompt := text resp in
    found ←
      (if blank new_prompt
       then try_except (t ← lift (candidate_text resp); mret (Some t))
                       (fun _ => mret None)
       else mret (Some new_prompt));
    match found with
    | None => mret (kf, tokens)
    | Some new_prompt =>
        tokens ← lift (count_usage resp tokens);
        match new_prompt with
        | None => raise AttributeError
        | Some new_prompt => mret (set_image_prompt (strip new_prompt) kf, tokens)
        end
    end.

Fixpoint keyframes_loop (style_guide : TrailerStyleGuide) (kfs : list Keyframe)
    (new_keyframes : list Keyframe) (tokens : Tokens)
    : M Prompt (list Keyframe * Tokens) :=
  match kfs with
  | [] => mret (new_keyframes, tokens)
  | kf :: rest =>
      '(kf', tokens) ← rewrite_keyframe style_guide kf tokens;
      keyframes_loop style_guide rest (new_keyframes ++ [kf']) tokens
  end.

(** The styled plan that is written to [output_path], and the counters
    that are printed. *)
Definition main (plan : KeyframePlan) (world_profile : option json)
    : M Prompt (KeyframePlan * Tokens) :=
  let tokens :=
    {| total_prompt_tokens := 0; total_completion_tokens := 0; total_tokens := 0 |} in
  let style_prompt := build_style_guide_prompt plan world_profile in
  style_resp ← style_attempts max_retries style_prompt;
  style_raw ← lift (response_raw style_resp);
  style_guide ← lift (model_validate_json decode style_raw);
  tokens ← lift (count_usage style_resp tokens);
  '(new_keyframes, tokens) ← keyframes_loop style_guide (keyframes plan) [] tokens;
  mret ({| novel_id := novel_id plan;
           title := title plan;
           keyframes := new_keyframes |}, tokens).

End Rewriter.

(** Two keyframes that differ at most in [image_prompt]. *)
Definition same_but_image_prompt (old new : Keyframe) : Prop :=
  kf_id new = kf_id old
  ∧ beat_id new = beat_id old
  ∧ order_in_beat new = order_in_beat old
  ∧ suggested_duration_sec new = suggested_duration_sec old
  ∧ shot_type new = shot_type old
  ∧ camera_angle new = camera_angle old
  ∧ composition new = composition old
  ∧ action new = action old
  ∧ emotion_tags new = emotion_tags old
  ∧ characters new = characters old
  ∧ story_grounding new = story_grounding old
  ∧ dialogue_or_text new = dialogue_or_text old.

(** *** Data of the scenarios *)

(** A run on a plan of two keyframes. *)
Definition keyframe (id prompt : string) : Keyframe :=
  {| kf_id := id; beat_id := "B1"; order_in_beat := 1; suggested_duration_sec := 3;
     shot_type := "MS"; camera_angle := "eye level"; composition := "centered";
     action := "she opens the gate"; emotion_tags := ["resolve"];
     characters := ["Chu Yu"]; story_grounding := JObj [];
     dialogue_or_text := "She returns"; image_prompt := prompt |}.

Definition input_plan : KeyframePlan :=
  {| novel_id := "novel"; title := "Title";
     keyframes := [keyframe "KF_B1_01" "A woman opens a heavy gate at dawn";
                   keyframe "KF_B1_02" "A courtyard under snow"] |}.

Definition a_style_guide : TrailerStyleGuide :=
  {| sg_novel_id := "novel"; sg_title := "Title";
     global_style := {| rendering_style := "hand-painted"; lighting_style := "warm";
                        color_palette := "muted reds"; environment_style := "courtyards";
                        notes := "" |};
     sg_characters := [] |}.

Definition answer (t : option string) (cs : option (list Candidate)) : Response :=
  {| text := t; candidates := cs; prompt_feedback := None; usage_metadata := None |}.

Definition candidate_with (t : option string) : Candidate :=
  {| content := Some {| parts := Some [ {| part_text := t |} ] |} |}.

(** A service that answers the style-guide request, answers the rewrite
    request of keyframe [KF_B1_01] with [first] and any other rewrite
    request with a painted version. *)
Definition client_answering (first : Response) : client Prompt :=
  fun _ prompt =>
    match prompt with
    | StyleGuidePrompt _ _ => Ok (answer (Some "style guide json") None)
    | RewritePrompt _ kf =>
        if String.eqb (kf_id kf) "KF_B1_01" then Ok first
        else Ok (answer (Some "  A painted courtyard under snow ") None)
    end.

(** The plan written by a run from an empty log, or the exception that
    ends it. *)
Definition run_with (first : Response) : result KeyframePlan :=
  match main (client_answering first) (fun _ => Some a_style_guide) input_plan None [] with
  | (Ok (new_plan, _), _) => Ok new_plan
  | (Raise e, _) => Raise e
  end.

Definition styled (prompts : list string) : KeyframePlan :=
  {| novel_id := "novel"; title := "Title";
     keyframes := zip_with set_image_prompt prompts (keyframes input_plan) |}.

End UnifyKeyframeStyle.

(** ** Further notions on the character aggregator *)

Module AggregatedMap.
Import BuildMainCharacterProfiles.

(** The names under which a map has entries, in insertion order. *)
Definition names (char_map : char_map_t) : list string := char_map.*1.

(** The four counters of an entry, added up. *)
Definition total_count (counts : ImportanceCounts) : nat :=
  count_main_protagonist counts + count_secondary_lead counts
  + count_supporting counts + count_minor counts.

(** The aliases one mention adds to its entry. *)
Definition mention_aliases (c : ChapterCharacterMention) : list string :=
  strip <$> List.filter truthy (aliases c).

(** Scenario B with two further chapters. *)
Definition scenario_B_sequel : list ChapterCharactersWithTraits :=
  [ {| ch_chapter_id := "ch7";
       characters := [mention "Song Shilan" supporting "ch7";
                      mention "Wei Yun" secondary_lead "ch7"] |};
    {| ch_chapter_id := "ch8";
       characters := [mention "   " minor "ch8";
                      mention "Chu Yu" main_protagonist "ch8"] |} ].

(** The scored item of "Steward" in scenario B. *)
Definition scenario_B_steward : scored_t :=
  let entry := default new_entry (get_entry "Steward" (aggregate_characters scenario_B)) in
  ("Steward", score_character entry, entry).

End AggregatedMap.

(** ** [build_main_character_profiles.py]: from the novel to the profiles *)

Module MainCharacterProfiles.
Import BuildMainCharacterProfiles.

Record CharacterBaseProfile : Type := {
  novel_name : string;
  character_name : string;
  profile_aliases : list string;
  core_appearance : list (string * string);
  baseline_outfit : list (string * string);
  temperament_baseline : list string;
  scene_variants : list (list (string * string));
  supporting_quotes : list string
}.

(** [novel.json] as loaded: what [.get] returns for the keys that are read. *)
Record Chapter : Type := {
  ch_name : option string;
  ch_id : option string;
  ch_content : string
}.

Record Volume : Type := { vol_chapters : list Chapter }.

Record Novel : Type := {
  n_name : option string;
  n_volumes : list Volume
}.

(** The two prompts, kept as the arguments of [build_chapter_prompt] and
    [build_profile_prompt].  The profile prompt renders the aliases as
    [sorted({a for a in aliases if a})]: it depends on the set of the
    non-empty aliases only, which is what is kept. *)
Inductive Prompt : Type :=
  | ChapterPrompt (novel_title chapter_id chapter_text : string) (max_characters : Z)
  | ProfilePrompt (novel_title character_name : string) (aliases : gset string)
      (mentions : list ChapterCharacterMention).

Definition build_chapter_prompt (novel_title chapter_id chapter_text : string) : Prompt :=
  ChapterPrompt novel_title chapter_id chapter_text 12.

(** [aliases] arrives as [list(entry["aliases"])]. *)
Definition build_profile_prompt (novel_title character_name : string)
    (aliases : gset string) (mentions : list ChapterCharacterMention) : Prompt :=
  ProfilePrompt novel_title character_name
    (filter (fun a => a <> "") aliases) mentions.

(** [profile.novel_name = novel_title] *)
Definition set_novel_name (novel_title : string) (profile : CharacterBaseProfile)
    : CharacterBaseProfile :=
  {| novel_name := novel_title;
     character_name := character_name profile;
     profile_aliases := profile_aliases profile;
     core_appearance := core_appearance profile;
     baseline_outfit := baseline_outfit profile;
     temperament_baseline := temperament_baseline profile;
     scene_variants := scene_variants profile;
     supporting_quotes := supporting_quotes profile |}.

Section Flow.

Variable generate_content : client Prompt.
Variable decode_chapter : string -> option ChapterCharactersWithTraits.
Variable decode_profile : string -> option CharacterBaseProfile.

Definition analyze_chapter_characters (novel_title chapter_id chapter_text : string)
    : M Prompt ChapterCharactersWithTraits :=
  let prompt := build_chapter_prompt novel_title chapter_id chapter_text in
  resp ← call generate_content prompt;
  raw ← lift (response_raw resp);
  lift (model_validate_json decode_chapter raw).

Definition build_character_profile_from_mentions (novel_title character_name : string)
    (aliases : gset string) (mentions : list ChapterCharacterMention)
    : M Prompt CharacterBaseProfile :=
  let prompt := build_profile_prompt novel_title character_name aliases mentions in
  resp ← call generate_content prompt;
  raw ← lift (response_raw resp);
  profile ← lift (model_validate_json decode_profile raw);
  mret (set_novel_name novel_title profile).

(** [ch.get("name") or ch.get("chapter_id") or "Unknown chapter"] *)
Definition chapter_id_of (ch : Chapter) : string :=
  or_else (ch_name ch) (or_else (ch_id ch) "Unknown chapter").

(** The loop that fills [chapter_results]. *)
Fixpoint chapters_loop (novel_title : string) (chapters_raw : list Chapter)
    (chapter_results : list ChapterCharactersWithTraits)
    : M Prompt (list ChapterCharactersWithTraits) :=
  match chapters_raw with
  | [] => mret chapter_results
  | ch :: rest =>
      result ← analyze_chapter_characters novel_title (chapter_id_of ch) (ch_content ch);
      chapters_loop novel_title rest (chapter_results ++ [result])
  end.

(** The loop that fills [profiles]. *)
Fixpoint profiles_loop (novel_title : string) (main_candidates : list scored_t)
    (profiles : list CharacterBaseProfile) : M Prompt (list CharacterBaseProfile) :=
  match main_candidates with
  | [] => mret profiles
  | (name, _, entry) :: rest =>
      profile ← build_character_profile_from_mentions novel_title name
                  (entry_aliases entry) (entry_mentions entry);
      profiles_loop novel_title rest (profiles ++ [profile])
  end.

(** The chapters that are scanned: those of [volumes[0]], cut by
    [chapters_raw[:max_chapters_to_scan]] unless the bound is [None]. *)
Definition chapters_to_scan (data : Novel) (max_chapters_to_scan : option Z)
    : result (list Chapter) :=
  match n_volumes data with
  | [] => Raise (ValueError "No volumes found in novel JSON")
  | v :: _ =>
      Ok match max_chapters_to_scan with
         | Some k => slice_to k (vol_chapters v)
         | None => vol_chapters v
         end
  end.

(** The profiles that are returned and written to
    [character_base_profiles.json]. *)
Definition build_main_character_profiles_from_novel (data : Novel)
    (max_chapters_to_scan : option Z) (max_main_chars : Z)
    : M Prompt (list CharacterBaseProfile) :=
  let novel_title := default "Unknown novel" (n_name data) in
  chapters_raw ← lift (chapters_to_scan data max_chapters_to_scan);
  chapter_results ← chapters_loop novel_title chapters_raw [];
  let char_map := aggregate_characters chapter_results in
  let main_candidates := select_main_characters char_map max_main_chars 3 in
  profiles_loop novel_title main_candidates [].

(** [result] is what the analysis of [ch] returns at some point of a run. *)
Definition analysis_of (novel_title : string) (ch : Chapter)
    (result : ChapterCharactersWithTraits) : Prop :=
  exists log0 log1,
    analyze_chapter_characters novel_title (chapter_id_of ch) (ch_content ch) log0
    = (Ok result, log1).

End Flow.

(** The request for the chapter [ch] and the request for a candidate. *)
Definition chapter_prompt (novel_title : string) (ch : Chapter) : Prompt :=
  build_chapter_prompt novel_title (chapter_id_of ch) (ch_content ch).

Definition candidate_prompt (novel_title : string) (item : scored_t) : Prompt :=
  build_profile_prompt novel_title item.1.1 (entry_aliases item.2) (entry_mentions item.2).

(** Data of the example: a service that answers a chapter request with the
    chapter label and a profile request with the character name; a decoder
    that reads the chapters of scenario B by their labels, and a decoder
    that reads a profile naming another novel. *)
Definition echoing_client : client Prompt :=
  fun _ prompt =>
    Ok {| text := Some match prompt with
                       | ChapterPrompt _ chapter_id _ _ => chapter_id
                       | ProfilePrompt _ character_name _ _ => character_name
                       end;
          candidates := None; prompt_feedback := None; usage_metadata := None |}.

Definition scenario_B_decode (label : string) : option ChapterCharactersWithTraits :=
  head (List.filter (fun ch => String.eqb (ch_chapter_id ch) label) scenario_B).

Definition profile_for (name : string) : CharacterBaseProfile :=
  {| novel_name := "another title"; character_name := name; profile_aliases := [];
     core_appearance := []; baseline_outfit := []; temperament_baseline := [];
     scene_variants := []; supporting_quotes := [] |}.

Definition scenario_B_novel : Novel :=
  {| n_name := Some "The Novel";
     n_volumes :=
       [ {| vol_chapters :=
              (fun label => {| ch_name := Some label; ch_id := None;
                               ch_content := "text" |})
              <$> ["ch1"; "ch2"; "ch3"; "ch4"; "ch5"; "ch6"; "ch7"] |};
         {| vol_chapters := [ {| ch_name := Some "ch8"; ch_id := None;
                                 ch_content := "text" |} ] |} ] |}.

Definition scenario_B_run : result (list CharacterBaseProfile) * list Prompt :=
  build_main_character_profiles_from_novel echoing_client scenario_B_decode
    (fun name => Some (profile_for name)) scenario_B_novel (Some 6%Z) 2 [].

End MainCharacterProfiles.

(** ** Further notions on the scene index and the deriver *)

Module SceneCorpus.
Import TrailerToKeyframe.

(** An id in the style of a sequence number: not empty and without the
    separator ["_s"] of compound keys. *)
Definition plain_id (sid : string) : Prop :=
  sid <> "" /\ contains "_s" sid = false.

(** A corpus as the scene extractor is meant to write it: chapters have
    distinct non-empty ids, and within a chapter the scenes have distinct
    plain ids. *)
Definition well_formed (novel_scenes_output : NovelScenes) : Prop :=
  NoDup (chapter_id <$> chapters novel_scenes_output)
  /\ forall ch, ch ∈ chapters novel_scenes_output ->
       chapter_id ch <> ""
       /\ NoDup (scene_id <$> scenes ch)
       /\ forall s, s ∈ scenes ch -> exists sid, scene_id s = Some sid /\ plain_id sid.

(** The id under which [build_keyframe_prompt_for_beat] presents a scene:
<<
    sid = s.get("scene_id", "")
    chap = s.get("chapter", "")
    scene_uid = f"{chap}_s{sid}" if chap and sid else sid
>> *)
Definition scene_uid (s : Scene) : string :=
  let sid := default "" (scene_id s) in
  let chap := chapter s in
  if truthy chap && truthy sid then compound chap sid else sid.

(** The scenes a beat cites that the index resolves, and the beats for
    which a request is sent. *)
Definition cited_scenes (scene_index : gmap string Scene) (beat : Beat) : list Scene :=
  resolve_scenes scene_index (default [] (b_source_scenes beat)).

Definition is_processed (scene_index : gmap string Scene) (beat : Beat) : bool :=
  match cited_scenes scene_index beat with
  | [] => false
  | _ :: _ => true
  end.

Definition processed_beats (scene_index : gmap string Scene) (beats : list Beat)
    : list Beat :=
  List.filter (is_processed scene_index) beats.

Definition prompt_of (scene_index : gmap string Scene) (novel_id title : string)
    (beat : Beat) : Prompt :=
  build_keyframe_prompt_for_beat beat (cited_scenes scene_index beat) novel_id title.

(** The keyframes appended for a beat whose request was answered with
    [answer]. *)
Definition group_of (beat : Beat) (answer : BeatKeyframes) : list Keyframe :=
  set_characters (default [] (b_characters beat)) <$> keyframes answer.

(** [kfs] is what is appended for [beat] when its request is answered at
    some point of a run. *)
Definition answered_with (generate_content : client Prompt)
    (decode : string -> option BeatKeyframes) (scene_index : gmap string Scene)
    (novel_id title : string) (beat : Beat) (kfs : list Keyframe) : Prop :=
  exists log0 answer,
    decoded_answer generate_content decode log0
      (prompt_of scene_index novel_id title beat) = Ok answer
    /\ kfs = group_of beat answer.

(** The ids [generate_keyframes_for_trailer] puts into the prompts and the
    plan. *)
Definition run_novel_id (novel_scenes_output : NovelScenes) (trailer_script : TrailerScript)
    : string :=
  if truthy_opt (ts_novel_id trailer_script)
  then default "" (ts_novel_id trailer_script)
  else default "unknown_novel" (ns_novel_id novel_scenes_output).

Definition run_title (novel_scenes_output : NovelScenes) (trailer_script : TrailerScript)
    : string :=
  if truthy_opt (ts_title trailer_script)
  then default "" (ts_title trailer_script)
  else default "unknown_title" (ns_title novel_scenes_output).

(** A scene that names its chapter. *)
Definition scene_in (chap sid text : string) : Scene :=
  {| scene_id := Some sid; chapter := chap; brief := text; scene_characters := [];
     scene_emotion_tags := []; scene_function := ""; original_text := "" |}.

(** A service that fails on the request for beat [B2] and answers the
    other requests in the same way. *)
Definition failing_on_B2 : client Prompt :=
  fun _ prompt =>
    if bool_decide (b_beat_id (prompt_beat prompt) = Some "B2")
    then Raise (ServerError "500 INTERNAL")
    else Ok {| text := Some "json"; candidates := None;
               prompt_feedback := None; usage_metadata := None |}.

Definition three_beat_script : TrailerScript :=
  {| ts_novel_id := Some "novel"; ts_title := Some "Title";
     beats := [beat_citing "B1" ["v01_ch001_s1"];
               beat_citing "B2" ["v01_ch001_s2"; "2"];
               beat_citing "B3" ["v01_ch002_s1"]] |}.

End SceneCorpus.

(** ** [novel_world_profile.py]: the requests of a run *)

Module WorldProfileRun.
Import NovelWorldProfile.

(** [data.get("name") or data.get("title") or "Unknown novel"] *)
Definition run_novel_name (data : Novel) : string :=
  or_else (n_name data) (or_else (n_title data) "Unknown novel").

(** The request of stage two. *)
Definition profile_prompt (data : Novel) (hints_list : list ChapterWorldHints) : Prompt :=
  WorldProfilePrompt (run_novel_name data) (n_summary data) hints_list.

(** The novel name a request carries. *)
Definition prompt_novel_name (p : Prompt) : string :=
  match p with
  | ChapterHintsPrompt novel_name _ _ => novel_name
  | WorldProfilePrompt novel_name _ _ => novel_name
  end.

(** *** Data of the scenarios *)

(** A service that is down when it is asked about ["chapter 2"]. *)
Definition failing_on_chapter_2 : client Prompt :=
  fun log prompt =>
    match prompt with
    | ChapterHintsPrompt _ "chapter 2" _ => Raise (ServerError "500 INTERNAL")
    | _ => echo_client log prompt
    end.

Definition three_chapter_novel : Novel :=
  {| n_name := None; n_title := Some "Novel"; n_summary := "summary";
     n_volumes :=
       [ {| vol_chapters := [chapter_named "chapter 1"; chapter_named "chapter 2";
                             chapter_named "chapter 3"] |} ] |}.

(** A decoded record that carries no novel name. *)
Definition anonymous_profile : WorldProfile :=
  set_profile_novel_name "" a_profile.

Definition empty_volume_novel : Novel :=
  {| n_name := Some "Novel"; n_title := None; n_summary := "";
     n_volumes := [ {| vol_chapters := [] |};
                    {| vol_chapters := [chapter_named "chapter 1"] |} ] |}.

End WorldProfileRun.

(** ** [unify_keyframe_style.py]: the attempts of a run *)

Module StyleRun.
Import UnifyKeyframeStyle.

(** The outcome of a style-guide attempt after which the loop goes round
    again, if attempts are left: a [ServerError] of an overloaded server. *)
Definition style_retried (a : result Response) : bool :=
  match a with
  | Raise (ServerError error_msg) => overloaded error_msg
  | _ => false
  end.

(** The same for a rewrite attempt: a blocked answer as well. *)
Definition rewrite_retried (a : result Response) : bool :=
  match a with
  | Ok resp => blocked resp
  | Raise (ServerError error_msg) => overloaded error_msg
  | Raise _ => false
  end.

(** The requests of the rewrite loop when keyframe [i] takes [counts !! i]
    attempts. *)
Definition rewrite_requests (style_guide : TrailerStyleGuide) (counts : list nat)
    (kfs : list Keyframe) : list Prompt :=
  concat (zip_with (fun k kf => replicate k (build_rewrite_prompt style_guide kf))
            counts kfs).

(** *** Data of the scenarios *)

(** A service that is overloaded for the first two requests it receives. *)
Definition overloaded_twice : client Prompt :=
  fun log prompt =>
    if length log <? 2 then Raise (ServerError "503 UNAVAILABLE")
    else client_answering (answer (Some "A painted gate at dawn") None) log prompt.

Definition blocked_answer : Response :=
  {| text := None; candidates := None;
     prompt_feedback := Some {| block_reason := Some "PROHIBITED_CONTENT" |};
     usage_metadata := None |}.

(** A service that blocks the first two rewrite requests it receives. *)
Definition blocking_twice : client Prompt :=
  fun log prompt =>
    match prompt with
    | StyleGuidePrompt _ _ => Ok (answer (Some "style guide json") None)
    | RewritePrompt _ _ =>
        if length log <? 3 then Ok blocked_answer
        else Ok (answer (Some " A painted gate at dawn ") None)
    end.

(** A usage record whose total is the sum of its two parts, and counters
    in the same relation. *)
Definition consistent_usage (resp : Response) : Prop :=
  forall usage p c t,
    usage_metadata resp = Some usage ->
    prompt_token_count usage = Some p ->
    candidates_token_count usage = Some c ->
    total_token_count usage = Some t ->
    t = (p + c)%Z.

Definition balanced (tokens : Tokens) : Prop :=
  total_tokens tokens
  = (total_prompt_tokens tokens + total_completion_tokens tokens)%Z.

(** A service that reports 10 prompt tokens and 5 completion tokens for
    every answer, and blocks the rewrite requests of keyframe [KF_B1_02]. *)
Definition metered (resp : Response) : Response :=
  {| text := text resp; candidates := candidates resp;
     prompt_feedback := prompt_feedback resp;
     usage_metadata := Some {| prompt_token_count := Some 10%Z;
                               candidates_token_count := Some 5%Z;
                               total_token_count := Some 15%Z |} |}.

Definition metered_client : client Prompt :=
  fun _ prompt =>
    match prompt with
    | StyleGuidePrompt _ _ => Ok (metered (answer (Some "style guide json") None))
    | RewritePrompt _ kf =>
        if String.eqb (kf_id kf) "KF_B1_02" then Ok (metered blocked_answer)
        else Ok (metered (answer (Some "A painted gate at dawn") None))
    end.

(** The answer to attempt [attempts] of the rewrite request of keyframe
    [KF_B1_01] from a service that returns an empty text and a first
    candidate part of two spaces. *)
Definition rewrite_prompt_answer (attempts : nat) : result Response :=
  client_answering (answer (Some "") (Some [candidate_with (Some "  ")]))
    (replicate (attempts - 1)
       (build_rewrite_prompt a_style_guide (keyframe "KF_B1_01" "A gate")))
    (build_rewrite_prompt a_style_guide (keyframe "KF_B1_01" "A gate")).

Definition no_tokens : Tokens :=
  {| total_prompt_tokens := 0; total_completion_tokens := 0; total_tokens := 0 |}.

End StyleRun.

(** * Properties *)

(** ** The Python helpers on small inputs *)

Module PyExamples.

Example strip_spaces : strip "  Chu Yu  " = "Chu Yu".
Proof. reflexivity. Qed.

Example strip_blank : strip "   " = "".
Proof. reflexivity. Qed.

Example strip_inner : strip "a b" = "a b".
Proof. reflexivity. Qed.

Example blank_whitespace : blank (Some "  ") = true /\ blank None = true
                           /\ blank (Some " x ") = false.
Proof. by repeat split. Qed.

Example contains_503 : contains "503" "503 UNAVAILABLE" = true.
Proof. reflexivity. Qed.

Example contains_lower :
  contains "overloaded" (lower "The model is Overloaded.") = true
  /\ contains "overloaded" "The model is Overloaded." = false.
Proof. by split. Qed.

Example slice_to_examples :
  slice_to 2 [1; 2; 3] = [1; 2] /\ slice_to 5 [1; 2; 3] = [1; 2; 3]
  /\ slice_to 0 [1; 2; 3] = [] /\ slice_to (-5) [1; 2; 3] = [].
Proof. by repeat split. Qed.

Example or_else_examples :
  or_else (Some "a") "d" = "a" /\ or_else (Some "") "d" = "d" /\ or_else None "d" = "d".
Proof. by repeat split. Qed.

Example response_raw_examples :
  response_raw {| text := Some "x"; candidates := None;
                  prompt_feedback := None; usage_metadata := None |} = Ok (Some "x")
  /\ response_raw {| text := None; candidates := Some [];
                     prompt_feedback := None; usage_metadata := None |} = Raise IndexError.
Proof. by split. Qed.

End PyExamples.

(** ** Character aggregator *)

Module CharacterAggregator.
Import BuildMainCharacterProfiles.

Section Sorting.

Context {A : Type} (key : A -> Q).

Lemma insert_desc_perm (x : A) (l : list A) : insert_desc key x l ≡ₚ x :: l.
Proof.
  induction l as [|y l IH]; simpl; [done|].
  destruct (Qle_bool (key y) (key x)); [done|].
  rewrite IH. apply Permutation_swap.
Qed.

Lemma sort_reverse_perm (l : list A) : l ≡ₚ sort_reverse key l.
Proof.
  induction l as [|x l IH]; simpl; [done|].
  rewrite insert_desc_perm. by constructor.
Qed.

Lemma insert_desc_sorted (x : A) (l : list A) :
  StronglySorted (fun a b => (key b <= key a)%Q) l ->
  StronglySorted (fun a b => (key b <= key a)%Q) (insert_desc key x l).
Proof.
  induction 1 as [|y l Hl IH Hy]; simpl.
  - repeat constructor.
  - destruct (Qle_bool (key y) (key x)) eqn:E.
    + apply Qle_bool_iff in E.
      constructor; [by constructor|].
      constructor; [done|].
      eapply Forall_impl; [exact Hy|]. intros z Hz. simpl in Hz.
      by eapply Qle_trans.
    + constructor; [done|].
      assert (key x <= key y)%Q as Hxy.
      { apply Qlt_le_weak, Qnot_le_lt. intros H. apply Qle_bool_iff in H. congruence. }
      rewrite (Forall_forall (fun b => (key b <= key y)%Q)).
      intros z Hz. rewrite insert_desc_perm in Hz.
      apply elem_of_cons in Hz as [->|Hz]; [done|].
      rewrite Forall_forall in Hy. by apply Hy.
Qed.

Lemma sort_reverse_sorted (l : list A) :
  StronglySorted (fun a b => (key b <= key a)%Q) (sort_reverse key l).
Proof.
  induction l as [|x l IH]; simpl; [constructor|].
  by apply insert_desc_sorted.
Qed.

Lemma insert_desc_filter (q : Q) (x : A) (l : list A) :
  List.filter (fun a => Qeq_bool (key a) q) (insert_desc key x l)
  = List.filter (fun a => Qeq_bool (key a) q) (x :: l).
Proof.
  induction l as [|y l IH]; [done|].
  cbn [insert_desc].
  destruct (Qle_bool (key y) (key x)) eqn:E; [done|].
  cbn [List.filter] in *. rewrite IH.
  destruct (Qeq_bool (key x) q) eqn:Ex; [|done].
  destruct (Qeq_bool (key y) q) eqn:Ey; [|done].
  apply Qeq_bool_iff in Ex, Ey.
  assert (Qle_bool (key y) (key x) = true); [|congruence].
  apply Qle_bool_iff. rewrite Ex, Ey. apply Qle_refl.
Qed.

Lemma sort_reverse_stable (q : Q) (l : list A) :
  List.filter (fun a => Qeq_bool (key a) q) (sort_reverse key l)
  = List.filter (fun a => Qeq_bool (key a) q) l.
Proof.
  induction l as [|x l IH]; [done|].
  cbn [sort_reverse foldr]. rewrite insert_desc_filter.
  cbn [List.filter]. fold (sort_reverse key l). by rewrite IH.
Qed.

(** The model of [sort(reverse=True)] has the documented property. *)
Lemma sort_reverse_spec (l : list A) : stable_sorted_desc key l (sort_reverse key l).
Proof.
  split; [apply sort_reverse_perm|].
  split; [apply sort_reverse_sorted|].
  intros q. apply sort_reverse_stable.
Qed.

(** Two decreasing lists with the same items per key value are equal. *)
Lemma stable_sorted_unique (l1 l2 : list A) :
  StronglySorted (fun a b => (key b <= key a)%Q) l1 ->
  StronglySorted (fun a b => (key b <= key a)%Q) l2 ->
  (forall q, List.filter (fun a => Qeq_bool (key a) q) l1
             = List.filter (fun a => Qeq_bool (key a) q) l2) ->
  l1 = l2.
Proof.
  intros H1. revert l2.
  induction H1 as [|x l1 Hs1 IH Hx]; intros l2 H2 Hf.
  - destruct l2 as [|y l2]; [done|].
    specialize (Hf (key y)). cbn in Hf.
    rewrite (proj2 (Qeq_bool_iff _ _) (Qeq_refl _)) in Hf. done.
  - destruct H2 as [|y l2 Hs2 Hy].
    { specialize (Hf (key x)). cbn in Hf.
      rewrite (proj2 (Qeq_bool_iff _ _) (Qeq_refl _)) in Hf. done. }
    assert (In_filter : forall (l : list A) q a,
              In a (List.filter (fun a => Qeq_bool (key a) q) l) -> In a l).
    { intros l q a Ha. by apply filter_In in Ha as [? _]. }
    assert (key y <= key x)%Q as Hyx.
    { pose proof (Hf (key y)) as Hq. cbn in Hq.
      rewrite (proj2 (Qeq_bool_iff (key y) _) (Qeq_refl _)) in Hq.
      destruct (Qeq_bool (key x) (key y)) eqn:E.
      - apply Qeq_bool_iff in E. rewrite E. apply Qle_refl.
      - assert (In y (List.filter (fun a => Qeq_bool (key a) (key y)) l1)) as Hin
          by (rewrite Hq; by left).
        apply In_filter, list_elem_of_In in Hin.
        rewrite Forall_forall in Hx. by apply Hx. }
    assert (key x <= key y)%Q as Hxy.
    { pose proof (Hf (key x)) as Hq. cbn in Hq.
      rewrite (proj2 (Qeq_bool_iff (key x) _) (Qeq_refl _)) in Hq.
      destruct (Qeq_bool (key y) (key x)) eqn:E.
      - apply Qeq_bool_iff in E. rewrite E. apply Qle_refl.
      - assert (In x (List.filter (fun a => Qeq_bool (key a) (key x)) l2)) as Hin
          by (rewrite <- Hq; by left).
        apply In_filter, list_elem_of_In in Hin.
        rewrite Forall_forall in Hy. by apply Hy. }
    assert (key x == key y)%Q as Heq by (by apply Qle_antisym).
    assert (x = y) as ->.
    { pose proof (Hf (key y)) as Hq. cbn in Hq.
      rewrite (proj2 (Qeq_bool_iff (key y) _) (Qeq_refl _)) in Hq.
      rewrite (proj2 (Qeq_bool_iff (key x) _) Heq) in Hq. congruence. }
    f_equal. apply IH; [done|].
    intros q. specialize (Hf q). cbn in Hf.
    destruct (Qeq_bool (key y) q); congruence.
Qed.

Lemma stable_sorted_desc_unique (l out : list A) :
  stable_sorted_desc key l out -> out = sort_reverse key l.
Proof.
  intros (_ & Hs & Hf).
  apply stable_sorted_unique; [done|apply sort_reverse_sorted|].
  intros q. by rewrite Hf, sort_reverse_stable.
Qed.

End Sorting.

(** *** What [aggregate_characters] stores *)

Lemma get_entry_alter (f : Entry -> Entry) (k n : string) (m : char_map_t) :
  get_entry n (alter_entry f k m)
  = if String.eqb k n then f <$> get_entry n m else get_entry n m.
Proof.
  induction m as [|[k' e] m IH]; simpl.
  - by destruct (String.eqb k n).
  - destruct (String.eqb k' k) eqn:Ek; simpl.
    + apply String.eqb_eq in Ek as ->.
      by destruct (String.eqb k n).
    + destruct (String.eqb k' n) eqn:En; [|done].
      apply String.eqb_eq in En as ->.
      destruct (String.eqb k n) eqn:E; [|done].
      apply String.eqb_eq in E as ->. by rewrite String.eqb_refl in Ek.
Qed.

Lemma get_entry_snoc (k n : string) (e : Entry) (m : char_map_t) :
  get_entry n (m ++ [(k, e)])
  = match get_entry n m with
    | Some x => Some x
    | None => if String.eqb k n then Some e else None
    end.
Proof.
  induction m as [|[k' e'] m IH]; simpl; [done|].
  by destruct (String.eqb k' n).
Qed.

Lemma has_key_get_entry (n : string) (m : char_map_t) :
  has_key n m = bool_decide (is_Some (get_entry n m)).
Proof.
  induction m as [|[k e] m IH]; simpl; [done|].
  by destruct (String.eqb k n).
Qed.

Lemma get_entry_add_mention (n : string) (m : char_map_t) (c : ChapterCharacterMention) :
  get_entry n (add_mention m c)
  = if truthy n && String.eqb (strip (canonical_name c)) n
    then Some (update_entry c (default new_entry (get_entry n m)))
    else get_entry n m.
Proof.
  unfold add_mention.
  destruct (String.eqb (strip (canonical_name c)) n) eqn:E.
  - apply String.eqb_eq in E as ->.
    destruct (truthy n) eqn:Ht; simpl; [|done].
    rewrite get_entry_alter, String.eqb_refl, has_key_get_entry.
    destruct (get_entry n m) as [e|] eqn:Hg; simpl.
    + by rewrite Hg.
    + by rewrite get_entry_snoc, Hg, String.eqb_refl.
  - rewrite andb_false_r.
    destruct (truthy (strip (canonical_name c))); simpl; [|done].
    rewrite get_entry_alter, E.
    destruct (has_key _ m); [done|].
    rewrite get_entry_snoc, E. by destruct (get_entry n m).
Qed.

Lemma get_entry_foldl_add_mention (n : string) (l : list ChapterCharacterMention)
    (m : char_map_t) :
  get_entry n (foldl add_mention m l)
  = fold_opt (get_entry n m) (if truthy n then mentions_of n l else []).
Proof.
  revert m. induction l as [|c l IH]; intros m; simpl.
  - by destruct (truthy n).
  - rewrite IH, get_entry_add_mention.
    destruct (truthy n); simpl; [|done].
    destruct (String.eqb (strip (canonical_name c)) n); simpl; [|done].
    by destruct (mentions_of n l).
Qed.

Lemma aggregate_characters_flat (chapter_results : list ChapterCharactersWithTraits) :
  aggregate_characters chapter_results
  = foldl add_mention [] (all_mentions chapter_results).
Proof.
  unfold aggregate_characters, all_mentions.
  generalize ([] : char_map_t).
  induction chapter_results as [|ch crs IH]; intros m; simpl; [done|].
  by rewrite IH, foldl_app.
Qed.

(** An entry of the aggregated map is the fold of the mentions filed under
    its name, which are at least one. *)
Lemma aggregate_characters_entry (chapter_results : list ChapterCharactersWithTraits)
    (name : string) (entry : Entry) :
  get_entry name (aggregate_characters chapter_results) = Some entry ->
  entry = fold_entry new_entry (mentions_of name (all_mentions chapter_results))
  /\ mentions_of name (all_mentions chapter_results) <> [].
Proof.
  rewrite aggregate_characters_flat, get_entry_foldl_add_mention. simpl.
  destruct (truthy name); simpl; [|done].
  destruct (mentions_of name (all_mentions chapter_results)); simpl; [done|].
  intros [= <-]. done.
Qed.

Lemma fold_entry_counts (tier : Importance) (ms : list ChapterCharacterMention)
    (entry : Entry) :
  get_count (entry_importance_counts (fold_entry entry ms)) tier
  = get_count (entry_importance_counts entry) tier + count_tier tier ms.
Proof.
  revert entry. induction ms as [|c ms IH]; intros entry; simpl.
  - unfold count_tier. simpl. lia.
  - unfold fold_entry in IH. rewrite IH. unfold count_tier. simpl.
    destruct (importance c), tier; simpl; lia.
Qed.

Lemma fold_entry_chapters_seen (ms : list ChapterCharacterMention) (entry : Entry) :
  entry_chapters_seen (fold_entry entry ms)
  = entry_chapters_seen entry ∪ list_to_set (chapter_id <$> ms).
Proof.
  revert entry. induction ms as [|c ms IH]; intros entry; simpl.
  - by rewrite union_empty_r_L.
  - unfold fold_entry in IH. rewrite IH. simpl. by rewrite (assoc_L (∪)).
Qed.

Lemma fold_entry_mentions (ms : list ChapterCharacterMention) (entry : Entry) :
  entry_mentions (fold_entry entry ms) = entry_mentions entry ++ ms.
Proof.
  revert entry. induction ms as [|c ms IH]; intros entry; simpl.
  - by rewrite app_nil_r.
  - unfold fold_entry in IH. rewrite IH. simpl. by rewrite <- app_assoc.
Qed.

Lemma score_character_formula (entry : Entry) :
  (score_character entry ==
     3 * Qn (get_count (entry_importance_counts entry) main_protagonist)
     + 2 * Qn (get_count (entry_importance_counts entry) secondary_lead)
     + 1 * Qn (get_count (entry_importance_counts entry) supporting)
     + (1 # 2) * Qn (size (entry_chapters_seen entry)))%Q.
Proof. unfold score_character, Qn. ring. Qed.

Lemma scenario_B_aggregated :
  get_entry "Chu Yu" (aggregate_characters scenario_B) = Some scenario_B_entry.
Proof.
  rewrite aggregate_characters_flat, get_entry_foldl_add_mention. reflexivity.
Qed.

(** C3. Every entry of the aggregated character map scores 3 times the
    number of [main_protagonist] mentions filed under its name, plus 2
    times the [secondary_lead] ones, plus 1 time the [supporting] ones, plus
    0.5 times the number of distinct chapters of these mentions; [minor]
    mentions add nothing.  With 5 [main_protagonist] mentions, no
    [secondary_lead] one, 1 [supporting] one and 6 distinct chapters the
    score is 19. *)
Theorem score_character_spec (chapter_results : list ChapterCharactersWithTraits)
    (name : string) (entry : Entry) :
  get_entry name (aggregate_characters chapter_results) = Some entry ->
  let ms := mentions_of name (all_mentions chapter_results) in
  let chapters_seen : gset string := list_to_set (chapter_id <$> ms) in
  (score_character entry ==
     3 * Qn (count_tier main_protagonist ms)
     + 2 * Qn (count_tier secondary_lead ms)
     + 1 * Qn (count_tier supporting ms)
     + (1 # 2) * Qn (size chapters_seen))%Q
  /\ (count_tier main_protagonist ms = 5 ->
      count_tier secondary_lead ms = 0 ->
      count_tier supporting ms = 1 ->
      size chapters_seen = 6 ->
      (score_character entry == 19)%Q).
Proof.
  intros Hentry ms chapters_seen.
  apply aggregate_characters_entry in Hentry as [-> _]. fold ms.
  assert (score_character (fold_entry new_entry ms) ==
     3 * Qn (count_tier main_protagonist ms)
     + 2 * Qn (count_tier secondary_lead ms)
     + 1 * Qn (count_tier supporting ms)
     + (1 # 2) * Qn (size chapters_seen))%Q as Hscore.
  { rewrite score_character_formula, !fold_entry_counts, fold_entry_chapters_seen.
    simpl. rewrite union_empty_l_L. reflexivity. }
  split; [exact Hscore|].
  intros H1 H2 H3 H4. rewrite Hscore, H1, H2, H3, H4. reflexivity.
Qed.

Lemma score_character_spec_witness :
  get_entry "Chu Yu" (aggregate_characters scenario_B) = Some scenario_B_entry
  /\ (score_character scenario_B_entry == 19)%Q.
Proof.
  split; [exact scenario_B_aggregated|].
  apply (score_character_spec scenario_B "Chu Yu" scenario_B_entry scenario_B_aggregated);
    vm_compute; reflexivity.
Defined.

(** *** Selection *)

Lemma slice_to_nonneg {A : Type} (k : Z) (l : list A) :
  (0 <= k)%Z -> slice_to k l = take (Z.to_nat k) l.
Proof. intros Hk. unfold slice_to. by rewrite (proj2 (Z.leb_le 0 k) Hk). Qed.

(** A negative bound is not a count: [l[:-1]] drops the last item. *)
Example slice_to_negative : slice_to (-1) [1; 2; 3] = [1; 2].
Proof. reflexivity. Qed.

(** C4, as stated, fails: [max_main_chars] is not a bound on the length of
    the selection when it is negative.  In scenario B four characters reach
    the score 3; with [max_main_chars = -1] the slice drops the last of
    them and three are returned, which is more than [-1]. *)
Lemma negative_bound_is_not_a_count :
  fst ∘ fst <$> select_main_characters (aggregate_characters scenario_B) 4 3
  = ["Chu Yu"; "Wei Yun"; "Gu Chusheng"; "Steward"]
  /\ fst ∘ fst <$> select_main_characters (aggregate_characters scenario_B) (-1) 3
     = ["Chu Yu"; "Wei Yun"; "Gu Chusheng"]
  /\ ~ (Z.of_nat (length (select_main_characters (aggregate_characters scenario_B) (-1) 3))
        <= -1)%Z.
Proof.
  split; [vm_compute; reflexivity|]. split; [vm_compute; reflexivity|].
  vm_compute. intros H. by apply H.
Qed.

(** C4, amended.  [select_main_characters] returns the scored entries
    sorted by decreasing score, entries of equal score in the order of the
    input map (a stable sort), without the entries whose score is strictly
    below [min_score], cut by the slice [[:max_main_chars]]: to the first
    [max_main_chars] of them, so to at most [max_main_chars], when the bound
    is not negative, and to all but the last [-max_main_chars] of them when
    it is negative. *)
Theorem select_main_characters_spec (char_map : char_map_t) (max_main_chars : Z)
    (min_score : Q) (sorted : list scored_t) :
  stable_sorted_desc item_score (scored_items char_map) sorted ->
  let kept := List.filter (fun item => Qle_bool min_score (item_score item)) sorted in
  let selected := select_main_characters char_map max_main_chars min_score in
  ((0 <= max_main_chars)%Z ->
     selected = take (Z.to_nat max_main_chars) kept
     /\ (Z.of_nat (length selected) <= max_main_chars)%Z)
  /\ ((max_main_chars < 0)%Z ->
      selected = take (length kept - Z.to_nat (- max_main_chars)) kept
      /\ length selected = length kept - Z.to_nat (- max_main_chars))
  /\ (forall item, item ∈ sorted ->
        (item ∈ kept <-> ~ (item_score item < min_score)%Q)).
Proof.
  intros Hsorted kept selected.
  apply stable_sorted_desc_unique in Hsorted.
  assert (selected = slice_to max_main_chars kept) as Hsel.
  { unfold selected, select_main_characters, kept. by rewrite Hsorted. }
  split; [|split].
  - intros Hk. rewrite Hsel, slice_to_nonneg by done.
    split; [done|]. rewrite length_take. lia.
  - intros Hk. rewrite Hsel. unfold slice_to.
    rewrite (proj2 (Z.leb_gt 0 max_main_chars) Hk).
    replace (Z.to_nat (Z.of_nat (length kept) + max_main_chars))
      with (length kept - Z.to_nat (- max_main_chars)) by lia.
    split; [done|]. rewrite length_take. lia.
  - intros item Hitem. unfold kept.
    rewrite list_elem_of_In, filter_In, <- list_elem_of_In, Qle_bool_iff.
    split.
    + intros [_ Hle] Hlt. by apply Qle_not_lt in Hle.
    + intros Hnlt. split; [done|]. by apply Qnot_lt_le.
Qed.

Lemma select_main_characters_spec_witness :
  scenario_B_selected = ["Chu Yu"; "Wei Yun"; "Gu Chusheng"]
  /\ select_main_characters (aggregate_characters scenario_B) 3 3
     = take 3 (List.filter (fun item => Qle_bool 3 (item_score item))
                 (sort_reverse item_score
                    (scored_items (aggregate_characters scenario_B))))
  /\ select_main_characters (aggregate_characters scenario_B) (-1) 3
     = take (length (List.filter (fun item => Qle_bool 3 (item_score item))
                       (sort_reverse item_score
                          (scored_items (aggregate_characters scenario_B)))) - 1)
         (List.filter (fun item => Qle_bool 3 (item_score item))
            (sort_reverse item_score
               (scored_items (aggregate_characters scenario_B)))).
Proof.
  split; [vm_compute; reflexivity|]. split.
  - apply (select_main_characters_spec (aggregate_characters scenario_B) 3 3
             (sort_reverse item_score (scored_items (aggregate_characters scenario_B)))
             (sort_reverse_spec _ _)).
    vm_compute. discriminate.
  - apply (select_main_characters_spec (aggregate_characters scenario_B) (-1) 3
             (sort_reverse item_score (scored_items (aggregate_characters scenario_B)))
             (sort_reverse_spec _ _)).
    reflexivity.
Defined.

End CharacterAggregator.

(** ** Scene index and keyframe deriver *)

Module KeyframeDeriver.
Import TrailerToKeyframe.

(** *** The scene index is the last write per key *)

Lemma index_scene_writes (chap_id : string) (mapping : gmap string Scene) (s : Scene) :
  index_scene chap_id mapping s = foldl write mapping (scene_writes chap_id s).
Proof.
  unfold index_scene, scene_writes.
  destruct (scene_id s) as [sid|]; [|done].
  destruct (truthy sid); [|done]. simpl.
  by destruct (truthy chap_id).
Qed.

Lemma index_chapter_writes (mapping : gmap string Scene) (ch : ChapterScenes) :
  index_chapter mapping ch
  = foldl write mapping (scenes ch ≫= scene_writes (chapter_id ch)).
Proof.
  unfold index_chapter. generalize (scenes ch) as l. intros l. revert mapping.
  induction l as [|s l IH]; intros mapping; simpl; [done|].
  by rewrite IH, foldl_app, index_scene_writes.
Qed.

Lemma index_scenes_by_id_writes (novel_scenes_output : NovelScenes) :
  index_scenes_by_id novel_scenes_output
  = foldl write ∅ (corpus_writes novel_scenes_output).
Proof.
  unfold index_scenes_by_id, corpus_writes.
  generalize (∅ : gmap string Scene) as mapping.
  induction (chapters novel_scenes_output) as [|ch l IH]; intros mapping; simpl; [done|].
  by rewrite IH, foldl_app, index_chapter_writes.
Qed.

Lemma last_write_cons (key : string) (w : string * Scene) (ws : list (string * Scene)) :
  last_write key (w :: ws)
  = match last_write key ws with
    | Some s => Some s
    | None => if String.eqb w.1 key then Some w.2 else None
    end.
Proof.
  unfold last_write. simpl.
  destruct (String.eqb w.1 key); [|by destruct (last _)].
  destruct (List.filter _ ws) as [|w' l] eqn:E; [done|].
  change (last (w :: w' :: l)) with (last (w' :: l)).
  destruct (last (w' :: l)) eqn:El; [done|].
  by apply last_None in El.
Qed.

Lemma lookup_foldl_write (key : string) (ws : list (string * Scene))
    (mapping : gmap string Scene) :
  foldl write mapping ws !! key
  = match last_write key ws with
    | Some s => Some s
    | None => mapping !! key
    end.
Proof.
  revert mapping. induction ws as [|w ws IH]; intros mapping; [done|].
  simpl. rewrite IH, last_write_cons.
  destruct (last_write key ws); [done|].
  unfold write. destruct (String.eqb w.1 key) eqn:E.
  - apply String.eqb_eq in E as <-. by rewrite lookup_insert_eq.
  - apply String.eqb_neq in E. by rewrite lookup_insert_ne.
Qed.

Lemma lookup_index_scenes_by_id (novel_scenes_output : NovelScenes) (key : string) :
  index_scenes_by_id novel_scenes_output !! key
  = last_write key (corpus_writes novel_scenes_output).
Proof.
  rewrite index_scenes_by_id_writes, lookup_foldl_write, lookup_empty.
  by destruct (last_write _ _).
Qed.

Lemma last_write_app (key : string) (ws1 ws2 : list (string * Scene)) :
  last_write key (ws1 ++ ws2)
  = match last_write key ws2 with
    | Some s => Some s
    | None => last_write key ws1
    end.
Proof.
  induction ws1 as [|w ws1 IH]; simpl.
  - by destruct (last_write key ws2).
  - rewrite !last_write_cons, IH.
    by destruct (last_write key ws2).
Qed.

Lemma last_write_None (key : string) (ws : list (string * Scene)) :
  (forall w, w ∈ ws -> w.1 <> key) -> last_write key ws = None.
Proof.
  induction ws as [|w ws IH]; intros H; [done|].
  rewrite last_write_cons, IH by (intros; apply H; by right).
  destruct (String.eqb w.1 key) eqn:E; [|done].
  apply String.eqb_eq in E. exfalso. eapply H; [by left|done].
Qed.

Lemma last_write_is_Some (key : string) (ws : list (string * Scene)) (s : Scene) :
  (key, s) ∈ ws -> is_Some (last_write key ws).
Proof.
  induction ws as [|w ws IH]; intros H; [by apply elem_of_nil in H|].
  rewrite last_write_cons.
  apply elem_of_cons in H as [<-|H].
  - simpl. rewrite String.eqb_refl. by destruct (last_write key ws).
  - destruct (IH H) as [s' ->]. eauto.
Qed.

(** A write that no later write overrides is what the index holds. *)
Lemma last_write_middle (key : string) (s : Scene) (ws1 ws2 : list (string * Scene)) :
  (forall w, w ∈ ws2 -> w.1 <> key) ->
  last_write key (ws1 ++ (key, s) :: ws2) = Some s.
Proof.
  intros H. rewrite last_write_app, last_write_cons, last_write_None by done.
  simpl. by rewrite String.eqb_refl.
Qed.

Lemma truthy_spec (s : string) : truthy s = true <-> s <> "".
Proof.
  unfold truthy. destruct (String.eqb s "") eqn:E; simpl.
  - apply String.eqb_eq in E. split; [done|]. intros H. by destruct H.
  - by apply String.eqb_neq in E.
Qed.

Lemma elem_of_scene_writes (chap_id : string) (s : Scene) (w : string * Scene) :
  w ∈ scene_writes chap_id s <->
  exists sid, scene_id s = Some sid /\ sid <> "" /\ w.2 = s
              /\ (w.1 = sid \/ (chap_id <> "" /\ w.1 = compound chap_id sid)).
Proof.
  unfold scene_writes. destruct (scene_id s) as [sid|].
  2: { split; [by intros ?%elem_of_nil|]. by intros (? & ? & _). }
  destruct (truthy sid) eqn:Hsid; simpl.
  2: { split; [by intros ?%elem_of_nil|]. intros (? & [= <-] & Hne & _).
       apply truthy_spec in Hne. congruence. }
  apply truthy_spec in Hsid.
  rewrite elem_of_app, list_elem_of_singleton.
  destruct (truthy chap_id) eqn:Hc.
  - apply truthy_spec in Hc. rewrite list_elem_of_singleton. split.
    + intros [->| ->]; exists sid; simpl; eauto 10.
    + intros (? & [= <-] & _ & <- & [Hk|[_ Hk]]); destruct w; simpl in *; subst; eauto.
  - split.
    + intros [?%elem_of_nil| ->]; [done|]. exists sid; simpl; eauto 10.
    + intros (? & [= <-] & _ & <- & [Hk|[Hne _]]); destruct w; simpl in *; subst; eauto.
      apply truthy_spec in Hne. congruence.
Qed.

Lemma elem_of_corpus_writes (novel_scenes_output : NovelScenes) (w : string * Scene) :
  w ∈ corpus_writes novel_scenes_output <->
  exists ch s, ch ∈ chapters novel_scenes_output /\ s ∈ scenes ch
               /\ w ∈ scene_writes (chapter_id ch) s.
Proof.
  unfold corpus_writes. rewrite list_elem_of_bind. split.
  - intros (ch & Hw & Hch). apply list_elem_of_bind in Hw as (s & Hw & Hs). eauto.
  - intros (ch & s & Hch & Hs & Hw). exists ch. split; [|done].
    apply list_elem_of_bind. eauto.
Qed.

(** *** C5: which scene a key resolves to *)

(** C5, as stated, fails: the key below is a compound form (of the scene
    "the general returns") and a bare form (of the scene "a memory of the
    return"); its lookup gives the bare-form match, which was written
    later. *)
Lemma compound_match_not_preferred :
  compound "v01_ch001" "1" = "v01_ch001_s1"
  /\ ("v01_ch001_s1", scene "1" "the general returns") ∈ corpus_writes clashing_corpus
  /\ index_scenes_by_id clashing_corpus !! "v01_ch001_s1"
     = Some (scene "v01_ch001_s1" "a memory of the return")
  /\ index_scenes_by_id clashing_corpus !! "v01_ch001_s1"
     <> Some (scene "1" "the general returns").
Proof.
  split; [reflexivity|]. split; [vm_compute; by left|].
  rewrite lookup_index_scenes_by_id. split; [reflexivity|].
  vm_compute. discriminate.
Qed.

(** C5, amended.  The index has an entry under the bare [scene_id] of every
    scene whose [scene_id] is not empty, and under its compound key when the
    chapter id is not empty; a key resolves to the scene written last under
    it, a scene writing its compound key and then its bare key, whatever the
    form of the key; so a compound (or bare) key resolves to its scene when
    no later write reuses the key. *)
Theorem index_scenes_by_id_spec (novel_scenes_output : NovelScenes) :
  let index := index_scenes_by_id novel_scenes_output in
  (forall key, index !! key = last_write key (corpus_writes novel_scenes_output))
  /\ (forall ch s sid,
        ch ∈ chapters novel_scenes_output -> s ∈ scenes ch ->
        scene_id s = Some sid -> sid <> "" ->
        is_Some (index !! sid)
        /\ (chapter_id ch <> "" -> is_Some (index !! compound (chapter_id ch) sid)))
  /\ (forall key s earlier later,
        corpus_writes novel_scenes_output = earlier ++ (key, s) :: later ->
        (forall w, w ∈ later -> w.1 <> key) ->
        index !! key = Some s).
Proof.
  intros index. split; [apply lookup_index_scenes_by_id|]. split.
  - intros ch s sid Hch Hs Hsid Hne. unfold index. split.
    + rewrite lookup_index_scenes_by_id. apply (last_write_is_Some _ _ s).
      apply elem_of_corpus_writes. exists ch, s. split_and!; [done..|].
      apply elem_of_scene_writes. exists sid. simpl. eauto 10.
    + intros Hc. rewrite lookup_index_scenes_by_id. apply (last_write_is_Some _ _ s).
      apply elem_of_corpus_writes. exists ch, s. split_and!; [done..|].
      apply elem_of_scene_writes. exists sid. simpl. eauto 10.
  - intros key s earlier later Hw Hlater. unfold index.
    rewrite lookup_index_scenes_by_id, Hw. by apply last_write_middle.
Qed.

Lemma index_scenes_by_id_spec_witness :
  index_scenes_by_id scenario_A !! "v01_ch001_s3" = Some (scene "3" "c")
  /\ is_Some (index_scenes_by_id scenario_A !! "2").
Proof.
  destruct (index_scenes_by_id_spec scenario_A) as (_ & Hdom & Hlast). split.
  - apply (Hlast "v01_ch001_s3" (scene "3" "c")
             [("v01_ch001_s1", scene "1" "a"); ("1", scene "1" "a");
              ("v01_ch001_s2", scene "2" "b"); ("2", scene "2" "b")]
             [("3", scene "3" "c");
              ("v01_ch002_s1", scene "1" "d"); ("1", scene "1" "d");
              ("v01_ch002_s2", scene "2" "e"); ("2", scene "2" "e")]);
      [reflexivity|].
    intros w Hw. repeat (apply elem_of_cons in Hw as [->|Hw]; [discriminate|]).
    by apply elem_of_nil in Hw.
  - refine (proj1 (Hdom {| chapter_id := "v01_ch002";
                           scenes := [scene "1" "d"; scene "2" "e"] |}
                        (scene "2" "e") "2" _ _ _ _)).
    + by right; left.
    + by right; left.
    + reflexivity.
    + discriminate.
Defined.

(** *** C10: equal bare ids in several chapters *)

(** A compound key contains the separator ["_s"]: an id without it, such
    as a sequence number, is the compound key of no scene. *)
Lemma prefix_append (needle rest : string) : String.prefix needle (needle +:+ rest) = true.
Proof.
  induction needle as [|c needle IH]; [by destruct rest|].
  change (String c needle +:+ rest) with (String c (needle +:+ rest)).
  cbn [String.prefix]. by destruct (ascii_dec c c).
Qed.

Lemma contains_append (needle before rest : string) :
  contains needle (before +:+ needle +:+ rest) = true.
Proof.
  induction before as [|c before IH].
  - change ("" +:+ needle +:+ rest) with (needle +:+ rest).
    destruct (needle +:+ rest) eqn:E.
    + by destruct needle.
    + cbn [contains]. by rewrite <- E, prefix_append.
  - change (String c before +:+ needle +:+ rest)
      with (String c (before +:+ needle +:+ rest)).
    cbn [contains]. rewrite IH. apply orb_true_r.
Qed.

Lemma sequence_number_not_compound (sid chap_id sid' : string) :
  contains "_s" sid = false -> compound chap_id sid' <> sid.
Proof.
  intros Hbare <-. unfold compound in Hbare.
  by rewrite contains_append in Hbare.
Qed.

Lemma last_write_Some (key : string) (ws : list (string * Scene)) (s : Scene) :
  last_write key ws = Some s -> (key, s) ∈ ws.
Proof.
  induction ws as [|[k v] ws IH]; [done|].
  rewrite last_write_cons. simpl. destruct (last_write key ws) as [s'|].
  - intros [= ->]. right. by apply IH.
  - destruct (String.eqb k key) eqn:E; [|done].
    apply String.eqb_eq in E as ->. intros [= <-]. by left.
Qed.

Lemma compound_not_empty (chap_id sid : string) : compound chap_id sid <> "".
Proof.
  unfold compound. destruct chap_id as [|c chap_id]; [|done].
  change ("" +:+ "_s" +:+ sid) with (String "_" (String "s" sid)). done.
Qed.

(** No scene is written under the empty key. *)
Lemma scene_writes_key (chap_id : string) (s : Scene) (w : string * Scene) :
  w ∈ scene_writes chap_id s -> w.1 <> "".
Proof.
  intros (sid & _ & Hne & _ & [Hk|[_ Hk]])%elem_of_scene_writes Hkey.
  - by rewrite Hk in Hkey.
  - rewrite Hk in Hkey. by apply compound_not_empty in Hkey.
Qed.

(** C10, as stated, fails.  Chapters [a] and [b] each hold a scene with the
    bare id [x_s1]; the index maps that key to neither of them but to the
    scene [1] of the later chapter [x], whose compound key it is.  And two
    chapters that each hold a scene with the empty id leave the index
    without an entry for it. *)
Lemma bare_id_shadowed_by_compound :
  index_scenes_by_id shadowed_corpus !! "x_s1" = Some (scene "1" "in chapter x")
  /\ index_scenes_by_id shadowed_corpus !! "x_s1" <> Some (scene "x_s1" "in chapter b")
  /\ index_scenes_by_id unnamed_corpus !! "" = None.
Proof.
  rewrite !lookup_index_scenes_by_id. split; [reflexivity|].
  split; [vm_compute; discriminate|reflexivity].
Qed.

(** C10, amended.  Two chapters contain a scene with the same bare
    [scene_id]; [last_ch] is the last chapter that holds a scene with this
    id and [s] the last such scene in it.  When the id is not empty and no
    scene after [s] has it as its compound key, the index maps the id to
    [s], the scene of the chapter processed last.  When some scene after
    [s] has the id as its compound key, the index maps the id to such a
    scene instead.  An empty id has no entry in the index. *)
Theorem bare_id_last_writer_wins (novel_scenes_output : NovelScenes)
    (pre post : list ChapterScenes) (first last_ch : ChapterScenes)
    (s0 s : Scene) (before after : list Scene) (sid : string) :
  chapters novel_scenes_output = pre ++ last_ch :: post ->
  first ∈ pre -> s0 ∈ scenes first -> scene_id s0 = Some sid ->
  scenes last_ch = before ++ s :: after ->
  scene_id s = Some sid ->
  (forall s', s' ∈ after -> scene_id s' <> Some sid) ->
  (forall ch' s', ch' ∈ post -> s' ∈ scenes ch' -> scene_id s' <> Some sid) ->
  let index := index_scenes_by_id novel_scenes_output in
  let written_after ch' s' := ch' = last_ch /\ s' ∈ after \/ ch' ∈ post /\ s' ∈ scenes ch' in
  let shadows ch' s' :=
    written_after ch' s' /\ chapter_id ch' <> ""
    /\ exists sid', scene_id s' = Some sid' /\ sid' <> ""
                    /\ compound (chapter_id ch') sid' = sid in
  (sid <> "" -> (forall ch' s', ~ shadows ch' s') -> index !! sid = Some s)
  /\ ((exists ch' s', shadows ch' s') ->
      exists ch' s', shadows ch' s' /\ index !! sid = Some s')
  /\ (sid = "" -> index !! sid = None).
Proof.
  intros Hchs _ _ _ Hscenes Hsid Hafter Hpost index written_after shadows.
  set (later := (after ≫= scene_writes (chapter_id last_ch))
                ++ (post ≫= fun ch => scenes ch ≫= scene_writes (chapter_id ch))).
  assert (forall w, w ∈ later -> w.1 = sid -> exists ch', shadows ch' w.2) as Hlater.
  { intros w Hw Hkey.
    assert (exists ch' s', written_after ch' s' /\ w ∈ scene_writes (chapter_id ch') s')
      as (ch' & s' & Hlate & Hw').
    { apply elem_of_app in Hw as [Hw|Hw].
      - apply list_elem_of_bind in Hw as (s' & Hw & Hs').
        exists last_ch, s'. split; [by left|done].
      - apply list_elem_of_bind in Hw as (ch' & Hw & Hch').
        apply list_elem_of_bind in Hw as (s' & Hw & Hs').
        exists ch', s'. split; [by right|done]. }
    apply elem_of_scene_writes in Hw' as (sid' & Hsid' & Hne' & -> & [Hk|[Hc Hk]]).
    - rewrite Hk in Hkey. subst sid'.
      destruct Hlate as [[-> Hin]|[Hin1 Hin2]];
        [by edestruct Hafter|by edestruct Hpost].
    - exists ch'. split; [done|]. split; [done|].
      exists sid'. by rewrite <- Hk. }
  assert (index !! sid
          = match last_write sid later with
            | Some r => Some r
            | None => if truthy sid then Some s else None
            end) as Hindex.
  { unfold index. rewrite lookup_index_scenes_by_id. unfold corpus_writes.
    rewrite Hchs, bind_app, bind_cons, Hscenes, bind_app, bind_cons.
    rewrite <- !app_assoc. fold later.
    rewrite last_write_app, last_write_app, last_write_app.
    destruct (last_write sid later) as [r|]; [done|].
    unfold scene_writes at 1. rewrite Hsid.
    destruct (truthy sid) eqn:Htruthy; simpl.
    - rewrite last_write_app. simpl.
      unfold last_write at 1. simpl. by rewrite String.eqb_refl.
    - apply not_true_iff_false in Htruthy. rewrite truthy_spec in Htruthy.
      assert (sid = "") as -> by (by destruct (decide (sid = ""))).
      rewrite !last_write_None; [done|..].
      + intros w Hw.
        apply list_elem_of_bind in Hw as (ch' & Hw & _).
        apply list_elem_of_bind in Hw as (s' & Hw & _).
        by apply scene_writes_key in Hw.
      + intros w Hw.
        apply list_elem_of_bind in Hw as (s' & Hw & _).
        by apply scene_writes_key in Hw. }
  split; [|split].
  - intros Hne Hnone. rewrite Hindex.
    destruct (last_write sid later) as [r|] eqn:Hlast.
    + apply last_write_Some in Hlast.
      destruct (Hlater _ Hlast eq_refl) as [ch' Hsh]. by destruct (Hnone ch' r).
    + by rewrite (proj2 (truthy_spec sid) Hne).
  - intros (ch0 & r0 & Hlate0 & Hc0 & sid0 & Hsid0 & Hne0 & Hk0).
    assert ((sid, r0) ∈ later) as Hin.
    { destruct Hlate0 as [[-> Hin]|[Hin1 Hin2]].
      - apply elem_of_app. left. apply list_elem_of_bind. exists r0. split; [|done].
        apply elem_of_scene_writes. exists sid0. simpl. eauto 10.
      - apply elem_of_app. right. apply list_elem_of_bind. exists ch0. split; [|done].
        apply list_elem_of_bind. exists r0. split; [|done].
        apply elem_of_scene_writes. exists sid0. simpl. eauto 10. }
    apply last_write_is_Some in Hin as [r Hlast].
    rewrite Hindex, Hlast. apply last_write_Some in Hlast.
    destruct (Hlater _ Hlast eq_refl) as [ch' Hsh]. by exists ch', r.
  - intros ->. rewrite Hindex.
    destruct (last_write "" later) as [r|] eqn:Hlast; [|done].
    apply last_write_Some in Hlast.
    destruct (Hlater _ Hlast eq_refl) as (ch' & _ & _ & sid' & _ & _ & Hk).
    by apply compound_not_empty in Hk.
Qed.

Lemma bare_id_last_writer_wins_witness :
  index_scenes_by_id scenario_A !! "1" = Some (scene "1" "d").
Proof.
  refine (proj1 (bare_id_last_writer_wins scenario_A
           [ {| chapter_id := "v01_ch001";
                scenes := [scene "1" "a"; scene "2" "b"; scene "3" "c"] |} ]
           []
           {| chapter_id := "v01_ch001";
              scenes := [scene "1" "a"; scene "2" "b"; scene "3" "c"] |}
           {| chapter_id := "v01_ch002"; scenes := [scene "1" "d"; scene "2" "e"] |}
           (scene "1" "a") (scene "1" "d") [] [scene "2" "e"] "1"
           _ _ _ _ _ _ _ _) _ _).
  - reflexivity.
  - by left.
  - by left.
  - reflexivity.
  - reflexivity.
  - reflexivity.
  - intros s' Hs'. apply elem_of_cons in Hs' as [->|Hs']; [discriminate|].
    by apply elem_of_nil in Hs'.
  - intros ch' s' Hch'. by apply elem_of_nil in Hch'.
  - discriminate.
  - intros ch' s' (_ & _ & sid' & _ & _ & Hk).
    by apply sequence_number_not_compound in Hk.
Defined.

(** *** C1 and C6: the loop over the beats *)

Section Run.

Variable generate_content : client Prompt.
Variable decode : string -> option BeatKeyframes.
Variable scene_index : gmap string Scene.
Variables novel_id title : string.

Abbreviation keyframes_for :=
  (keyframes_for_beat generate_content decode scene_index novel_id title).
Abbreviation loop :=
  (beats_loop generate_content decode scene_index novel_id title).
Abbreviation decoded_answer := (TrailerToKeyframe.decoded_answer generate_content decode).
Abbreviation derived_from :=
  (TrailerToKeyframe.derived_from generate_content decode scene_index novel_id title).

Lemma keyframes_for_beat_skipped (beat : Beat) (log : list Prompt) :
  resolve_scenes scene_index (default [] (b_source_scenes beat)) = [] ->
  keyframes_for beat log = (Ok None, log).
Proof. unfold keyframes_for_beat. by intros ->. Qed.

Lemma keyframes_for_beat_called (beat : Beat) (log : list Prompt) :
  resolve_scenes scene_index (default [] (b_source_scenes beat)) <> [] ->
  let prompt :=
    build_keyframe_prompt_for_beat beat
      (resolve_scenes scene_index (default [] (b_source_scenes beat))) novel_id title in
  keyframes_for beat log
  = (beat_kf ← decoded_answer log prompt;
     Ok (Some (set_characters (default [] (b_characters beat)) <$> keyframes beat_kf)),
     log ++ [prompt]).
Proof.
  intros Hne prompt. unfold keyframes_for_beat, decoded_answer. fold prompt.
  destruct (resolve_scenes scene_index _) as [|s l]; [done|].
  unfold mbind, M_bind, call, lift, mret, M_ret, result_bind. simpl.
  destruct (generate_content log prompt) as [response|e]; [|done].
  destruct (response_raw response) as [raw|e]; [|done].
  by destruct (model_validate_json decode raw).
Qed.

Lemma resolve_scenes_nil (source_ids : list string) :
  resolve_scenes scene_index source_ids = []
  <-> forall sid, sid ∈ source_ids -> scene_index !! sid = None.
Proof.
  unfold resolve_scenes. induction source_ids as [|sid l IH]; simpl.
  - split; [|done]. by intros _ ? ?%elem_of_nil.
  - destruct (scene_index !! sid) eqn:E; simpl.
    + split; [done|]. intros H. specialize (H sid (list_elem_of_here _ _)). congruence.
    + rewrite IH. split.
      * intros H sid' [->|?]%elem_of_cons; eauto.
      * intros H sid' ?. apply H. by right.
Qed.

Lemma elem_of_resolve_scenes (source_ids : list string) (s : Scene) :
  s ∈ resolve_scenes scene_index source_ids
  <-> exists sid, sid ∈ source_ids /\ scene_index !! sid = Some s.
Proof. unfold resolve_scenes. apply list_elem_of_omap. Qed.


Lemma derived_from_generated (beat : Beat) (kf : Keyframe) :
  derived_from beat kf ->
  exists generated, kf = set_characters (default [] (b_characters beat)) generated.
Proof.
  intros (log0 & log1 & kfs & Hrun & Hkf).
  destruct (decide (resolve_scenes scene_index (default [] (b_source_scenes beat)) = []))
    as [Hnil|Hne].
  - by rewrite keyframes_for_beat_skipped in Hrun.
  - rewrite keyframes_for_beat_called in Hrun by done.
    destruct (decoded_answer _ _) as [beat_kf|e]; [|done].
    simpl in Hrun. injection Hrun as <- _.
    apply list_elem_of_fmap in Hkf as (generated & -> & _). eauto.
Qed.

Lemma beats_loop_origin (beats : list Beat) (all_keyframes : list Keyframe)
    (log log' : list Prompt) (out : list Keyframe) :
  loop beats all_keyframes log = (Ok out, log') ->
  forall kf, kf ∈ out ->
    kf ∈ all_keyframes \/ exists beat, beat ∈ beats /\ derived_from beat kf.
Proof.
  revert all_keyframes log.
  induction beats as [|beat rest IH]; intros acc log Hrun kf Hkf.
  - injection Hrun as <- _. by left.
  - cbn [beats_loop] in Hrun. unfold mbind at 1, M_bind at 1 in Hrun.
    destruct (keyframes_for beat log) as [[[kfs|]|e] log1] eqn:Hbeat; [| |done].
    + destruct (IH _ _ Hrun kf Hkf) as [Hacc|(b & Hb & Hd)].
      * apply elem_of_app in Hacc as [?|Hin]; [by left|].
        right. exists beat. split; [by left|]. by exists log, log1, kfs.
      * right. exists b. split; [by right|done].
    + destruct (IH _ _ Hrun kf Hkf) as [?|(b & Hb & Hd)]; [by left|].
      right. exists b. split; [by right|done].
Qed.

End Run.

(** C6. Every keyframe of the plan produced by the Keyframe Deriver was
    appended for one beat of the script (its parent beat), and its
    [characters] list is that beat's [characters] list, put in place of
    whatever the generation call returned; so every character of the
    keyframe is a character of the parent beat. *)
Theorem keyframe_characters_inherited (generate_content : client Prompt)
    (decode : string -> option BeatKeyframes) (novel_scenes_output : NovelScenes)
    (trailer_script : TrailerScript) (log log' : list Prompt) (plan : KeyframePlan) :
  generate_keyframes_for_trailer generate_content decode novel_scenes_output
    trailer_script log = (Ok plan, log') ->
  forall kf, kf ∈ plan_keyframes plan ->
    exists beat generated,
      beat ∈ beats trailer_script
      /\ derived_from generate_content decode (index_scenes_by_id novel_scenes_output)
           (plan_novel_id plan) (plan_title plan) beat kf
      /\ kf = set_characters (default [] (b_characters beat)) generated
      /\ characters kf = default [] (b_characters beat)
      /\ (forall c, c ∈ characters kf -> c ∈ default [] (b_characters beat)).
Proof.
  unfold generate_keyframes_for_trailer. intros Hrun kf Hkf.
  unfold mbind at 1, M_bind at 1 in Hrun.
  destruct (beats_loop _ _ _ _ _ _ _ _) as [[out|e] log1] eqn:Hloop; [|done].
  injection Hrun as <- _. simpl in *.
  destruct (beats_loop_origin _ _ _ _ _ _ _ _ _ _ Hloop kf Hkf)
    as [Hnil|(beat & Hbeat & Hd)]; [by apply elem_of_nil in Hnil|].
  destruct (derived_from_generated _ _ _ _ _ _ _ Hd) as [generated ->].
  exists beat, generated. by split_and!.
Qed.


(** Scenario A: a beat that cites only [v01_ch001_s9] is dropped. *)
Example scenario_A_rejected :
  generate_keyframes_for_trailer constant_client constant_decode scenario_A
    {| ts_novel_id := Some "novel"; ts_title := Some "Title";
       beats := [beat_citing "B1" ["v01_ch001_s9"]] |} []
  = (Ok {| plan_novel_id := "novel"; plan_title := "Title"; plan_keyframes := [] |}, []).
Proof. reflexivity. Qed.


Lemma keyframe_characters_inherited_witness :
  exists beat, beat ∈ beats two_beat_script
               /\ characters (set_characters ["Chu Yu"] generated_keyframe)
                  = default [] (b_characters beat).
Proof.
  destruct (keyframe_characters_inherited constant_client constant_decode scenario_A
              two_beat_script [] _ _ eq_refl
              (set_characters ["Chu Yu"] generated_keyframe) (list_elem_of_here _ _))
    as (beat & _ & Hbeat & _ & _ & Hchars & _).
  eauto.
Defined.

End KeyframeDeriver.

(** ** Trailer beat planner *)

Module BeatPlanner.
Import SceneToTrailer.

(** C2, amended.  The script the Beat Planner returns is the decoded,
    schema-validated answer of the generation call, unchanged: the bound
    [max_duration_sec] goes into the prompt, and the sum of [duration_sec]
    is not checked, so it is within the bound exactly when the answer is. *)
Theorem trailer_script_is_decoded_answer (generate_content : client Prompt)
    (decode : string -> option TrailerScript) (novel_scenes : NovelScenes)
    (platform : string) (max_duration_sec : Z) (log log' : list Prompt)
    (script : TrailerScript) :
  let prompt := trailer_prompt_for novel_scenes platform max_duration_sec in
  prompt_max_duration_sec prompt = max_duration_sec
  /\ (generate_trailer_script_from_scenes generate_content decode novel_scenes
        platform max_duration_sec log = (Ok script, log')
      <-> log' = log ++ [prompt]
          /\ exists response raw,
               generate_content log prompt = Ok response
               /\ response_raw response = Ok (Some raw)
               /\ decode raw = Some script).
Proof.
  intros prompt. split; [done|].
  unfold generate_trailer_script_from_scenes. fold prompt.
  unfold mbind, M_bind, call, lift, mret, M_ret, model_validate_json.
  split.
  - intros Hrun.
    destruct (generate_content log prompt) as [response|e] eqn:Hresp; [|done].
    destruct (response_raw response) as [[raw|]|e] eqn:Hraw; [| done..].
    destruct (decode raw) as [v|] eqn:Hdec; [|done].
    injection Hrun as <- <-. split; [done|]. by exists response, raw.
  - intros (-> & response & raw & Hresp & Hraw & Hdec).
    by rewrite Hresp, Hraw, Hdec.
Qed.

(** C2, as stated, fails: the answer decodes to a script whose beats last
    32 seconds in total, the bound is 30 seconds, and the planner returns
    that script. *)
Lemma over_long_script_returned :
  generate_trailer_script_from_scenes answering (decoding_to scenario_C_too_long)
    novel_scenes_file "tiktok" 30 []
  = (Ok scenario_C_too_long, [trailer_prompt_for novel_scenes_file "tiktok" 30])
  /\ (total_duration scenario_C_too_long == 32)%Q
  /\ max_duration_sec scenario_C_too_long = 30%Z
  /\ ~ (total_duration scenario_C_too_long <= inject_Z 30)%Q.
Proof.
  split; [reflexivity|]. split; [reflexivity|]. split; [reflexivity|].
  vm_compute. intros H. by apply H.
Qed.

Lemma trailer_script_is_decoded_answer_witness :
  generate_trailer_script_from_scenes answering (decoding_to scenario_C_valid)
    novel_scenes_file "tiktok" 30 []
  = (Ok scenario_C_valid, [trailer_prompt_for novel_scenes_file "tiktok" 30])
  /\ (total_duration scenario_C_valid == 28)%Q.
Proof.
  split; [|reflexivity].
  apply (trailer_script_is_decoded_answer answering (decoding_to scenario_C_valid)
           novel_scenes_file "tiktok" 30 []).
  split; [reflexivity|].
  exists {| text := Some "json"; candidates := None;
            prompt_feedback := None; usage_metadata := None |}, "json".
  split_and!; reflexivity.
Defined.

End BeatPlanner.

(** ** World profile synthesizer *)

Module WorldProfileSynthesizer.
Import NovelWorldProfile.

Section Run.

Variable generate_content : client Prompt.
Variable decode_hints : string -> option ChapterWorldHints.
Variable decode_profile : string -> option WorldProfile.

Abbreviation extract := (extract_chapter_world_hints generate_content decode_hints).
Abbreviation hints_of := (NovelWorldProfile.hints_of generate_content decode_hints).

Lemma extract_chapter_world_hints_log (novel_name chapter_id chapter_text : string)
    (log log' : list Prompt) (r : result ChapterWorldHints) :
  extract novel_name chapter_id chapter_text log = (r, log') ->
  log' = log ++ [ChapterHintsPrompt novel_name chapter_id chapter_text].
Proof.
  unfold extract_chapter_world_hints, mbind, M_bind, call, lift, mret, M_ret.
  destruct (generate_content log _) as [response|e]; [|by intros [= _ <-]].
  destruct (response_raw response) as [raw|e]; [|by intros [= _ <-]].
  destruct (model_validate_json decode_hints raw); by intros [= _ <-].
Qed.

Lemma hints_loop_spec (novel_name : string) (chapters : list Chapter)
    (hints_list out : list ChapterWorldHints) (log log' : list Prompt) :
  hints_loop generate_content decode_hints novel_name chapters hints_list log
    = (Ok out, log') ->
  exists extracted,
    out = hints_list ++ extracted
    /\ Forall2 (hints_of novel_name) chapters extracted
    /\ log' = log ++ (hints_prompt novel_name <$> chapters).
Proof.
  revert hints_list log.
  induction chapters as [|ch rest IH]; intros acc log Hrun.
  - injection Hrun as <- <-. exists []. by rewrite !app_nil_r.
  - cbn [hints_loop] in Hrun. unfold mbind at 1, M_bind at 1 in Hrun.
    destruct (extract _ _ _ log) as [[hints|e] log1] eqn:Hextract; [|done].
    pose proof (extract_chapter_world_hints_log _ _ _ _ _ _ Hextract) as ->.
    destruct (IH _ _ Hrun) as (extracted & -> & Hall & ->).
    exists (hints :: extracted). split_and!.
    + by rewrite <- app_assoc.
    + constructor; [|done]. by exists log, (log ++ [hints_prompt novel_name ch]).
    + by rewrite <- app_assoc.
Qed.

End Run.

(** C9, amended.  The world-profile generation call is the last request of
    a run, and the only one of its kind; it receives one hints record per
    scanned chapter, in order, each the record extracted for that chapter.
    The scanned chapters are those of the first volume of the novel, cut to
    the first [max_chapters] of them unless [max_chapters] is [None]:
    chapters of further volumes and chapters beyond the cut contribute no
    record. *)
Theorem final_call_receives_scanned_hints (generate_content : client Prompt)
    (decode_hints : string -> option ChapterWorldHints)
    (decode_profile : string -> option WorldProfile)
    (data : Novel) (max_chapters : option Z) (log log' : list Prompt)
    (profile : WorldProfile) :
  build_world_profile_two_stage generate_content decode_hints decode_profile
    data max_chapters log = (Ok profile, log') ->
  let novel_name := or_else (n_name data) (or_else (n_title data) "Unknown novel") in
  exists first_volume volumes chapters hints_list,
    n_volumes data = first_volume :: volumes
    /\ chapters = match max_chapters with
                  | Some k => slice_to k (vol_chapters first_volume)
                  | None => vol_chapters first_volume
                  end
    /\ log' = log ++ (hints_prompt novel_name <$> chapters)
                  ++ [WorldProfilePrompt novel_name (n_summary data) hints_list]
    /\ profile_calls (drop (length log) log') = [hints_list]
    /\ length hints_list = length chapters
    /\ Forall2 (hints_of generate_content decode_hints novel_name) chapters hints_list.
Proof.
  intros Hrun novel_name. unfold build_world_profile_two_stage in Hrun.
  fold novel_name in Hrun.
  unfold mbind at 1, M_bind at 1, lift at 1 in Hrun.
  destruct (scanned_chapters data max_chapters) as [chapters|e] eqn:Hscan; [|done].
  unfold mbind at 1, M_bind at 1 in Hrun.
  destruct (hints_loop _ _ _ _ _ _) as [[hints_list|e] log1] eqn:Hloop; [|done].
  apply hints_loop_spec in Hloop as (extracted & -> & Hall & ->). simpl in *.
  assert (log' = (log ++ (hints_prompt novel_name <$> chapters))
                 ++ [WorldProfilePrompt novel_name (n_summary data) extracted]) as ->.
  { revert Hrun.
    unfold build_world_profile_from_hints, mbind, M_bind, call, lift, mret, M_ret.
    destruct (generate_content _ _) as [response|e]; [|done].
    destruct (response_raw response) as [raw|e]; [|done].
    destruct (model_validate_json decode_profile raw); [|done].
    by intros [= _ <-]. }
  unfold scanned_chapters in Hscan.
  destruct (n_volumes data) as [|first_volume volumes] eqn:Hvol; [done|].
  exists first_volume, volumes, chapters, extracted.
  split_and!; [done| |by rewrite <- app_assoc| |by apply Forall2_length in Hall|done].
  - destruct (vol_chapters first_volume) eqn:Hch; [done|].
    injection Hscan as <-. by rewrite <- Hch.
  - rewrite <- app_assoc, drop_app_length.
    unfold profile_calls. rewrite omap_app. simpl.
    assert (omap (fun p => match p with
                           | WorldProfilePrompt _ _ l => Some l
                           | ChapterHintsPrompt _ _ _ => None
                           end) (hints_prompt novel_name <$> chapters) = []) as ->; [|done].
    clear. by induction chapters.
Qed.

(** C9, as stated, fails: the novel has three chapters; without a bound the
    final call receives the hints of the two chapters of the first volume
    only, and with [max_chapters = 1] those of the first chapter only. *)
Lemma later_volumes_and_chapters_not_passed :
  length (all_chapters two_volume_novel) = 3
  /\ profile_calls (run_on two_volume_novel None).2
     = [[hints_for "chapter 1"; hints_for "chapter 2"]]
  /\ (run_on two_volume_novel None).1 = Ok a_profile
  /\ profile_calls (run_on two_volume_novel (Some 1%Z)).2 = [[hints_for "chapter 1"]]
  /\ (run_on two_volume_novel (Some 1%Z)).1 = Ok a_profile.
Proof. split_and!; reflexivity. Qed.

Lemma final_call_receives_scanned_hints_witness :
  exists hints_list,
    profile_calls (run_on two_volume_novel (Some 20%Z)).2 = [hints_list]
    /\ length hints_list = 2.
Proof.
  destruct (final_call_receives_scanned_hints echo_client (fun s => Some (hints_for s))
              (fun _ => Some a_profile) two_volume_novel (Some 20%Z) [] _ a_profile eq_refl)
    as (first_volume & volumes & chapters & hints_list & Hvol & -> & _ & Hcalls & Hlen & _).
  injection Hvol as <- _.
  exists hints_list. split; [exact Hcalls|exact Hlen].
Defined.

End WorldProfileSynthesizer.

(** ** Prompt rewriter *)

Module PromptRewriter.
Import UnifyKeyframeStyle.

Lemma same_but_image_prompt_refl (kf : Keyframe) : same_but_image_prompt kf kf.
Proof. by repeat split. Qed.

Lemma same_but_image_prompt_set (new_prompt : string) (kf : Keyframe) :
  same_but_image_prompt kf (set_image_prompt new_prompt kf).
Proof. by repeat split. Qed.

Section Run.

Variable generate_content : client Prompt.
Variable decode : string -> option TrailerStyleGuide.

(** What the loop body appends is the keyframe itself or a copy with a new
    [image_prompt]. *)
Lemma rewrite_keyframe_result (style_guide : TrailerStyleGuide) (kf kf' : Keyframe)
    (tokens tokens' : Tokens) (log log' : list Prompt) :
  rewrite_keyframe generate_content style_guide kf tokens log
    = (Ok (kf', tokens'), log') ->
  kf' = kf \/ exists new_prompt, kf' = set_image_prompt (strip new_prompt) kf.
Proof.
  unfold rewrite_keyframe. unfold mbind at 1, M_bind at 1.
  destruct (rewrite_attempts _ _ _ _ _) as [[[[blocked resp] tokens1]|e] log1]; [|done].
  destruct blocked.
  { intros [= <- _ _]. by left. }
  unfold mbind at 1, M_bind at 1.
  destruct (blank (text resp)).
  - unfold try_except, mbind at 1, M_bind at 1, lift at 1, mret at 1, M_ret at 1.
    destruct (candidate_text resp) as [new_prompt|e].
    + unfold mbind, M_bind, lift, raise, mret, M_ret.
      destruct (count_usage resp tokens1); [|done].
      destruct new_prompt as [new_prompt|]; [|done].
      intros [= <- _ _]. right. by exists new_prompt.
    + unfold mret, M_ret. intros [= <- _ _]. by left.
  - unfold mret at 1, M_ret at 1, mbind, M_bind, lift, raise, mret, M_ret.
    destruct (count_usage resp tokens1); [|done].
    destruct (text resp) as [new_prompt|]; [|done].
    intros [= <- _ _]. right. by exists new_prompt.
Qed.

Lemma rewrite_keyframe_same (style_guide : TrailerStyleGuide) (kf kf' : Keyframe)
    (tokens tokens' : Tokens) (log log' : list Prompt) :
  rewrite_keyframe generate_content style_guide kf tokens log
    = (Ok (kf', tokens'), log') ->
  same_but_image_prompt kf kf'.
Proof.
  intros [->|[new_prompt ->]]%rewrite_keyframe_result.
  - apply same_but_image_prompt_refl.
  - apply same_but_image_prompt_set.
Qed.

Lemma keyframes_loop_spec (style_guide : TrailerStyleGuide) (kfs : list Keyframe)
    (new_keyframes out : list Keyframe) (tokens tokens' : Tokens)
    (log log' : list Prompt) :
  keyframes_loop generate_content style_guide kfs new_keyframes tokens log
    = (Ok (out, tokens'), log') ->
  exists rewritten,
    out = new_keyframes ++ rewritten
    /\ Forall2 same_but_image_prompt kfs rewritten.
Proof.
  revert new_keyframes tokens log.
  induction kfs as [|kf rest IH]; intros acc tokens log Hrun.
  - injection Hrun as <- _ _. exists []. by rewrite app_nil_r.
  - cbn [keyframes_loop] in Hrun. unfold mbind at 1, M_bind at 1 in Hrun.
    destruct (rewrite_keyframe _ _ _ _ log) as [[[kf' tokens1]|e] log1] eqn:Hkf; [|done].
    apply rewrite_keyframe_same in Hkf.
    destruct (IH _ _ _ Hrun) as (rewritten & -> & Hall).
    exists (kf' :: rewritten). split; [by rewrite <- app_assoc|]. by constructor.
Qed.

(** The first attempt of a keyframe gets an answer that is not blocked. *)
Lemma rewrite_attempts_answered (rewrite_prompt : Prompt) (tokens : Tokens)
    (log : list Prompt) (resp : Response) :
  generate_content log rewrite_prompt = Ok resp ->
  blocked resp = false ->
  rewrite_attempts generate_content max_retries rewrite_prompt tokens log
  = (Ok (false, resp, tokens), log ++ [rewrite_prompt]).
Proof.
  intros Hresp Hblocked. cbn [max_retries rewrite_attempts].
  unfold mbind, M_bind, try_call. by rewrite Hresp, Hblocked.
Qed.

(** All attempts of a keyframe are blocked: [answers i] is the answer to
    attempt [i]. *)
Lemma rewrite_attempts_all_blocked (rewrite_prompt : Prompt) (tokens : Tokens)
    (n : nat) (log : list Prompt) (answers : nat -> Response) :
  (forall i, i <= n ->
     generate_content (log ++ replicate i rewrite_prompt) rewrite_prompt = Ok (answers i)
     /\ blocked (answers i) = true) ->
  rewrite_attempts generate_content (S n) rewrite_prompt tokens log
  = (tokens' ← count_blocked_usage (answers n) tokens; Ok (true, answers n, tokens'),
     log ++ replicate (S n) rewrite_prompt).
Proof.
  revert log answers. induction n as [|n IH]; intros log answers Hall.
  - destruct (Hall 0 (le_n _)) as [Hresp Hblocked].
    simpl in Hresp. rewrite app_nil_r in Hresp.
    cbn [rewrite_attempts]. unfold mbind at 1, M_bind at 1, try_call.
    rewrite Hresp, Hblocked. unfold mbind, M_bind, result_bind, lift, mret, M_ret.
    by destruct (count_blocked_usage _ _).
  - destruct (Hall 0 (Nat.le_0_l _)) as [Hresp Hblocked].
    simpl in Hresp. rewrite app_nil_r in Hresp.
    remember (S n) as m. cbn [rewrite_attempts]. subst m.
    unfold mbind at 1, M_bind at 1, try_call.
    rewrite Hresp, Hblocked.
    rewrite (IH (log ++ [rewrite_prompt]) (fun i => answers (S i))).
    + by rewrite <- app_assoc.
    + intros i Hi. destruct (Hall (S i) ltac:(lia)) as [H1 H2].
      split; [|done]. rewrite <- H1. f_equal. by rewrite <- app_assoc.
Qed.

(** Content-filtered after all retries: the keyframe is kept as it is. *)
Lemma rewrite_keyframe_blocked (style_guide : TrailerStyleGuide) (kf : Keyframe)
    (tokens tokens' : Tokens) (log : list Prompt) (answers : nat -> Response) :
  let rewrite_prompt := build_rewrite_prompt style_guide kf in
  (forall i, i < max_retries ->
     generate_content (log ++ replicate i rewrite_prompt) rewrite_prompt = Ok (answers i)
     /\ blocked (answers i) = true) ->
  count_blocked_usage (answers 4) tokens = Ok tokens' ->
  rewrite_keyframe generate_content style_guide kf tokens log
  = (Ok (kf, tokens'), log ++ replicate max_retries rewrite_prompt).
Proof.
  intros rewrite_prompt Hall Husage. unfold rewrite_keyframe. fold rewrite_prompt.
  unfold mbind at 1, M_bind at 1.
  change max_retries with 5 in *.
  rewrite (rewrite_attempts_all_blocked rewrite_prompt tokens 4 log answers)
    by (intros i Hi; apply Hall; lia).
  by rewrite Husage.
Qed.

(** A blank text and no text to be found in the candidates: the keyframe
    is kept as it is. *)
Lemma rewrite_keyframe_nothing_found (style_guide : TrailerStyleGuide) (kf : Keyframe)
    (tokens : Tokens) (log : list Prompt) (resp : Response) (e : exn) :
  let rewrite_prompt := build_rewrite_prompt style_guide kf in
  generate_content log rewrite_prompt = Ok resp ->
  blocked resp = false ->
  blank (text resp) = true ->
  candidate_text resp = Raise e ->
  rewrite_keyframe generate_content style_guide kf tokens log
  = (Ok (kf, tokens), log ++ [rewrite_prompt]).
Proof.
  intros rewrite_prompt Hresp Hblocked Hblank Hcand.
  unfold rewrite_keyframe. fold rewrite_prompt.
  unfold mbind at 1, M_bind at 1.
  rewrite (rewrite_attempts_answered _ _ _ _ Hresp Hblocked).
  unfold mbind at 1, M_bind at 1. rewrite Hblank.
  unfold try_except, mbind at 1, M_bind at 1, lift at 1. by rewrite Hcand.
Qed.

(** A blank text and a first candidate part whose text is blank too: the
    blank text, stripped, replaces the original prompt. *)
Lemma rewrite_keyframe_blank_part (style_guide : TrailerStyleGuide) (kf : Keyframe)
    (tokens tokens' : Tokens) (log : list Prompt) (resp : Response) (t : string) :
  let rewrite_prompt := build_rewrite_prompt style_guide kf in
  generate_content log rewrite_prompt = Ok resp ->
  blocked resp = false ->
  blank (text resp) = true ->
  candidate_text resp = Ok (Some t) ->
  blank (Some t) = true ->
  count_usage resp tokens = Ok tokens' ->
  rewrite_keyframe generate_content style_guide kf tokens log
  = (Ok (set_image_prompt "" kf, tokens'), log ++ [rewrite_prompt]).
Proof.
  intros rewrite_prompt Hresp Hblocked Hblank Hcand Ht Husage.
  unfold rewrite_keyframe. fold rewrite_prompt.
  unfold mbind at 1, M_bind at 1.
  rewrite (rewrite_attempts_answered _ _ _ _ Hresp Hblocked).
  unfold mbind at 1, M_bind at 1. rewrite Hblank.
  unfold try_except, mbind at 1, M_bind at 1, lift at 1. rewrite Hcand.
  unfold mbind, M_bind, lift, mret, M_ret. rewrite Husage.
  assert (strip t = "") as ->; [|done].
  unfold blank, truthy in Ht. apply negb_true_iff, negb_false_iff in Ht.
  by apply String.eqb_eq in Ht.
Qed.

End Run.

(** C8. Between the input plan and the styled plan the number and the
    order of the keyframes are the same, and each keyframe keeps every
    field but [image_prompt]; [novel_id] and [title] of the plan are kept
    too. *)
Theorem only_image_prompt_rewritten (generate_content : client Prompt)
    (decode : string -> option TrailerStyleGuide) (plan new_plan : KeyframePlan)
    (world_profile : option json) (tokens : Tokens) (log log' : list Prompt) :
  main generate_content decode plan world_profile log = (Ok (new_plan, tokens), log') ->
  novel_id new_plan = novel_id plan
  /\ title new_plan = title plan
  /\ length (keyframes new_plan) = length (keyframes plan)
  /\ Forall2 same_but_image_prompt (keyframes plan) (keyframes new_plan).
Proof.
  unfold main. unfold mbind at 1, M_bind at 1.
  destruct (style_attempts _ _ _ _) as [[style_resp|e] log1]; [|done].
  unfold mbind at 1, M_bind at 1, lift at 1.
  destruct (response_raw style_resp) as [style_raw|e]; [|done].
  unfold mbind at 1, M_bind at 1, lift at 1.
  destruct (model_validate_json decode style_raw) as [style_guide|e]; [|done].
  unfold mbind at 1, M_bind at 1, lift at 1.
  destruct (count_usage style_resp _) as [tokens1|e]; [|done].
  unfold mbind at 1, M_bind at 1.
  destruct (keyframes_loop _ _ _ _ _ _) as [[[out tokens2]|e] log2] eqn:Hloop; [|done].
  intros [= <- _ _]. simpl.
  apply keyframes_loop_spec in Hloop as (rewritten & -> & Hall). simpl.
  split_and!; [done..| |done]. symmetry. by apply Forall2_length in Hall.
Qed.

(** C7, where the code departs from it.  The rewrite call of [KF_B1_01]
    is answered with an empty text whose first candidate part holds an
    empty text as well: the keyframe goes to the styled plan with an empty
    [image_prompt] in place of its original prompt.  With a first part that
    holds no text, [new_prompt.strip()] raises [AttributeError], no keyframe
    of the batch is written. *)
Theorem empty_answer_erases_image_prompt :
  run_with (answer (Some "") (Some [candidate_with (Some "")]))
  = Ok (styled [""; "A painted courtyard under snow"])
  /\ run_with (answer None (Some [candidate_with None])) = Raise AttributeError.
Proof. split; reflexivity. Qed.

(** The cases of an empty answer in which the original prompt is kept: no
    candidates at all. *)
Example empty_answer_without_candidates :
  run_with (answer (Some "  ") (Some []))
  = Ok (styled ["A woman opens a heavy gate at dawn"; "A painted courtyard under snow"]).
Proof. reflexivity. Qed.

Lemma only_image_prompt_rewritten_witness :
  Forall2 same_but_image_prompt (keyframes input_plan)
    (keyframes (styled ["A painted gate at dawn"; "A painted courtyard under snow"])).
Proof.
  refine (proj2 (proj2 (proj2
    (only_image_prompt_rewritten
       (client_answering (answer (Some "A painted gate at dawn") None))
       (fun _ => Some a_style_guide) input_plan
       (styled ["A painted gate at dawn"; "A painted courtyard under snow"])
       None _ [] _ eq_refl)))).
Defined.

End PromptRewriter.

(** ** Further facts on the Python operations *)

Module PyFacts.

(** [a or default] is true when [default] is. *)
Lemma or_else_truthy (o : option string) (default : string) :
  truthy default = true -> truthy (or_else o default) = true.
Proof.
  intros Hd. unfold or_else. destruct o as [s|]; [|done].
  by destruct (truthy s) eqn:Hs.
Qed.

End PyFacts.

(** ** Further properties of the character aggregator *)

Module AggregatorFacts.
Import BuildMainCharacterProfiles AggregatedMap CharacterAggregator.

Lemma truthy_ne (s : string) : truthy s = true <-> s <> "".
Proof.
  unfold truthy. destruct (String.eqb s "") eqn:E; simpl.
  - apply String.eqb_eq in E. split; [done|]. intros H. by destruct H.
  - by apply String.eqb_neq in E.
Qed.

Lemma names_alter_entry (f : Entry -> Entry) (name : string) (m : char_map_t) :
  names (alter_entry f name m) = names m.
Proof.
  unfold names. induction m as [|[k e] m IH]; simpl; [done|].
  destruct (String.eqb k name); simpl; [done|]. f_equal. apply IH.
Qed.

Lemma has_key_names (name : string) (m : char_map_t) :
  has_key name m = true <-> name ∈ names m.
Proof.
  unfold names. induction m as [|[k e] m IH]; simpl.
  - split; [done|]. by intros ?%elem_of_nil.
  - rewrite orb_true_iff, IH, elem_of_cons, String.eqb_eq. naive_solver.
Qed.

Lemma get_entry_names (name : string) (m : char_map_t) :
  is_Some (get_entry name m) <-> name ∈ names m.
Proof.
  unfold names. induction m as [|[k e] m IH]; simpl.
  - split; [by intros [??]|by intros ?%elem_of_nil].
  - rewrite elem_of_cons. destruct (String.eqb k name) eqn:E.
    + apply String.eqb_eq in E as ->. split; eauto.
    + apply String.eqb_neq in E. rewrite IH. naive_solver.
Qed.

(** The names after one mention. *)
Lemma names_add_mention (m : char_map_t) (c : ChapterCharacterMention) :
  names (add_mention m c)
  = let name := strip (canonical_name c) in
    if truthy name && negb (has_key name m) then names m ++ [name] else names m.
Proof.
  unfold add_mention. cbv zeta.
  destruct (truthy (strip (canonical_name c))); cbn [negb andb]; [|done].
  rewrite names_alter_entry.
  destruct (has_key _ m); cbn [negb]; [done|].
  unfold names. by rewrite fmap_app.
Qed.

Lemma names_foldl_add_mention (l : list ChapterCharacterMention) (m : char_map_t) :
  NoDup (names m) ->
  names m `prefix_of` names (foldl add_mention m l)
  /\ NoDup (names (foldl add_mention m l))
  /\ forall name, name ∈ names (foldl add_mention m l)
       <-> name ∈ names m
           \/ name <> "" /\ exists c, c ∈ l /\ strip (canonical_name c) = name.
Proof.
  revert m. induction l as [|c l IH]; intros m Hnd; simpl.
  - split_and!; [done..|]. intros name. split; [by left|].
    intros [?|(_ & c & ?%elem_of_nil & _)]; done.
  - assert (names m `prefix_of` names (add_mention m c)
            /\ NoDup (names (add_mention m c))
            /\ forall name, name ∈ names (add_mention m c)
                 <-> name ∈ names m
                     \/ name <> "" /\ strip (canonical_name c) = name)
      as (Hpre & Hnd' & Hin).
    { rewrite names_add_mention. simpl.
      destruct (truthy (strip (canonical_name c))) eqn:Ht; simpl.
      - destruct (has_key _ m) eqn:Hk; simpl.
        + split_and!; [done..|]. intros name. split; [by left|].
          intros [?|[_ <-]]; [done|]. by apply has_key_names.
        + split_and!.
          * by apply prefix_app_r.
          * apply NoDup_app. split_and!; [done| |apply NoDup_singleton].
            intros x Hx ->%list_elem_of_singleton.
            apply has_key_names in Hx. congruence.
          * intros name. rewrite elem_of_app, list_elem_of_singleton.
            apply truthy_ne in Ht. split; [|naive_solver].
            intros [?| ->]; [by left|by right].
      - split_and!; [done..|]. intros name. split; [by left|].
        intros [?|[Hne <-]]; [done|]. apply truthy_ne in Hne. congruence. }
    destruct (IH _ Hnd') as (Hpre2 & Hnd2 & Hin2).
    split_and!; [by etrans|done|].
    intros name. rewrite Hin2, Hin. setoid_rewrite elem_of_cons. naive_solver.
Qed.

(** X1. The names of the aggregated map are pairwise distinct, none is
    empty, and they are exactly the non-empty stripped canonical names of
    the mentions; a name has an entry exactly when it is one of them. *)
Theorem aggregate_characters_names (chapter_results : list ChapterCharactersWithTraits) :
  let char_map := aggregate_characters chapter_results in
  NoDup (names char_map)
  /\ (forall name, name ∈ names char_map
        <-> name <> ""
            /\ exists c, c ∈ all_mentions chapter_results
                         /\ strip (canonical_name c) = name)
  /\ (forall name, is_Some (get_entry name char_map) <-> name ∈ names char_map).
Proof.
  intros char_map. unfold char_map. rewrite aggregate_characters_flat.
  destruct (names_foldl_add_mention (all_mentions chapter_results) [])
    as (_ & Hnd & Hin); [constructor|].
  split_and!; [done| |intros; apply get_entry_names].
  intros name. rewrite Hin. split; [|by right].
  intros [?%elem_of_nil|?]; done.
Qed.

Lemma count_tier_total (ms : list ChapterCharacterMention) :
  count_tier main_protagonist ms + count_tier secondary_lead ms
  + count_tier supporting ms + count_tier minor ms = length ms.
Proof.
  unfold count_tier. induction ms as [|c ms IH]; simpl; [done|].
  destruct (importance c); simpl; lia.
Qed.

Lemma total_count_get (counts : ImportanceCounts) :
  total_count counts
  = get_count counts main_protagonist + get_count counts secondary_lead
    + get_count counts supporting + get_count counts minor.
Proof. done. Qed.

Lemma fold_entry_aliases (ms : list ChapterCharacterMention) (entry : Entry) :
  entry_aliases (fold_entry entry ms)
  = entry_aliases entry ∪ list_to_set (ms ≫= mention_aliases).
Proof.
  revert entry. induction ms as [|c ms IH]; intros entry; simpl.
  - by rewrite union_empty_r_L.
  - unfold fold_entry in IH. rewrite IH. simpl.
    rewrite list_to_set_app_L. by rewrite (assoc_L (∪)).
Qed.

Lemma size_list_to_set_le (l : list string) :
  size (list_to_set l : gset string) <= length l.
Proof.
  induction l as [|x l IH].
  - rewrite list_to_set_nil, size_empty. done.
  - rewrite list_to_set_cons, size_union_alt, size_singleton.
    assert (size ((list_to_set l : gset string) ∖ {[x]})
            <= size (list_to_set l : gset string)).
    { apply subseteq_size. apply subseteq_difference_l. done. }
    simpl. lia.
Qed.

Lemma size_list_to_set_pos (l : list string) :
  l <> [] -> 1 <= size (list_to_set l : gset string).
Proof.
  destruct l as [|x l]; [done|]. intros _.
  assert (size (list_to_set (x :: l) : gset string) <> 0); [|lia].
  rewrite size_non_empty_iff. intros Hempty.
  assert (x ∈ (list_to_set (x :: l) : gset string)) as Hx
    by (apply elem_of_list_to_set; by left).
  rewrite Hempty in Hx. by apply elem_of_empty in Hx.
Qed.

Lemma aggregate_characters_NoDup (chapter_results : list ChapterCharactersWithTraits) :
  NoDup (names (aggregate_characters chapter_results)).
Proof.
  rewrite aggregate_characters_flat.
  apply (names_foldl_add_mention (all_mentions chapter_results) []). constructor.
Qed.

(** The sizes kept in an aggregated entry. *)
Lemma aggregated_entry_sizes (chapter_results : list ChapterCharactersWithTraits)
    (name : string) (entry : Entry) :
  get_entry name (aggregate_characters chapter_results) = Some entry ->
  entry_mentions entry = mentions_of name (all_mentions chapter_results)
  /\ total_count (entry_importance_counts entry) = length (entry_mentions entry)
  /\ 1 <= size (entry_chapters_seen entry) <= length (entry_mentions entry).
Proof.
  intros [-> Hne]%aggregate_characters_entry.
  set (ms := mentions_of name (all_mentions chapter_results)) in *.
  rewrite fold_entry_mentions, fold_entry_chapters_seen. simpl.
  rewrite union_empty_l_L. split_and!; [done| | |].
  - rewrite total_count_get, !fold_entry_counts. simpl. apply count_tier_total.
  - apply size_list_to_set_pos. by destruct ms.
  - etrans; [apply size_list_to_set_le|]. by rewrite length_fmap.
Qed.

(** X2. The entry stored under a name holds the mentions filed under that
    name, in visiting order and at least one; its four counters add up to
    the number of these mentions; its chapters are the chapters of these
    mentions, at least one and no more than there are mentions; its aliases
    are the stripped non-empty aliases of these mentions. *)
Theorem aggregate_characters_entry_contents
    (chapter_results : list ChapterCharactersWithTraits) (name : string) (entry : Entry) :
  get_entry name (aggregate_characters chapter_results) = Some entry ->
  let ms := mentions_of name (all_mentions chapter_results) in
  ms <> []
  /\ entry_mentions entry = ms
  /\ total_count (entry_importance_counts entry) = length ms
  /\ entry_chapters_seen entry = list_to_set (chapter_id <$> ms)
  /\ 1 <= size (entry_chapters_seen entry) <= length ms
  /\ entry_aliases entry = list_to_set (ms ≫= mention_aliases).
Proof.
  intros Hentry ms.
  destruct (aggregated_entry_sizes _ _ _ Hentry) as (Hm & Htotal & Hsize).
  apply aggregate_characters_entry in Hentry as [-> Hne].
  fold ms in Hne, Hm, Htotal, Hsize |- *. rewrite Hm in Htotal, Hsize.
  split_and!; [done|done|done| |lia|lia|].
  - rewrite fold_entry_chapters_seen. simpl. by rewrite union_empty_l_L.
  - rewrite fold_entry_aliases. simpl. by rewrite union_empty_l_L.
Qed.

Lemma aggregate_characters_entry_contents_witness :
  entry_mentions scenario_B_entry
  = [mention "Chu Yu" main_protagonist "ch1"; mention "Chu Yu" main_protagonist "ch2";
     mention " Chu Yu " main_protagonist "ch3"; mention "Chu Yu" supporting "ch4";
     mention "Chu Yu" main_protagonist "ch5"; mention "Chu Yu" main_protagonist "ch6"]
  /\ total_count (entry_importance_counts scenario_B_entry) = 6.
Proof.
  destruct (aggregate_characters_entry_contents scenario_B "Chu Yu" scenario_B_entry
              scenario_B_aggregated) as (_ & Hm & Hc & _).
  split; [exact Hm|exact Hc].
Defined.

(** The score never decreases when counters and chapters grow. *)
Lemma score_character_mono (e e' : Entry) :
  (forall tier, get_count (entry_importance_counts e) tier
                <= get_count (entry_importance_counts e') tier) ->
  size (entry_chapters_seen e) <= size (entry_chapters_seen e') ->
  (score_character e <= score_character e')%Q.
Proof.
  intros Hc Hs. rewrite !score_character_formula.
  pose proof (Hc main_protagonist). pose proof (Hc secondary_lead).
  pose proof (Hc supporting).
  unfold Qn. repeat apply Qplus_le_compat;
    (apply Qmult_le_l; [done|]); rewrite <- Zle_Qle; lia.
Qed.

Lemma aggregated_name_truthy (chapter_results : list ChapterCharactersWithTraits)
    (name : string) :
  is_Some (get_entry name (aggregate_characters chapter_results)) -> truthy name = true.
Proof.
  rewrite aggregate_characters_flat, get_entry_foldl_add_mention. simpl.
  destruct (truthy name); [done|]. by intros [??].
Qed.

Lemma aggregate_characters_app (crs more : list ChapterCharactersWithTraits) :
  aggregate_characters (crs ++ more)
  = foldl add_mention (aggregate_characters crs) (all_mentions more).
Proof.
  rewrite !aggregate_characters_flat. unfold all_mentions.
  by rewrite bind_app, foldl_app.
Qed.

(** X3. Aggregating further chapters keeps the names found so far in
    their order and adds new names behind them; the entry of a name found
    so far keeps its mentions and gets the new ones appended, its counters
    and chapters only grow, and its score does not decrease. *)
Theorem aggregate_characters_extend (crs more : list ChapterCharactersWithTraits) :
  names (aggregate_characters crs) `prefix_of` names (aggregate_characters (crs ++ more))
  /\ forall name entry,
       get_entry name (aggregate_characters crs) = Some entry ->
       exists entry',
         get_entry name (aggregate_characters (crs ++ more)) = Some entry'
         /\ entry_mentions entry'
            = entry_mentions entry ++ mentions_of name (all_mentions more)
         /\ (forall tier, get_count (entry_importance_counts entry) tier
                          <= get_count (entry_importance_counts entry') tier)
         /\ entry_chapters_seen entry ⊆ entry_chapters_seen entry'
         /\ (score_character entry <= score_character entry')%Q.
Proof.
  rewrite aggregate_characters_app. split.
  - apply names_foldl_add_mention.
    apply aggregate_characters_NoDup.
  - intros name entry Hentry.
    assert (truthy name = true) as Ht by (eapply aggregated_name_truthy; eauto).
    exists (fold_entry entry (mentions_of name (all_mentions more))).
    assert (forall tier, get_count (entry_importance_counts entry) tier
              <= get_count (entry_importance_counts
                   (fold_entry entry (mentions_of name (all_mentions more)))) tier)
      as Hcounts by (intros tier; rewrite fold_entry_counts; lia).
    assert (entry_chapters_seen entry
            ⊆ entry_chapters_seen (fold_entry entry (mentions_of name (all_mentions more))))
      as Hsub by (rewrite fold_entry_chapters_seen; apply union_subseteq_l).
    split_and!; [|apply fold_entry_mentions|done|done|].
    + rewrite get_entry_foldl_add_mention, Hentry, Ht.
      by destruct (mentions_of name (all_mentions more)).
    + apply score_character_mono; [done|]. by apply subseteq_size.
Qed.

Lemma aggregate_characters_extend_witness :
  names (aggregate_characters (scenario_B ++ scenario_B_sequel))
  = names (aggregate_characters scenario_B) ++ ["Song Shilan"]
  /\ exists entry',
       get_entry "Chu Yu" (aggregate_characters (scenario_B ++ scenario_B_sequel))
       = Some entry'
       /\ (score_character scenario_B_entry <= score_character entry')%Q.
Proof.
  split; [vm_compute; reflexivity|].
  destruct (proj2 (aggregate_characters_extend scenario_B scenario_B_sequel)
              "Chu Yu" scenario_B_entry scenario_B_aggregated)
    as (entry' & Hget & _ & _ & _ & Hscore).
  exists entry'. split; [exact Hget|exact Hscore].
Defined.

(** X4. Every aggregated character scores at least 0.5 and at most 3.5
    times the number of its mentions; one that is [minor] in all its
    mentions scores half the number of its chapters. *)
Theorem score_character_bounds (chapter_results : list ChapterCharactersWithTraits)
    (name : string) (entry : Entry) :
  get_entry name (aggregate_characters chapter_results) = Some entry ->
  ((1 # 2) <= score_character entry)%Q
  /\ (score_character entry <= (7 # 2) * Qn (length (entry_mentions entry)))%Q
  /\ (get_count (entry_importance_counts entry) minor = length (entry_mentions entry) ->
      (score_character entry == (1 # 2) * Qn (size (entry_chapters_seen entry)))%Q).
Proof.
  intros Hentry.
  destruct (aggregated_entry_sizes chapter_results name entry Hentry)
    as (_ & Htotal & Hsize).
  rewrite total_count_get in Htotal. rewrite score_character_formula.
  set (a := get_count (entry_importance_counts entry) main_protagonist) in *.
  set (b := get_count (entry_importance_counts entry) secondary_lead) in *.
  set (c := get_count (entry_importance_counts entry) supporting) in *.
  set (m := get_count (entry_importance_counts entry) minor) in *.
  set (d := size (entry_chapters_seen entry)) in *.
  set (n := length (entry_mentions entry)) in *.
  clearbody a b c m d n. unfold Qn. split_and!.
  - unfold Qle. simpl. lia.
  - unfold Qle. simpl. lia.
  - intros Hminor. assert (a = 0 /\ b = 0 /\ c = 0) as (-> & -> & ->) by lia.
    unfold Qeq. simpl. lia.
Qed.

Lemma score_character_bounds_witness :
  ((1 # 2) <= score_character scenario_B_entry)%Q
  /\ (score_character scenario_B_entry <= (7 # 2) * Qn 6)%Q.
Proof.
  destruct (score_character_bounds scenario_B "Chu Yu" scenario_B_entry
              scenario_B_aggregated) as (Hlow & Hhigh & _).
  split; [exact Hlow|exact Hhigh].
Defined.

(** *** Further properties of the selection *)

Abbreviation decreasing := (StronglySorted (fun a b => (item_score b <= item_score a)%Q)).
Abbreviation keeps min_score := (fun item : scored_t => Qle_bool min_score (item_score item)).

Lemma filter_sublist {A : Type} (f : A -> bool) (l : list A) :
  List.filter f l `sublist_of` l.
Proof.
  induction l as [|x l IH]; simpl; [constructor|].
  destruct (f x); by constructor.
Qed.

Lemma filter_decreasing (f : scored_t -> bool) (l : list scored_t) :
  decreasing l -> decreasing (List.filter f l).
Proof.
  induction 1 as [|x l Hl IH Hx]; simpl; [constructor|].
  destruct (f x); [|done]. constructor; [done|].
  rewrite Forall_forall in Hx |- *. intros y Hy. apply Hx.
  apply list_elem_of_In, filter_In in Hy as [Hy _]. by apply list_elem_of_In.
Qed.

Lemma decreasing_app (l1 l2 : list scored_t) (x y : scored_t) :
  decreasing (l1 ++ l2) -> x ∈ l1 -> y ∈ l2 -> (item_score y <= item_score x)%Q.
Proof.
  induction l1 as [|z l1 IH]; simpl; intros Hs Hx Hy; [by apply elem_of_nil in Hx|].
  inversion Hs as [|? ? Hs' Hz]; subst.
  apply elem_of_cons in Hx as [->|Hx]; [|by apply IH].
  rewrite Forall_forall in Hz. apply Hz, elem_of_app. by right.
Qed.

(** In a decreasing list the items that reach [min_score] are a prefix. *)
Lemma filter_decreasing_prefix (min_score : Q) (l : list scored_t) :
  decreasing l -> List.filter (keeps min_score) l `prefix_of` l.
Proof.
  induction 1 as [|x l Hl IH Hx]; simpl; [done|].
  destruct (Qle_bool min_score (item_score x)) eqn:E.
  - by apply prefix_cons.
  - assert (List.filter (keeps min_score) l = []) as ->; [|apply prefix_nil].
    clear IH Hl. induction l as [|y l IH]; simpl; [done|].
    inversion Hx as [|? ? Hy Hx']; subst.
    destruct (Qle_bool min_score (item_score y)) eqn:Ey; [|by apply IH].
    apply Qle_bool_iff in Ey.
    assert (Qle_bool min_score (item_score x) = true); [|congruence].
    apply Qle_bool_iff. by eapply Qle_trans.
Qed.

Lemma prefix_take_eq {A : Type} (l1 l2 : list A) :
  l1 `prefix_of` l2 -> l1 = take (length l1) l2.
Proof. intros [r ->]. by rewrite take_app_length. Qed.

Lemma take_prefix_le {A : Type} (n n' : nat) (l : list A) :
  n <= n' -> take n l `prefix_of` take n' l.
Proof.
  intros Hn. replace (take n l) with (take n (take n' l)); [apply prefix_take|].
  rewrite take_take. f_equal. lia.
Qed.

(** A lower threshold keeps at least as many items. *)
Lemma filter_length_le (min_score min_score' : Q) (l : list scored_t) :
  (min_score' <= min_score)%Q ->
  length (List.filter (keeps min_score) l) <= length (List.filter (keeps min_score') l).
Proof.
  intros Hmin. induction l as [|x l IH]; simpl; [done|].
  destruct (Qle_bool min_score (item_score x)) eqn:E.
  - apply Qle_bool_iff in E.
    rewrite (proj2 (Qle_bool_iff min_score' (item_score x)))
      by (by eapply Qle_trans).
    simpl. lia.
  - destruct (Qle_bool min_score' (item_score x)); simpl; lia.
Qed.

Lemma slice_to_take {A : Type} (k : Z) (l : list A) : exists n, slice_to k l = take n l.
Proof. unfold slice_to. destruct (0 <=? k)%Z; eauto. Qed.

Lemma scored_items_names (char_map : char_map_t) :
  (scored_items char_map).*1.*1 = names char_map.
Proof.
  unfold scored_items, names. induction char_map as [|[name entry] m IH]; simpl; [done|].
  f_equal. apply IH.
Qed.

Lemma elem_of_scored_items (char_map : char_map_t) (item : scored_t) :
  item ∈ scored_items char_map
  <-> exists name entry, (name, entry) ∈ char_map
                         /\ item = (name, score_character entry, entry).
Proof.
  unfold scored_items. rewrite list_elem_of_fmap. split.
  - intros ([name entry] & -> & Hin). eauto.
  - intros (name & entry & Hin & ->). by exists (name, entry).
Qed.

(** X5. Whatever the bound, also a negative one, every selected item is
    an entry of the map with its score, the score reaches [min_score], the
    scores decrease along the selection, and when the names of the map are
    distinct so are the selected names. *)
Theorem select_main_characters_sound (char_map : char_map_t) (max_main_chars : Z)
    (min_score : Q) :
  let selected := select_main_characters char_map max_main_chars min_score in
  (forall item, item ∈ selected ->
     (min_score <= item_score item)%Q
     /\ exists name entry, (name, entry) ∈ char_map
                           /\ item = (name, score_character entry, entry))
  /\ decreasing selected
  /\ (NoDup (names char_map) -> NoDup (selected.*1.*1)).
Proof.
  intros selected. unfold selected, select_main_characters.
  set (sorted := sort_reverse item_score (scored_items char_map)).
  destruct (slice_to_take max_main_chars (List.filter (keeps min_score) sorted))
    as [n ->].
  assert (decreasing sorted) as Hsorted by apply sort_reverse_sorted.
  assert (sorted ≡ₚ scored_items char_map) as Hperm
    by (symmetry; apply sort_reverse_perm).
  split_and!.
  - intros item Hin. apply elem_of_take in Hin as (i & Hin & _).
    apply list_elem_of_lookup_2, list_elem_of_In, filter_In in Hin as [Hin Hmin].
    apply Qle_bool_iff in Hmin. split; [done|].
    apply elem_of_scored_items. rewrite <- Hperm. by apply list_elem_of_In.
  - apply filter_decreasing with (f := keeps min_score) in Hsorted.
    rewrite <- (take_drop n (List.filter _ sorted)) in Hsorted.
    clear -Hsorted. revert Hsorted.
    generalize (take n (List.filter (keeps min_score) sorted)) as l1.
    generalize (drop n (List.filter (keeps min_score) sorted)) as l2.
    intros l2 l1. induction l1 as [|x l1 IH]; simpl; intros Hs; [constructor|].
    inversion Hs as [|? ? Hs' Hx]; subst. constructor; [by apply IH|].
    rewrite Forall_forall in Hx |- *. intros y Hy. apply Hx, elem_of_app. by left.
  - intros Hnd. rewrite <- scored_items_names, <- Hperm in Hnd.
    eapply sublist_NoDup; [exact Hnd|].
    do 2 apply fmap_sublist. etrans; [apply sublist_take|apply filter_sublist].
Qed.

Lemma select_main_characters_sound_witness :
  NoDup ((select_main_characters (aggregate_characters scenario_B) (-1) 3).*1.*1).
Proof.
  apply (select_main_characters_sound (aggregate_characters scenario_B) (-1) 3).
  apply aggregate_characters_NoDup.
Defined.

(** X6. With a bound that is not negative, an entry of the map that is
    left out either scores below [min_score], or the selection is full and
    the entry scores no more than every selected item. *)
Theorem select_main_characters_best (char_map : char_map_t) (max_main_chars : Z)
    (min_score : Q) (item : scored_t) :
  (0 <= max_main_chars)%Z ->
  item ∈ scored_items char_map ->
  let selected := select_main_characters char_map max_main_chars min_score in
  item ∉ selected ->
  (item_score item < min_score)%Q
  \/ (Z.of_nat (length selected) = max_main_chars
      /\ forall sel, sel ∈ selected -> (item_score item <= item_score sel)%Q).
Proof.
  intros Hk Hitem selected Hout. unfold selected, select_main_characters in *.
  rewrite slice_to_nonneg in * by done.
  set (sorted := sort_reverse item_score (scored_items char_map)) in *.
  set (kept := List.filter (keeps min_score) sorted) in *.
  destruct (Qlt_le_dec (item_score item) min_score) as [Hlt|Hle]; [by left|right].
  assert (item ∈ kept) as Hkept.
  { apply list_elem_of_In, filter_In. split.
    - apply list_elem_of_In. unfold sorted. by rewrite <- sort_reverse_perm.
    - by apply Qle_bool_iff. }
  rewrite <- (take_drop (Z.to_nat max_main_chars) kept) in Hkept.
  apply elem_of_app in Hkept as [?|Hdrop]; [done|].
  assert (decreasing (take (Z.to_nat max_main_chars) kept
                      ++ drop (Z.to_nat max_main_chars) kept)) as Hs.
  { rewrite take_drop. apply filter_decreasing, sort_reverse_sorted. }
  split.
  - rewrite length_take.
    assert (Z.to_nat max_main_chars < length kept); [|lia].
    destruct (decide (Z.to_nat max_main_chars < length kept)) as [|Hge]; [done|].
    rewrite drop_ge in Hdrop by lia. by apply elem_of_nil in Hdrop.
  - intros sel Hsel. by eapply decreasing_app.
Qed.

Lemma select_main_characters_best_witness :
  (item_score scenario_B_steward < 3)%Q
  \/ (Z.of_nat (length (select_main_characters (aggregate_characters scenario_B) 3 3))
      = 3%Z
      /\ forall sel,
           sel ∈ select_main_characters (aggregate_characters scenario_B) 3 3 ->
           (item_score scenario_B_steward <= item_score sel)%Q).
Proof.
  apply (select_main_characters_best (aggregate_characters scenario_B) 3 3
           scenario_B_steward).
  - done.
  - vm_compute. do 4 right. by left.
  - vm_compute. intros H.
    repeat (apply elem_of_cons in H as [H|H]; [discriminate H|]).
    by apply elem_of_nil in H.
Defined.

(** X7. The selection is a prefix of the stably sorted list of all scored
    entries, and it only grows at its end when the bound is raised or
    [min_score] is lowered. *)
Theorem select_main_characters_prefix (char_map : char_map_t)
    (k k' : Z) (min_score min_score' : Q) :
  (0 <= k <= k')%Z -> (min_score' <= min_score)%Q ->
  select_main_characters char_map k min_score
    `prefix_of` select_main_characters char_map k' min_score'
  /\ select_main_characters char_map k' min_score'
       `prefix_of` sort_reverse item_score (scored_items char_map).
Proof.
  intros Hk Hmin. unfold select_main_characters.
  rewrite !slice_to_nonneg by lia.
  set (sorted := sort_reverse item_score (scored_items char_map)).
  assert (decreasing sorted) as Hsorted by apply sort_reverse_sorted.
  rewrite (prefix_take_eq _ _ (filter_decreasing_prefix min_score sorted Hsorted)).
  rewrite (prefix_take_eq _ _ (filter_decreasing_prefix min_score' sorted Hsorted)).
  rewrite !take_take. split; [|apply prefix_take].
  apply take_prefix_le.
  pose proof (filter_length_le min_score min_score' sorted Hmin). lia.
Qed.

Lemma select_main_characters_prefix_witness :
  select_main_characters (aggregate_characters scenario_B) 1 5
    `prefix_of` select_main_characters (aggregate_characters scenario_B) 3 3.
Proof.
  apply (select_main_characters_prefix (aggregate_characters scenario_B) 1 3 5 3).
  - lia.
  - vm_compute. discriminate.
Defined.

End AggregatorFacts.

(** ** From the novel to the character profiles *)

Module MainCharacterProfilesFacts.
Import BuildMainCharacterProfiles MainCharacterProfiles.

Section Run.

Variable generate_content : client Prompt.
Variable decode_chapter : string -> option ChapterCharactersWithTraits.
Variable decode_profile : string -> option CharacterBaseProfile.

Abbreviation analyze := (analyze_chapter_characters generate_content decode_chapter).
Abbreviation build_profile :=
  (build_character_profile_from_mentions generate_content decode_profile).
Abbreviation analysis_of :=
  (MainCharacterProfiles.analysis_of generate_content decode_chapter).

Lemma analyze_chapter_characters_log (novel_title chapter_id chapter_text : string)
    (log log' : list Prompt) (r : result ChapterCharactersWithTraits) :
  analyze novel_title chapter_id chapter_text log = (r, log') ->
  log' = log ++ [build_chapter_prompt novel_title chapter_id chapter_text].
Proof.
  unfold analyze_chapter_characters, mbind, M_bind, call, lift.
  destruct (generate_content log _) as [resp|e]; [|by intros [= _ <-]].
  destruct (response_raw resp) as [raw|e]; by intros [= _ <-].
Qed.

Lemma build_character_profile_result (novel_title character_name : string)
    (aliases : gset string) (mentions : list ChapterCharacterMention)
    (log log' : list Prompt) (profile : CharacterBaseProfile) :
  build_profile novel_title character_name aliases mentions log = (Ok profile, log') ->
  log' = log ++ [build_profile_prompt novel_title character_name aliases mentions]
  /\ novel_name profile = novel_title.
Proof.
  unfold build_character_profile_from_mentions, mbind, M_bind, call, lift, mret, M_ret.
  destruct (generate_content log _) as [resp|e]; [|done].
  destruct (response_raw resp) as [raw|e]; [|done].
  destruct (model_validate_json decode_profile raw) as [p|e]; [|done].
  by intros [= <- <-].
Qed.

Lemma chapters_loop_spec (novel_title : string) (chapters_raw : list Chapter)
    (chapter_results out : list ChapterCharactersWithTraits) (log log' : list Prompt) :
  chapters_loop generate_content decode_chapter novel_title chapters_raw
    chapter_results log = (Ok out, log') ->
  exists analysed,
    out = chapter_results ++ analysed
    /\ Forall2 (analysis_of novel_title) chapters_raw analysed
    /\ log' = log ++ (chapter_prompt novel_title <$> chapters_raw).
Proof.
  revert chapter_results log.
  induction chapters_raw as [|ch rest IH]; intros acc log Hrun.
  - injection Hrun as <- <-. exists []. by rewrite !app_nil_r.
  - cbn [chapters_loop] in Hrun. unfold mbind at 1, M_bind at 1 in Hrun.
    destruct (analyze _ _ _ log) as [[result|e] log1] eqn:Ha; [|done].
    pose proof (analyze_chapter_characters_log _ _ _ _ _ _ Ha) as ->.
    destruct (IH _ _ Hrun) as (analysed & -> & Hall & ->).
    exists (result :: analysed). split_and!.
    + by rewrite <- app_assoc.
    + constructor; [|done]. by exists log, (log ++ [chapter_prompt novel_title ch]).
    + by rewrite <- app_assoc.
Qed.

Lemma profiles_loop_spec (novel_title : string) (main_candidates : list scored_t)
    (profiles out : list CharacterBaseProfile) (log log' : list Prompt) :
  profiles_loop generate_content decode_profile novel_title main_candidates
    profiles log = (Ok out, log') ->
  exists built,
    out = profiles ++ built
    /\ length built = length main_candidates
    /\ Forall (fun p => novel_name p = novel_title) built
    /\ log' = log ++ (candidate_prompt novel_title <$> main_candidates).
Proof.
  revert profiles log.
  induction main_candidates as [|[[name score] entry] rest IH]; intros acc log Hrun.
  - injection Hrun as <- <-. exists []. by rewrite !app_nil_r.
  - cbn [profiles_loop] in Hrun. unfold mbind at 1, M_bind at 1 in Hrun.
    destruct (build_profile _ _ _ _ log) as [[profile|e] log1] eqn:Hb; [|done].
    apply build_character_profile_result in Hb as [-> Hname].
    destruct (IH _ _ Hrun) as (built & -> & Hlen & Hall & ->).
    exists (profile :: built). split_and!.
    + by rewrite <- app_assoc.
    + simpl. by rewrite Hlen.
    + by constructor.
    + by rewrite <- app_assoc.
Qed.

End Run.





End MainCharacterProfilesFacts.

(** ** Further properties of the scene index *)

Module SceneIndexFacts.
Import TrailerToKeyframe SceneCorpus KeyframeDeriver.

Lemma append_nil_l (s : string) : "" +:+ s = s.
Proof. reflexivity. Qed.

Lemma append_cons (a : ascii) (s t : string) : String a s +:+ t = String a (s +:+ t).
Proof. reflexivity. Qed.

(** The two ways to read a compound key apart. *)
Lemma compound_split (c1 c2 sid1 sid2 : string) :
  contains "_s" sid1 = false -> contains "_s" sid2 = false ->
  compound c1 sid1 = compound c2 sid2 -> c1 = c2 /\ sid1 = sid2.
Proof.
  intros H1 H2. unfold compound. revert c2.
  induction c1 as [|a c1 IH]; intros c2 Heq.
  - destruct c2 as [|b c2].
    + rewrite !append_nil_l, !append_cons, !append_nil_l in Heq. by injection Heq as ->.
    + exfalso. rewrite !append_nil_l, !append_cons, !append_nil_l in Heq.
      injection Heq as <- Heq.
      destruct c2 as [|b c2]; rewrite ?append_nil_l, ?append_cons in Heq; [discriminate|].
      injection Heq as <- ->.
      change (String "_" (String "s" sid2)) with ("_s" +:+ sid2) in H1.
      by rewrite contains_append in H1.
  - destruct c2 as [|b c2].
    + exfalso. rewrite !append_nil_l, !append_cons, ?append_nil_l in Heq.
      injection Heq as -> Heq.
      destruct c1 as [|b c1]; rewrite ?append_nil_l, ?append_cons in Heq; [discriminate|].
      injection Heq as -> <-.
      change (String "_" (String "s" sid1)) with ("_s" +:+ sid1) in H2.
      by rewrite contains_append in H2.
    + rewrite !append_cons in Heq. injection Heq as -> Heq.
      destruct (IH _ Heq) as [-> ->]. done.
Qed.

(** X10. For plain scene ids the compound key determines the chapter id
    and the scene id, and a compound key is never a plain id. *)
Theorem compound_keys_unique (c1 c2 sid1 sid2 : string) :
  plain_id sid1 -> plain_id sid2 ->
  (compound c1 sid1 = compound c2 sid2 -> c1 = c2 /\ sid1 = sid2)
  /\ compound c1 sid1 <> sid2.
Proof.
  intros [_ H1] [_ H2]. split; [by apply compound_split|].
  by apply sequence_number_not_compound.
Qed.

Lemma compound_keys_unique_witness :
  compound "v01_ch001" "3" <> "3"
  /\ (compound "v01_ch001" "3" = compound "v01_ch001" "3" ->
      "v01_ch001" = "v01_ch001" /\ "3" = "3").
Proof.
  destruct (compound_keys_unique "v01_ch001" "v01_ch001" "3" "3") as [Hinj Hne];
    [by split..|].
  split; [exact Hne|exact Hinj].
Defined.

(** Scene ids that contain the separator can make two keys coincide. *)
Example compound_keys_clash : compound "v01" "1_s2" = compound "v01_s1" "2".
Proof. reflexivity. Qed.

Lemma last_write_None_iff (key : string) (ws : list (string * Scene)) :
  last_write key ws = None <-> forall w, w ∈ ws -> w.1 <> key.
Proof.
  split; [|apply last_write_None].
  intros Hnone [k s] Hw Hk. simpl in Hk. subst k.
  apply last_write_is_Some in Hw as [s' Hs']. congruence.
Qed.

(** X11. The index holds scenes of the corpus only, each under its own
    bare id or its own compound key; a key is absent exactly when no scene
    with a non-empty id has it as bare id or compound key. *)
Theorem index_scenes_by_id_sound (novel_scenes_output : NovelScenes) (key : string) :
  let index := index_scenes_by_id novel_scenes_output in
  (forall s, index !! key = Some s ->
     exists ch sid,
       ch ∈ chapters novel_scenes_output /\ s ∈ scenes ch
       /\ scene_id s = Some sid /\ sid <> ""
       /\ (key = sid \/ chapter_id ch <> "" /\ key = compound (chapter_id ch) sid))
  /\ (index !! key = None <->
      forall ch s sid,
        ch ∈ chapters novel_scenes_output -> s ∈ scenes ch ->
        scene_id s = Some sid -> sid <> "" ->
        key <> sid /\ (chapter_id ch <> "" -> key <> compound (chapter_id ch) sid)).
Proof.
  intros index. unfold index. rewrite lookup_index_scenes_by_id. split.
  - intros s Hs. apply last_write_Some, elem_of_corpus_writes in Hs
      as (ch & s' & Hch & Hs' & Hw).
    apply elem_of_scene_writes in Hw as (sid & Hsid & Hne & Heq & Hkey).
    simpl in Heq, Hkey. subst s'. exists ch, sid. by split_and!.
  - rewrite last_write_None_iff. split.
    + intros Hnone ch s sid Hch Hs Hsid Hne. split.
      * intros ->. apply (Hnone (sid, s)); [|done].
        apply elem_of_corpus_writes. exists ch, s. split_and!; [done..|].
        apply elem_of_scene_writes. exists sid. simpl. eauto 10.
      * intros Hc ->. apply (Hnone (compound (chapter_id ch) sid, s)); [|done].
        apply elem_of_corpus_writes. exists ch, s. split_and!; [done..|].
        apply elem_of_scene_writes. exists sid. simpl. eauto 10.
    + intros Hall w Hw Hkey.
      apply elem_of_corpus_writes in Hw as (ch & s & Hch & Hs & Hw).
      apply elem_of_scene_writes in Hw as (sid & Hsid & Hne & _ & Hk).
      destruct (Hall ch s sid Hch Hs Hsid Hne) as [H1 H2].
      destruct Hk as [Hk|[Hc Hk]]; [congruence|]. apply H2; [done|congruence].
Qed.

Lemma index_scenes_by_id_sound_witness :
  index_scenes_by_id scenario_A !! "v01_ch001_s9" = None.
Proof.
  apply (index_scenes_by_id_sound scenario_A "v01_ch001_s9").
  intros ch s sid Hch Hs Hsid _.
  repeat (apply elem_of_cons in Hch as [->|Hch]; [
    simpl in Hs;
    repeat (apply elem_of_cons in Hs as [->|Hs];
            [injection Hsid as <-; split; [discriminate|intros _; discriminate]|]);
    by apply elem_of_nil in Hs |]).
  by apply elem_of_nil in Hch.
Defined.

Lemma well_formed_scenario_A : well_formed scenario_A.
Proof.
  split; [by apply (bool_decide_unpack _)|].
  intros ch Hch.
  repeat (apply elem_of_cons in Hch as [->|Hch]; [
    split_and!; [discriminate|by apply (bool_decide_unpack _)|];
    intros s Hs; simpl in Hs;
    repeat (apply elem_of_cons in Hs as [->|Hs];
            [eexists; split; [reflexivity|by split]|]);
    by apply elem_of_nil in Hs |]).
  by apply elem_of_nil in Hch.
Qed.

(** X12. In a well-formed corpus the compound key of every scene resolves
    to that scene, and so does the id under which the scene is presented in
    the keyframe prompt when the scene names its chapter by the chapter
    id. *)
Theorem well_formed_corpus_resolves (novel_scenes_output : NovelScenes)
    (ch : ChapterScenes) (s : Scene) (sid : string) :
  well_formed novel_scenes_output ->
  ch ∈ chapters novel_scenes_output -> s ∈ scenes ch -> scene_id s = Some sid ->
  let index := index_scenes_by_id novel_scenes_output in
  index !! compound (chapter_id ch) sid = Some s
  /\ (chapter s = chapter_id ch -> index !! scene_uid s = Some s).
Proof.
  intros [Hchapters Hwf] Hch Hs Hsid index.
  assert (index !! compound (chapter_id ch) sid = Some s) as Hres.
  { unfold index. rewrite lookup_index_scenes_by_id. unfold corpus_writes.
    destruct (Hwf ch Hch) as (Hc & Hscenes & Hplain).
    destruct (Hplain s Hs) as (sid0 & Hsid0 & Hne & Hsep).
    assert (sid0 = sid) as -> by congruence.
    apply list_elem_of_split in Hch as (pre & post & Hchs).
    apply list_elem_of_split in Hs as (before & after & Hss).
    rewrite Hchs, bind_app, bind_cons, Hss, bind_app, bind_cons.
    assert (scene_writes (chapter_id ch) s
            = [(compound (chapter_id ch) sid, s)] ++ [(sid, s)]) as ->.
    { unfold scene_writes. rewrite Hsid.
      by rewrite (proj2 (truthy_spec sid) Hne), (proj2 (truthy_spec _) Hc). }
    rewrite <- !app_assoc. rewrite (app_assoc (pre ≫= _)). simpl.
    apply last_write_middle. intros w Hw Hkey.
    apply elem_of_cons in Hw as [->|Hw].
    { simpl in Hkey. symmetry in Hkey. by apply sequence_number_not_compound in Hkey. }
    assert (exists ch' s', ch' ∈ chapters novel_scenes_output /\ s' ∈ scenes ch'
              /\ (ch' = ch /\ s' ∈ after \/ ch' ∈ post)
              /\ w ∈ scene_writes (chapter_id ch') s')
      as (ch' & s' & Hch' & Hs' & Hlate & Hw').
    { apply elem_of_app in Hw as [Hw|Hw].
      - apply list_elem_of_bind in Hw as (s' & Hw & Hs').
        exists ch, s'. rewrite Hchs, Hss.
        split_and!; [|by apply elem_of_app; right; right|by left|done].
        apply elem_of_app. right. by left.
      - apply list_elem_of_bind in Hw as (ch' & Hw & Hch').
        apply list_elem_of_bind in Hw as (s' & Hw & Hs').
        exists ch', s'. rewrite Hchs. split_and!; [|done|by right|done].
        apply elem_of_app. right. by right. }
    apply elem_of_scene_writes in Hw' as (sid' & Hsid' & _ & _ & Hk).
    destruct (Hwf ch' Hch') as (_ & _ & Hplain').
    destruct (Hplain' s' Hs') as (sid1 & Hsid1 & _ & Hsep').
    assert (sid1 = sid') as -> by congruence.
    destruct Hk as [Hk|[_ Hk]].
    { rewrite Hk in Hkey. symmetry in Hkey.
      by apply sequence_number_not_compound in Hkey. }
    rewrite Hk in Hkey. apply compound_split in Hkey as [Hceq ->]; [|done..].
    destruct Hlate as [[-> Hin]|Hin].
    - rewrite Hss, fmap_app, fmap_cons in Hscenes.
      apply NoDup_app in Hscenes as (_ & _ & Hnd).
      apply NoDup_cons in Hnd as [Hnotin _]. apply Hnotin.
      rewrite Hsid, <- Hsid'. by apply list_elem_of_fmap_2.
    - rewrite Hchs, fmap_app, fmap_cons in Hchapters.
      apply NoDup_app in Hchapters as (_ & _ & Hnd).
      apply NoDup_cons in Hnd as [Hnotin _]. apply Hnotin.
      rewrite <- Hceq. by apply list_elem_of_fmap_2. }
  split; [done|].
  intros Hchap. unfold scene_uid. rewrite Hsid, Hchap. simpl.
  destruct (Hwf ch Hch) as (Hc & _ & Hplain).
  destruct (Hplain s Hs) as (sid0 & Hsid0 & Hne & _).
  assert (sid0 = sid) as -> by congruence.
  by rewrite (proj2 (truthy_spec _) Hc), (proj2 (truthy_spec _) Hne).
Qed.

Lemma well_formed_corpus_resolves_witness :
  index_scenes_by_id scenario_A !! compound "v01_ch002" "2" = Some (scene "2" "e").
Proof.
  refine (proj1 (well_formed_corpus_resolves scenario_A
    {| chapter_id := "v01_ch002"; scenes := [scene "1" "d"; scene "2" "e"] |}
    (scene "2" "e") "2" well_formed_scenario_A _ _ _)).
  - by right; left.
  - by right; left.
  - reflexivity.
Defined.

End SceneIndexFacts.

(** ** Further properties of the keyframe deriver *)

Module DeriverRunFacts.
Import TrailerToKeyframe SceneCorpus KeyframeDeriver.

Section Run.

Variable generate_content : client Prompt.
Variable decode : string -> option BeatKeyframes.
Variable scene_index : gmap string Scene.
Variables novel_id title : string.

Abbreviation keyframes_for :=
  (keyframes_for_beat generate_content decode scene_index novel_id title).
Abbreviation loop :=
  (beats_loop generate_content decode scene_index novel_id title).
Abbreviation answer_to := (decoded_answer generate_content decode).
Abbreviation prompt := (prompt_of scene_index novel_id title).
Abbreviation processed := (processed_beats scene_index).

(** The outcome of the loop body, by cases on [is_processed]. *)
Lemma keyframes_for_beat_cases (beat : Beat) (log : list Prompt) :
  keyframes_for beat log
  = if is_processed scene_index beat
    then (answer ← answer_to log (prompt beat); Ok (Some (group_of beat answer)),
          log ++ [prompt beat])
    else (Ok None, log).
Proof.
  unfold is_processed, cited_scenes.
  destruct (resolve_scenes scene_index _) as [|s l] eqn:E.
  - by apply keyframes_for_beat_skipped.
  - rewrite keyframes_for_beat_called by (by rewrite E).
    unfold prompt_of, cited_scenes. by rewrite E.
Qed.

Abbreviation answered_with :=
  (SceneCorpus.answered_with generate_content decode scene_index novel_id title).

Lemma beats_loop_ok (beats : list Beat) (all_keyframes out : list Keyframe)
    (log log' : list Prompt) :
  loop beats all_keyframes log = (Ok out, log') ->
  exists groups,
    out = all_keyframes ++ concat groups
    /\ Forall2 answered_with (processed beats) groups
    /\ log' = log ++ (prompt <$> processed beats).
Proof.
  revert all_keyframes log.
  induction beats as [|beat rest IH]; intros acc log Hrun.
  - injection Hrun as <- <-. exists []. simpl. by rewrite !app_nil_r.
  - cbn [beats_loop] in Hrun. unfold mbind at 1, M_bind at 1 in Hrun.
    rewrite keyframes_for_beat_cases in Hrun.
    unfold processed_beats. cbn [List.filter].
    destruct (is_processed scene_index beat).
    + destruct (answer_to log (prompt beat)) as [answer|e] eqn:Ha; [|done].
      simpl in Hrun. destruct (IH _ _ Hrun) as (groups & -> & Hall & ->).
      exists (group_of beat answer :: groups). simpl. split_and!.
      * by rewrite <- app_assoc.
      * constructor; [|done]. by exists log, answer.
      * by rewrite <- app_assoc.
    + destruct (IH _ _ Hrun) as (groups & -> & Hall & ->). by exists groups.
Qed.

Lemma beats_loop_raise (beats : list Beat) (all_keyframes : list Keyframe)
    (log log' : list Prompt) (e : exn) :
  loop beats all_keyframes log = (Raise e, log') ->
  exists before beat after,
    processed beats = before ++ beat :: after
    /\ log' = log ++ (prompt <$> before) ++ [prompt beat]
    /\ answer_to (log ++ (prompt <$> before)) (prompt beat) = Raise e.
Proof.
  revert all_keyframes log.
  induction beats as [|beat rest IH]; intros acc log Hrun; [done|].
  cbn [beats_loop] in Hrun. unfold mbind at 1, M_bind at 1 in Hrun.
  rewrite keyframes_for_beat_cases in Hrun.
  unfold processed_beats. cbn [List.filter].
  destruct (is_processed scene_index beat).
  - destruct (answer_to log (prompt beat)) as [answer|e'] eqn:Ha.
    + simpl in Hrun. destruct (IH _ _ Hrun) as (before & b & after & Hp & -> & Hraise).
      exists (beat :: before), b, after. unfold processed_beats in Hp. rewrite Hp.
      split_and!; [done| |].
      * simpl. by rewrite <- !app_assoc.
      * simpl. by rewrite <- app_assoc in Hraise.
    + simpl in Hrun. injection Hrun as <- <-.
      exists [], beat, (processed rest). simpl. by rewrite app_nil_r.
  - destruct (IH _ _ Hrun) as (before & b & after & Hp & -> & Hraise).
    by exists before, b, after.
Qed.

Lemma beats_loop_nothing (beats : list Beat) (all_keyframes : list Keyframe)
    (log : list Prompt) :
  processed beats = [] -> loop beats all_keyframes log = (Ok all_keyframes, log).
Proof.
  revert all_keyframes log.
  induction beats as [|beat rest IH]; intros acc log Hp; [done|].
  cbn [beats_loop]. unfold mbind at 1, M_bind at 1.
  rewrite keyframes_for_beat_cases.
  unfold processed_beats in Hp. cbn [List.filter] in Hp.
  destruct (is_processed scene_index beat); [done|]. by apply IH.
Qed.

End Run.

Lemma generate_keyframes_for_trailer_unfold (generate_content : client Prompt)
    (decode : string -> option BeatKeyframes) (novel_scenes_output : NovelScenes)
    (trailer_script : TrailerScript) (log : list Prompt) :
  generate_keyframes_for_trailer generate_content decode novel_scenes_output
    trailer_script log
  = match beats_loop generate_content decode (index_scenes_by_id novel_scenes_output)
            (run_novel_id novel_scenes_output trailer_script)
            (run_title novel_scenes_output trailer_script)
            (beats trailer_script) [] log with
    | (Ok all_keyframes, log') =>
        (Ok {| plan_novel_id := run_novel_id novel_scenes_output trailer_script;
               plan_title := run_title novel_scenes_output trailer_script;
               plan_keyframes := all_keyframes |}, log')
    | (Raise e, log') => (Raise e, log')
    end.
Proof. reflexivity. Qed.

(** X13. A run that writes a plan has sent one request per beat that
    cites at least one resolvable scene, in the order of the script, and no
    other; the keyframes of the plan are the answers to these requests,
    beat after beat in the order of the script, each keyframe with the
    characters of its beat. *)
Theorem plan_follows_the_script (generate_content : client Prompt)
    (decode : string -> option BeatKeyframes) (novel_scenes_output : NovelScenes)
    (trailer_script : TrailerScript) (log log' : list Prompt) (plan : KeyframePlan) :
  generate_keyframes_for_trailer generate_content decode novel_scenes_output
    trailer_script log = (Ok plan, log') ->
  let scene_index := index_scenes_by_id novel_scenes_output in
  let novel_id := run_novel_id novel_scenes_output trailer_script in
  let title := run_title novel_scenes_output trailer_script in
  let requested := processed_beats scene_index (beats trailer_script) in
  plan_novel_id plan = novel_id /\ plan_title plan = title
  /\ log' = log ++ (prompt_of scene_index novel_id title <$> requested)
  /\ exists groups,
       plan_keyframes plan = concat groups
       /\ Forall2 (answered_with generate_content decode scene_index novel_id title)
            requested groups.
Proof.
  rewrite generate_keyframes_for_trailer_unfold. intros Hrun.
  destruct (beats_loop _ _ _ _ _ _ _ _) as [[out|e] log1] eqn:Hloop; [|done].
  injection Hrun as <- <-. simpl.
  apply beats_loop_ok in Hloop as (groups & -> & Hall & ->).
  split_and!; [done..|]. by exists groups.
Qed.

Lemma plan_follows_the_script_witness :
  (generate_keyframes_for_trailer constant_client constant_decode scenario_A
     two_beat_script []).2
  = prompt_of (index_scenes_by_id scenario_A) "novel" "Title"
      <$> beats two_beat_script.
Proof.
  destruct (plan_follows_the_script constant_client constant_decode scenario_A
              two_beat_script [] _ _ eq_refl) as (_ & _ & Hlog & _).
  exact Hlog.
Defined.

(** X14. A run ends with the first request whose answer fails or does not
    decode: the exception leaves the run, no plan is written although the
    beats before were answered, and no request is sent for the beats
    after. *)
Theorem first_failure_ends_the_run (generate_content : client Prompt)
    (decode : string -> option BeatKeyframes) (novel_scenes_output : NovelScenes)
    (trailer_script : TrailerScript) (log log' : list Prompt) (e : exn) :
  generate_keyframes_for_trailer generate_content decode novel_scenes_output
    trailer_script log = (Raise e, log') ->
  let scene_index := index_scenes_by_id novel_scenes_output in
  let novel_id := run_novel_id novel_scenes_output trailer_script in
  let title := run_title novel_scenes_output trailer_script in
  exists before beat after,
    processed_beats scene_index (beats trailer_script) = before ++ beat :: after
    /\ log' = log ++ (prompt_of scene_index novel_id title <$> before)
                  ++ [prompt_of scene_index novel_id title beat]
    /\ decoded_answer generate_content decode
         (log ++ (prompt_of scene_index novel_id title <$> before))
         (prompt_of scene_index novel_id title beat) = Raise e.
Proof.
  rewrite generate_keyframes_for_trailer_unfold. intros Hrun.
  destruct (beats_loop _ _ _ _ _ _ _ _) as [[out|e'] log1] eqn:Hloop; [done|].
  injection Hrun as <- <-. by apply beats_loop_raise in Hloop.
Qed.

Lemma first_failure_ends_the_run_witness :
  generate_keyframes_for_trailer failing_on_B2 constant_decode scenario_A
    three_beat_script []
  = (Raise (ServerError "500 INTERNAL"),
     prompt_of (index_scenes_by_id scenario_A) "novel" "Title"
       <$> take 2 (beats three_beat_script))
  /\ exists before beat after,
       processed_beats (index_scenes_by_id scenario_A) (beats three_beat_script)
       = before ++ beat :: after.
Proof.
  split; [reflexivity|].
  destruct (first_failure_ends_the_run failing_on_B2 constant_decode scenario_A
              three_beat_script [] _ _ eq_refl) as (before & beat & after & Hp & _).
  by exists before, beat, after.
Defined.

(** X15. When no beat of the script cites a scene that resolves (an empty
    corpus, an empty script, dangling citations only), the run sends no
    request and writes a plan without keyframes. *)
Theorem nothing_resolvable_nothing_requested (generate_content : client Prompt)
    (decode : string -> option BeatKeyframes) (novel_scenes_output : NovelScenes)
    (trailer_script : TrailerScript) (log : list Prompt) :
  (forall beat sid, beat ∈ beats trailer_script ->
     sid ∈ default [] (b_source_scenes beat) ->
     index_scenes_by_id novel_scenes_output !! sid = None) ->
  generate_keyframes_for_trailer generate_content decode novel_scenes_output
    trailer_script log
  = (Ok {| plan_novel_id := run_novel_id novel_scenes_output trailer_script;
           plan_title := run_title novel_scenes_output trailer_script;
           plan_keyframes := [] |}, log).
Proof.
  intros Hnone. rewrite generate_keyframes_for_trailer_unfold.
  rewrite beats_loop_nothing; [done|].
  unfold processed_beats.
  induction (beats trailer_script) as [|beat rest IH]; [done|].
  cbn [List.filter].
  assert (is_processed (index_scenes_by_id novel_scenes_output) beat = false) as ->.
  { unfold is_processed, cited_scenes.
    rewrite (proj2 (resolve_scenes_nil _ _)); [done|].
    intros sid Hsid. apply (Hnone beat sid); [by left|done]. }
  apply IH. intros b sid Hb. apply Hnone. by right.
Qed.

Lemma nothing_resolvable_nothing_requested_witness :
  generate_keyframes_for_trailer constant_client constant_decode
    {| ns_novel_id := None; ns_title := None; chapters := [] |} two_beat_script []
  = (Ok {| plan_novel_id := "novel"; plan_title := "Title"; plan_keyframes := [] |}, []).
Proof.
  apply (nothing_resolvable_nothing_requested constant_client constant_decode
           {| ns_novel_id := None; ns_title := None; chapters := [] |}
           two_beat_script []).
  intros beat sid _ _. reflexivity.
Defined.

End DeriverRunFacts.

(** ** Further properties of the world profile synthesizer *)

Module WorldProfileRunFacts.
Import NovelWorldProfile WorldProfileRun WorldProfileSynthesizer PyFacts.

Lemma run_novel_name_truthy (data : Novel) : truthy (run_novel_name data) = true.
Proof. unfold run_novel_name. by do 2 apply or_else_truthy. Qed.

Section Run.

Variable generate_content : client Prompt.
Variable decode_hints : string -> option ChapterWorldHints.
Variable decode_profile : string -> option WorldProfile.

Abbreviation extract := (extract_chapter_world_hints generate_content decode_hints).
Abbreviation synthesize := (build_world_profile_from_hints generate_content decode_profile).
Abbreviation loop := (hints_loop generate_content decode_hints).

Lemma build_world_profile_from_hints_log (novel_name novel_summary : string)
    (hints_list : list ChapterWorldHints) (log log' : list Prompt)
    (r : result WorldProfile) :
  synthesize novel_name novel_summary hints_list log = (r, log') ->
  log' = log ++ [WorldProfilePrompt novel_name novel_summary hints_list].
Proof.
  unfold build_world_profile_from_hints, mbind, M_bind, call, lift, mret, M_ret.
  destruct (generate_content log _) as [response|e]; [|by intros [= _ <-]].
  destruct (response_raw response) as [raw|e]; [|by intros [= _ <-]].
  destruct (model_validate_json decode_profile raw); by intros [= _ <-].
Qed.

Lemma extract_chapter_world_hints_name (novel_name chapter_id chapter_text : string)
    (log log' : list Prompt) (hints : ChapterWorldHints) :
  truthy novel_name = true ->
  extract novel_name chapter_id chapter_text log = (Ok hints, log') ->
  truthy (h_novel_name hints) = true.
Proof.
  intros Hname.
  unfold extract_chapter_world_hints, mbind, M_bind, call, lift, mret, M_ret.
  destruct (generate_content log _) as [response|e]; [|done].
  destruct (response_raw response) as [raw|e]; [|done].
  destruct (model_validate_json decode_hints raw) as [hints0|e]; [|done].
  intros [= <- _]. by destruct (truthy (h_novel_name hints0)) eqn:Hh.
Qed.

Lemma build_world_profile_from_hints_name (novel_name novel_summary : string)
    (hints_list : list ChapterWorldHints) (log log' : list Prompt)
    (profile : WorldProfile) :
  truthy novel_name = true ->
  synthesize novel_name novel_summary hints_list log = (Ok profile, log') ->
  truthy (wp_novel_name profile) = true.
Proof.
  intros Hname.
  unfold build_world_profile_from_hints, mbind, M_bind, call, lift, mret, M_ret.
  destruct (generate_content log _) as [response|e]; [|done].
  destruct (response_raw response) as [raw|e]; [|done].
  destruct (model_validate_json decode_profile raw) as [profile0|e]; [|done].
  intros [= <- _]. by destruct (truthy (wp_novel_name profile0)) eqn:Hh.
Qed.

(** What stage two returns: the decoded profile, under the given name when
    it carries none. *)
Lemma build_world_profile_from_hints_ok (novel_name novel_summary : string)
    (hints_list : list ChapterWorldHints) (log log' : list Prompt)
    (profile : WorldProfile) :
  synthesize novel_name novel_summary hints_list log = (Ok profile, log') ->
  exists response raw decoded,
    generate_content log (WorldProfilePrompt novel_name novel_summary hints_list)
    = Ok response
    /\ response_raw response = Ok (Some raw)
    /\ decode_profile raw = Some decoded
    /\ profile = (if truthy (wp_novel_name decoded) then decoded
                  else set_profile_novel_name novel_name decoded).
Proof.
  unfold build_world_profile_from_hints, mbind, M_bind, call, lift, mret, M_ret.
  destruct (generate_content log _) as [response|e] eqn:Hresp; [|done].
  destruct (response_raw response) as [[raw|]|e] eqn:Hraw; [|done..].
  unfold model_validate_json.
  destruct (decode_profile raw) as [decoded|] eqn:Hdec; [|done].
  intros [= <- _]. exists response, raw, decoded.
  split_and!; [done..|]. by destruct (truthy (wp_novel_name decoded)).
Qed.

(** Stage one stops at the first chapter whose request fails. *)
Lemma hints_loop_raise (novel_name : string) (chapters : list Chapter)
    (hints_list : list ChapterWorldHints) (log log' : list Prompt) (e : exn) :
  loop novel_name chapters hints_list log = (Raise e, log') ->
  exists before ch after,
    chapters = before ++ ch :: after
    /\ log' = log ++ (hints_prompt novel_name <$> before) ++ [hints_prompt novel_name ch]
    /\ extract novel_name (chapter_label ch) (ch_content ch)
         (log ++ (hints_prompt novel_name <$> before)) = (Raise e, log').
Proof.
  revert hints_list log.
  induction chapters as [|ch rest IH]; intros acc log Hrun; [done|].
  cbn [hints_loop] in Hrun. unfold mbind at 1, M_bind at 1 in Hrun.
  destruct (extract _ _ _ log) as [[hints|e'] log1] eqn:Hextract.
  - pose proof (extract_chapter_world_hints_log _ _ _ _ _ _ _ _ Hextract) as ->.
    destruct (IH _ _ Hrun) as (before & c & after & -> & -> & Hraise).
    exists (ch :: before), c, after. simpl. rewrite <- !app_assoc in *.
    by split_and!.
  - injection Hrun as <- <-.
    pose proof (extract_chapter_world_hints_log _ _ _ _ _ _ _ _ Hextract) as Hlog.
    exists [], ch, rest. simpl. rewrite app_nil_r. split_and!; [done|done|].
    by rewrite Hextract, Hlog.
Qed.

(** Stage one sends the requests of a prefix of the chapters, of all of
    them when it succeeds. *)
Lemma hints_loop_log (novel_name : string) (chapters : list Chapter)
    (hints_list : list ChapterWorldHints) (log log' : list Prompt)
    (r : result (list ChapterWorldHints)) :
  loop novel_name chapters hints_list log = (r, log') ->
  exists requests,
    log' = log ++ requests /\ length requests <= length chapters
    /\ (forall out, r = Ok out -> length requests = length chapters).
Proof.
  destruct r as [out|e]; intros Hrun.
  - apply hints_loop_spec in Hrun as (extracted & _ & _ & ->).
    eexists. split; [done|]. rewrite length_fmap. split; [lia|done].
  - apply hints_loop_raise in Hrun as (before & ch & after & -> & -> & _).
    eexists. split; [done|]. rewrite !length_app, length_fmap. simpl.
    split; [lia|done].
Qed.

Lemma two_stage_requests (data : Novel) (max_chapters : option Z)
    (log log' : list Prompt) (r : result WorldProfile) :
  build_world_profile_two_stage generate_content decode_hints decode_profile
    data max_chapters log = (r, log') ->
  ((exists e, scanned_chapters data max_chapters = Raise e /\ r = Raise e) /\ log' = log)
  \/ (exists chapters requests,
        scanned_chapters data max_chapters = Ok chapters
        /\ log' = log ++ requests
        /\ length requests <= length chapters + 1
        /\ (forall profile, r = Ok profile -> length requests = length chapters + 1)).
Proof.
  unfold build_world_profile_two_stage.
  unfold mbind at 1, M_bind at 1, lift at 1.
  destruct (scanned_chapters data max_chapters) as [chapters|e] eqn:Hscan.
  - intros Hrun. right. exists chapters.
    unfold mbind at 1, M_bind at 1 in Hrun.
    destruct (hints_loop _ _ _ _ _ _) as [[hints_list|e] log1] eqn:Hloop.
    + apply hints_loop_log in Hloop as (requests & -> & _ & Hlen).
      apply build_world_profile_from_hints_log in Hrun as ->.
      eexists. rewrite <- app_assoc. split_and!; [done|done|..];
        rewrite length_app, (Hlen _ eq_refl); simpl; [lia|done].
    + injection Hrun as <- <-.
      apply hints_loop_log in Hloop as (requests & -> & Hlen & _).
      exists requests. split_and!; [done|done|lia|done].
  - intros [= <- <-]. left. split; [by exists e|done].
Qed.

End Run.

(** X16. A novel without volumes, or whose first volume has no chapters,
    is rejected with [ValueError] before any request is sent, whatever
    [max_chapters] is and whatever the later volumes hold. *)
Theorem degenerate_novel_rejected (generate_content : client Prompt)
    (decode_hints : string -> option ChapterWorldHints)
    (decode_profile : string -> option WorldProfile)
    (data : Novel) (max_chapters : option Z) (log : list Prompt) :
  n_volumes data = []
  \/ (exists first_volume volumes,
        n_volumes data = first_volume :: volumes /\ vol_chapters first_volume = []) ->
  exists message,
    build_world_profile_two_stage generate_content decode_hints decode_profile
      data max_chapters log = (Raise (ValueError message), log).
Proof.
  unfold build_world_profile_two_stage, scanned_chapters.
  intros [->|(v & vs & -> & ->)]; eexists; reflexivity.
Qed.

Lemma degenerate_novel_rejected_witness :
  exists message,
    build_world_profile_two_stage echo_client (fun s => Some (hints_for s))
      (fun _ => Some a_profile) empty_volume_novel (Some 20%Z) []
    = (Raise (ValueError message), []).
Proof.
  apply (degenerate_novel_rejected echo_client (fun s => Some (hints_for s))
           (fun _ => Some a_profile) empty_volume_novel (Some 20%Z) []).
  right. by eexists _, _.
Defined.

(** X17. A run that fails has failed in one of three places: on the novel
    itself, with no request sent; at a scanned chapter, with the requests
    of the chapters up to that one sent and no world-profile request; or
    at the world-profile request, after every scanned chapter was
    answered.  No request is tried again. *)
Theorem first_failure_ends_the_synthesis (generate_content : client Prompt)
    (decode_hints : string -> option ChapterWorldHints)
    (decode_profile : string -> option WorldProfile)
    (data : Novel) (max_chapters : option Z) (log log' : list Prompt) (e : exn) :
  build_world_profile_two_stage generate_content decode_hints decode_profile
    data max_chapters log = (Raise e, log') ->
  let novel_name := run_novel_name data in
  (scanned_chapters data max_chapters = Raise e /\ log' = log)
  \/ (exists before ch after,
        scanned_chapters data max_chapters = Ok (before ++ ch :: after)
        /\ log' = log ++ (hints_prompt novel_name <$> before)
                      ++ [hints_prompt novel_name ch]
        /\ extract_chapter_world_hints generate_content decode_hints novel_name
             (chapter_label ch) (ch_content ch)
             (log ++ (hints_prompt novel_name <$> before)) = (Raise e, log'))
  \/ (exists chapters hints_list,
        scanned_chapters data max_chapters = Ok chapters
        /\ log' = log ++ (hints_prompt novel_name <$> chapters)
                      ++ [profile_prompt data hints_list]
        /\ Forall2 (hints_of generate_content decode_hints novel_name)
             chapters hints_list
        /\ build_world_profile_from_hints generate_content decode_profile
             novel_name (n_summary data) hints_list
             (log ++ (hints_prompt novel_name <$> chapters)) = (Raise e, log')).
Proof.
  intros Hrun novel_name. unfold build_world_profile_two_stage in Hrun.
  fold (run_novel_name data) in Hrun. fold novel_name in Hrun.
  unfold mbind at 1, M_bind at 1, lift at 1 in Hrun.
  destruct (scanned_chapters data max_chapters) as [chapters|e'] eqn:Hscan.
  - unfold mbind at 1, M_bind at 1 in Hrun.
    destruct (hints_loop _ _ _ _ _ _) as [[hints_list|e'] log1] eqn:Hloop.
    + right; right.
      apply hints_loop_spec in Hloop as (extracted & -> & Hall & ->). simpl in *.
      exists chapters, extracted.
      pose proof (build_world_profile_from_hints_log _ _ _ _ _ _ _ _ Hrun) as Hlog.
      split_and!; [done| |done|done].
      by rewrite Hlog, <- app_assoc.
    + right; left. injection Hrun as <- <-.
      apply hints_loop_raise in Hloop as (before & ch & after & -> & -> & Hraise).
      by exists before, ch, after.
  - left. by injection Hrun as <- <-.
Qed.

Lemma first_failure_ends_the_synthesis_witness :
  build_world_profile_two_stage failing_on_chapter_2 (fun s => Some (hints_for s))
    (fun _ => Some a_profile) three_chapter_novel None []
  = (Raise (ServerError "500 INTERNAL"),
     [hints_prompt "Novel" (chapter_named "chapter 1");
      hints_prompt "Novel" (chapter_named "chapter 2")])
  /\ (scanned_chapters three_chapter_novel None = Raise (ServerError "500 INTERNAL")
      \/ (exists before ch after,
            scanned_chapters three_chapter_novel None = Ok (before ++ ch :: after))
      \/ (exists chapters,
            scanned_chapters three_chapter_novel None = Ok chapters)).
Proof.
  split; [reflexivity|].
  destruct (first_failure_ends_the_synthesis failing_on_chapter_2
              (fun s => Some (hints_for s)) (fun _ => Some a_profile)
              three_chapter_novel None [] _ _ eq_refl)
    as [[H _]|[(before & ch & after & H & _)|(chapters & hints_list & H & _)]].
  - by left.
  - right; left. by exists before, ch, after.
  - right; right. by exists chapters.
Defined.

(** X18. The profile that is written never has an empty [novel_name], and
    every request of the run is made under the same non-empty novel name:
    the novel's [name], else its [title], else ["Unknown novel"].  The
    profile is the one decoded from the answer to the last request of the
    run, as it is when it carries a [novel_name], and with the novel name
    of the run as its [novel_name], nothing else changed, when it carries
    none. *)
Theorem novel_name_never_empty (generate_content : client Prompt)
    (decode_hints : string -> option ChapterWorldHints)
    (decode_profile : string -> option WorldProfile)
    (data : Novel) (max_chapters : option Z) (log log' : list Prompt)
    (profile : WorldProfile) :
  build_world_profile_two_stage generate_content decode_hints decode_profile
    data max_chapters log = (Ok profile, log') ->
  truthy (wp_novel_name profile) = true
  /\ truthy (run_novel_name data) = true
  /\ Forall (fun p => prompt_novel_name p = run_novel_name data)
       (drop (length log) log')
  /\ exists log0 hints_list response raw decoded,
       log' = log0 ++ [profile_prompt data hints_list]
       /\ generate_content log0 (profile_prompt data hints_list) = Ok response
       /\ response_raw response = Ok (Some raw)
       /\ decode_profile raw = Some decoded
       /\ (truthy (wp_novel_name decoded) = true -> profile = decoded)
       /\ (truthy (wp_novel_name decoded) = false ->
           profile = set_profile_novel_name (run_novel_name data) decoded).
Proof.
  intros Hrun. unfold build_world_profile_two_stage in Hrun.
  fold (run_novel_name data) in Hrun.
  unfold mbind at 1, M_bind at 1, lift at 1 in Hrun.
  destruct (scanned_chapters data max_chapters) as [chapters|e'] eqn:Hscan; [|done].
  unfold mbind at 1, M_bind at 1 in Hrun.
  destruct (hints_loop _ _ _ _ _ _) as [[hints_list|e'] log1] eqn:Hloop; [|done].
  apply hints_loop_spec in Hloop as (extracted & -> & Hall & ->). simpl in *.
  pose proof (build_world_profile_from_hints_log _ _ _ _ _ _ _ _ Hrun) as Hlog.
  pose proof (build_world_profile_from_hints_name _ _ _ _ _ _ _ _
                (run_novel_name_truthy data) Hrun) as Hname.
  apply build_world_profile_from_hints_ok in Hrun
    as (response & raw & decoded & Hresp & Hraw & Hdec & Hprofile).
  split_and!; [done|apply run_novel_name_truthy| |].
  - rewrite Hlog, <- app_assoc, drop_app_length. apply Forall_app. split.
    + apply Forall_fmap, Forall_forall. by intros ch _.
    + by constructor.
  - exists (log ++ (hints_prompt (run_novel_name data) <$> chapters)), extracted,
      response, raw, decoded.
    split_and!; [done..| |]; intros Hd; by rewrite Hd in Hprofile.
Qed.

Lemma novel_name_never_empty_witness :
  exists profile log',
    build_world_profile_two_stage echo_client (fun s => Some (hints_for s))
      (fun _ => Some anonymous_profile) three_chapter_novel (Some 2%Z) []
    = (Ok profile, log')
    /\ wp_novel_name anonymous_profile = ""
    /\ profile = set_profile_novel_name "Novel" anonymous_profile
    /\ truthy (wp_novel_name profile) = true.
Proof.
  eexists _, _. split; [reflexivity|]. split; [reflexivity|]. split; [reflexivity|].
  apply (novel_name_never_empty echo_client (fun s => Some (hints_for s))
           (fun _ => Some anonymous_profile) three_chapter_novel (Some 2%Z) [] _ _ eq_refl).
Defined.

(** X19. With a bound [max_chapters >= 0] a run sends at most
    [max_chapters + 1] requests, whether it succeeds or fails; a run that
    succeeds sends one request per scanned chapter and one more. *)
Theorem request_budget (generate_content : client Prompt)
    (decode_hints : string -> option ChapterWorldHints)
    (decode_profile : string -> option WorldProfile)
    (data : Novel) (max_chapters : Z) (log log' : list Prompt)
    (r : result WorldProfile) :
  (0 <= max_chapters)%Z ->
  build_world_profile_two_stage generate_content decode_hints decode_profile
    data (Some max_chapters) log = (r, log') ->
  exists requests,
    log' = log ++ requests
    /\ length requests <= Z.to_nat max_chapters + 1
    /\ (forall profile chapters, r = Ok profile ->
          scanned_chapters data (Some max_chapters) = Ok chapters ->
          length requests = length chapters + 1).
Proof.
  intros Hk Hrun.
  assert (forall chapters, scanned_chapters data (Some max_chapters) = Ok chapters ->
            length chapters <= Z.to_nat max_chapters) as Hbound.
  { unfold scanned_chapters. intros chapters.
    destruct (n_volumes data) as [|v vs]; [done|].
    destruct (vol_chapters v) as [|c cs]; [done|]. intros [= <-].
    unfold slice_to. rewrite (proj2 (Z.leb_le 0 max_chapters) Hk), length_take. lia. }
  destruct (two_stage_requests _ _ _ _ _ _ _ _ Hrun)
    as [[(e & _ & ->) ->]|(chapters & requests & Hscan & -> & Hlen & Hok)].
  - exists []. rewrite app_nil_r. split_and!; [done|simpl; lia|done].
  - exists requests. specialize (Hbound _ Hscan). split_and!; [done|lia|].
    intros profile chapters' Hr Hscan'. rewrite Hscan in Hscan'.
    injection Hscan' as <-. by eapply Hok.
Qed.

Lemma request_budget_witness :
  exists requests,
    (build_world_profile_two_stage echo_client (fun s => Some (hints_for s))
       (fun _ => Some a_profile) three_chapter_novel (Some 2%Z) []).2 = requests
    /\ length requests <= 3.
Proof.
  destruct (request_budget echo_client (fun s => Some (hints_for s))
              (fun _ => Some a_profile) three_chapter_novel 2 [] _ _ ltac:(lia) eq_refl)
    as (requests & Hlog & Hlen & _).
  exists requests. split; [exact Hlog|exact Hlen].
Defined.

(** X25. The check for an empty first volume comes before the cut to
    [max_chapters]: with [max_chapters = 0], or a negative bound that cuts
    every chapter away, a novel whose first volume has chapters is not
    rejected; no chapter is scanned, and the one request of the run asks
    for a world profile from no hints at all. *)
Theorem empty_scan_still_synthesizes (generate_content : client Prompt)
    (decode_hints : string -> option ChapterWorldHints)
    (decode_profile : string -> option WorldProfile)
    (data : Novel) (max_chapters : Z) (log : list Prompt)
    (first_volume : Volume) (volumes : list Volume) :
  n_volumes data = first_volume :: volumes ->
  vol_chapters first_volume <> [] ->
  (max_chapters = 0 \/ max_chapters <= - Z.of_nat (length (vol_chapters first_volume)))%Z ->
  build_world_profile_two_stage generate_content decode_hints decode_profile
    data (Some max_chapters) log
  = build_world_profile_from_hints generate_content decode_profile
      (run_novel_name data) (n_summary data) [] log
  /\ (build_world_profile_two_stage generate_content decode_hints decode_profile
        data (Some max_chapters) log).2 = log ++ [profile_prompt data []].
Proof.
  intros Hvol Hne Hk.
  assert (scanned_chapters data (Some max_chapters) = Ok []) as Hscan.
  { unfold scanned_chapters. rewrite Hvol.
    destruct (vol_chapters first_volume) as [|c cs] eqn:Hch; [done|].
    f_equal. unfold slice_to. destruct (0 <=? max_chapters)%Z eqn:Hsign.
    - apply Z.leb_le in Hsign. replace max_chapters with 0%Z by lia. done.
    - replace (Z.to_nat _) with 0 by lia. done. }
  assert (build_world_profile_two_stage generate_content decode_hints decode_profile
            data (Some max_chapters) log
          = build_world_profile_from_hints generate_content decode_profile
              (run_novel_name data) (n_summary data) [] log) as Heq.
  { unfold build_world_profile_two_stage.
    unfold mbind at 1, M_bind at 1, lift at 1. by rewrite Hscan. }
  split; [done|]. rewrite Heq.
  destruct (build_world_profile_from_hints _ _ _ _ _ _) as [r log'] eqn:Hrun.
  by apply build_world_profile_from_hints_log in Hrun as ->.
Qed.

Lemma empty_scan_still_synthesizes_witness :
  build_world_profile_two_stage echo_client (fun s => Some (hints_for s))
    (fun _ => Some a_profile) three_chapter_novel (Some (-3)%Z) []
  = (Ok a_profile, [profile_prompt three_chapter_novel []]).
Proof.
  destruct (empty_scan_still_synthesizes echo_client (fun s => Some (hints_for s))
              (fun _ => Some a_profile) three_chapter_novel (-3) [] _ _ eq_refl)
    as [Hrun _]; [done|simpl; lia|].
  rewrite Hrun. reflexivity.
Defined.

End WorldProfileRunFacts.

(** ** Further properties of the prompt rewriter *)

Module StyleRunFacts.
Import UnifyKeyframeStyle StyleRun PromptRewriter.

Lemma replicate_snoc {A : Type} (n : nat) (x : A) :
  replicate (S n) x = replicate n x ++ [x].
Proof. induction n as [|n IH]; [done|]. simpl in *. by rewrite <- IH. Qed.

Section Run.

Variable generate_content : client Prompt.
Variable decode : string -> option TrailerStyleGuide.

(** The attempts of the style-guide loop, for any number of attempts
    allowed. *)
Lemma style_attempts_spec (n : nat) (style_prompt : Prompt) (log log' : list Prompt)
    (r : result Response) :
  style_attempts generate_content (S n) style_prompt log = (r, log') ->
  exists k,
    k <= n
    /\ log' = log ++ replicate (S k) style_prompt
    /\ (forall i, i < k ->
          style_retried (generate_content (log ++ replicate i style_prompt) style_prompt)
          = true)
    /\ r = generate_content (log ++ replicate k style_prompt) style_prompt
    /\ (style_retried r = true -> k = n).
Proof.
  revert log. induction n as [|n IH]; intros log.
  - cbn [style_attempts]. unfold mbind, M_bind, try_call, raise, mret, M_ret.
    intros Hrun. exists 0. simpl. rewrite app_nil_r.
    split; [done|]. split.
    { destruct (generate_content log style_prompt) as [resp|[]];
        try (by injection Hrun as _ <-).
      by destruct (overloaded _); injection Hrun as _ <-. }
    split; [intros; lia|]. split; [|done].
    destruct (generate_content log style_prompt) as [resp|[]];
      try (by injection Hrun as <- _).
    by destruct (overloaded _); injection Hrun as <- _.
  - remember (S n) as m. cbn [style_attempts]. subst m.
    unfold mbind at 1, M_bind at 1, try_call.
    destruct (generate_content log style_prompt) as [resp|e] eqn:Hfirst.
    { intros [= <- <-]. exists 0. simpl. rewrite app_nil_r.
      split_and!; [lia|done|intros; lia|done|done]. }
    destruct (style_retried (Raise e)) eqn:Hretried.
    + destruct e; try done. simpl in Hretried. rewrite Hretried.
      intros Hrun. destruct (IH _ Hrun) as (k & Hk & -> & Hbefore & -> & Hlast).
      exists (S k). split_and!.
      * lia.
      * by rewrite <- app_assoc.
      * intros [|i] Hi.
        -- simpl. by rewrite app_nil_r, Hfirst.
        -- specialize (Hbefore i ltac:(lia)).
           by rewrite <- app_assoc in Hbefore.
      * by rewrite <- app_assoc.
      * intros H. by rewrite (Hlast H).
    + intros Hrun. exists 0. simpl. rewrite app_nil_r, Hfirst.
      assert (r = Raise e /\ log' = log ++ [style_prompt]) as [-> ->].
      { destruct e; try (by injection Hrun as <- <-).
        simpl in Hretried. rewrite Hretried in Hrun. by injection Hrun as <- <-. }
      split_and!; [lia|done|intros; lia|done|]. by rewrite Hretried.
Qed.

(** The attempts of the rewrite loop, for any number of attempts allowed. *)
Lemma rewrite_attempts_spec (n : nat) (rewrite_prompt : Prompt) (tokens : Tokens)
    (log log' : list Prompt) (r : result (bool * Response * Tokens)) :
  rewrite_attempts generate_content (S n) rewrite_prompt tokens log = (r, log') ->
  exists k,
    k <= n
    /\ log' = log ++ replicate (S k) rewrite_prompt
    /\ (forall i, i < k ->
          rewrite_retried
            (generate_content (log ++ replicate i rewrite_prompt) rewrite_prompt) = true)
    /\ let last := generate_content (log ++ replicate k rewrite_prompt) rewrite_prompt in
       (rewrite_retried last = true -> k = n)
       /\ match last with
          | Ok resp =>
              if blocked resp
              then r = (tokens' ← count_blocked_usage resp tokens;
                        Ok (true, resp, tokens'))
              else r = Ok (false, resp, tokens)
          | Raise e => r = Raise e
          end.
Proof.
  revert log. induction n as [|n IH]; intros log.
  - cbn [rewrite_attempts]. unfold mbind at 1, M_bind at 1, try_call.
    intros Hrun. exists 0. simpl. rewrite app_nil_r.
    destruct (generate_content log rewrite_prompt) as [resp|e] eqn:Hfirst.
    + destruct (blocked resp).
      * revert Hrun. unfold mbind, M_bind, lift, mret, M_ret, result_bind.
        destruct (count_blocked_usage resp tokens); intros [= <- <-];
          by split_and!; [lia|done|intros; lia|done|done].
      * injection Hrun as <- <-. by split_and!; [lia|done|intros; lia|done|done].
    + assert (r = Raise e /\ log' = log ++ [rewrite_prompt]) as [-> ->].
      { destruct e; try (by injection Hrun as <- <-).
        by destruct (overloaded _); injection Hrun as <- <-. }
      by split_and!; [lia|done|intros; lia|done|done].
  - remember (S n) as m. cbn [rewrite_attempts]. subst m.
    unfold mbind at 1, M_bind at 1, try_call.
    destruct (rewrite_retried (generate_content log rewrite_prompt)) eqn:Hretried.
    + intros Hrun.
      assert (rewrite_attempts generate_content (S n) rewrite_prompt tokens
                (log ++ [rewrite_prompt]) = (r, log')) as Hrest.
      { destruct (generate_content log rewrite_prompt) as [resp|e].
        - simpl in Hretried. by rewrite Hretried in Hrun.
        - destruct e; try done. simpl in Hretried. by rewrite Hretried in Hrun. }
      destruct (IH _ Hrest) as (k & Hk & -> & Hbefore & Hlast).
      exists (S k). split_and!.
      * lia.
      * by rewrite <- app_assoc.
      * intros [|i] Hi.
        -- simpl. by rewrite app_nil_r.
        -- specialize (Hbefore i ltac:(lia)).
           by rewrite <- app_assoc in Hbefore.
      * cbv zeta in Hlast. destruct Hlast as [Hn Hr].
        rewrite <- app_assoc in Hn. simpl. intros H. f_equal. by apply Hn.
      * cbv zeta in Hlast. destruct Hlast as [Hn Hr].
        rewrite <- app_assoc in Hr. by simpl.
    + intros Hrun. exists 0. simpl. rewrite app_nil_r, Hretried.
      destruct (generate_content log rewrite_prompt) as [resp|e].
      * simpl in Hretried. rewrite Hretried in *. injection Hrun as <- <-.
        by split_and!; [lia|done|intros; lia|done|done].
      * assert (r = Raise e /\ log' = log ++ [rewrite_prompt]) as [-> ->].
        { destruct e; try (by injection Hrun as <- <-).
          simpl in Hretried. rewrite Hretried in Hrun. by injection Hrun as <- <-. }
        by split_and!; [lia|done|intros; lia|done|done].
Qed.

(** What the retry loop hands over was answered to its request. *)
Lemma rewrite_attempts_answer (rewrite_prompt : Prompt) (tokens tokens' : Tokens)
    (log log' : list Prompt) (content_blocked : bool) (resp : Response) :
  rewrite_attempts generate_content max_retries rewrite_prompt tokens log
    = (Ok (content_blocked, resp, tokens'), log') ->
  (exists k, 1 <= k <= max_retries /\ log' = log ++ replicate k rewrite_prompt)
  /\ (exists log0, generate_content log0 rewrite_prompt = Ok resp)
  /\ blocked resp = content_blocked.
Proof.
  intros Hrun. apply rewrite_attempts_spec in Hrun
    as (k & Hk & -> & _ & _ & Hlast).
  split; [exists (S k); split; [unfold max_retries; lia|done]|].
  destruct (generate_content _ _) as [resp0|e] eqn:Hresp; [|done].
  destruct (blocked resp0) eqn:Hblocked.
  - unfold mbind, result_bind in Hlast.
    destruct (count_blocked_usage resp0 tokens); [|done].
    injection Hlast as -> -> _. split; [by eexists|done].
  - injection Hlast as -> -> _. split; [by eexists|done].
Qed.

(** The requests of the loop body, whatever its outcome. *)
Lemma rewrite_keyframe_log (style_guide : TrailerStyleGuide) (kf : Keyframe)
    (tokens : Tokens) (log log' : list Prompt) (r : result (Keyframe * Tokens)) :
  rewrite_keyframe generate_content style_guide kf tokens log = (r, log') ->
  exists k, 1 <= k <= max_retries
            /\ log' = log ++ replicate k (build_rewrite_prompt style_guide kf).
Proof.
  unfold rewrite_keyframe. unfold mbind at 1, M_bind at 1.
  destruct (rewrite_attempts _ _ _ _ _) as [[[[content_blocked resp] tokens1]|e] log1]
    eqn:Hattempts.
  - apply rewrite_attempts_spec in Hattempts as (k & Hk & -> & _).
    intros Hrun. exists (S k). split; [unfold max_retries; lia|].
    revert Hrun. destruct content_blocked; [by intros [= _ <-]|].
    unfold mbind at 1, M_bind at 1.
    destruct (blank (text resp)).
    + unfold try_except, mbind at 1, M_bind at 1, lift at 1, mret at 1, M_ret at 1.
      destruct (candidate_text resp) as [new_prompt|e].
      * unfold mbind, M_bind, lift, raise, mret, M_ret.
        destruct (count_usage resp tokens1); [|by intros [= _ <-]].
        by destruct new_prompt; intros [= _ <-].
      * unfold mret, M_ret. by intros [= _ <-].
    + unfold mret at 1, M_ret at 1, mbind, M_bind, lift, raise, mret, M_ret.
      destruct (count_usage resp tokens1); [|by intros [= _ <-]].
      by destruct (text resp); intros [= _ <-].
  - apply rewrite_attempts_spec in Hattempts as (k & Hk & -> & _).
    intros [= _ <-]. exists (S k). split; [unfold max_retries; lia|done].
Qed.

Lemma keyframes_loop_log (style_guide : TrailerStyleGuide) (kfs : list Keyframe)
    (new_keyframes out : list Keyframe) (tokens tokens' : Tokens)
    (log log' : list Prompt) :
  keyframes_loop generate_content style_guide kfs new_keyframes tokens log
    = (Ok (out, tokens'), log') ->
  exists counts,
    length counts = length kfs
    /\ Forall (fun k => 1 <= k <= max_retries) counts
    /\ log' = log ++ rewrite_requests style_guide counts kfs.
Proof.
  revert new_keyframes tokens log.
  induction kfs as [|kf rest IH]; intros acc tokens log Hrun.
  - injection Hrun as _ _ <-. exists []. unfold rewrite_requests. simpl.
    by rewrite app_nil_r.
  - cbn [keyframes_loop] in Hrun. unfold mbind at 1, M_bind at 1 in Hrun.
    destruct (rewrite_keyframe _ _ _ _ log) as [[[kf' tokens1]|e] log1] eqn:Hkf; [|done].
    apply rewrite_keyframe_log in Hkf as (k & Hk & ->).
    destruct (IH _ _ _ Hrun) as (counts & Hlen & Hall & ->).
    exists (k :: counts). split_and!.
    + simpl. by rewrite Hlen.
    + by constructor.
    + unfold rewrite_requests. simpl. by rewrite <- !app_assoc.
Qed.

Lemma count_usage_balanced (resp : Response) (tokens tokens' : Tokens) :
  consistent_usage resp -> balanced tokens ->
  count_usage resp tokens = Ok tokens' -> balanced tokens'.
Proof.
  unfold consistent_usage, balanced, count_usage, add_count. intros Hresp Hb.
  destruct (usage_metadata resp) as [usage|]; [|by intros [= <-]].
  specialize (Hresp usage).
  destruct (prompt_token_count usage) as [p|]; [|done].
  destruct (candidates_token_count usage) as [c|]; [|done].
  destruct (total_token_count usage) as [t|]; [|done].
  specialize (Hresp p c t eq_refl eq_refl eq_refl eq_refl).
  intros [= <-]. simpl. lia.
Qed.

Lemma count_blocked_usage_balanced (resp : Response) (tokens tokens' : Tokens) :
  balanced tokens -> count_blocked_usage resp tokens = Ok tokens' -> balanced tokens'.
Proof.
  unfold balanced, count_blocked_usage, add_count. intros Hb.
  destruct (usage_metadata resp) as [usage|]; [|by intros [= <-]].
  destruct (prompt_token_count usage) as [p|]; [|done].
  intros [= <-]. simpl. lia.
Qed.

End Run.

(** X20. The style-guide request is sent between one and five times, always
    the same; every attempt but the last met a [ServerError] of an
    overloaded server, and the loop ends with the outcome of the last
    attempt, answer or exception: any other exception ends it at once, an
    overloaded server at the fifth attempt. *)
Theorem style_guide_retried_on_overload_only (generate_content : client Prompt)
    (style_prompt : Prompt) (log log' : list Prompt) (r : result Response) :
  style_attempts generate_content max_retries style_prompt log = (r, log') ->
  exists attempts,
    1 <= attempts <= 5
    /\ log' = log ++ replicate attempts style_prompt
    /\ (forall i, i < attempts - 1 ->
          style_retried (generate_content (log ++ replicate i style_prompt) style_prompt)
          = true)
    /\ r = generate_content (log ++ replicate (attempts - 1) style_prompt) style_prompt
    /\ (style_retried r = true -> attempts = 5).
Proof.
  intros Hrun. apply style_attempts_spec in Hrun as (k & Hk & -> & Hbefore & -> & Hlast).
  exists (S k). replace (S k - 1) with k by lia.
  split_and!; [lia|lia|done|done|done|]. intros H. by rewrite (Hlast H).
Qed.

Lemma style_guide_retried_on_overload_only_witness :
  style_attempts overloaded_twice max_retries (build_style_guide_prompt input_plan None) []
  = (Ok (answer (Some "style guide json") None),
     replicate 3 (build_style_guide_prompt input_plan None))
  /\ exists attempts,
       1 <= attempts <= 5
       /\ replicate 3 (build_style_guide_prompt input_plan None)
          = replicate attempts (build_style_guide_prompt input_plan None).
Proof.
  split; [reflexivity|].
  destruct (style_guide_retried_on_overload_only overloaded_twice
              (build_style_guide_prompt input_plan None) [] _ _ eq_refl)
    as (attempts & Hn & Hlog & _).
  exists attempts. split; [exact Hn|exact Hlog].
Defined.

(** X21. The rewrite request of a keyframe is sent between one and five
    times, always the same; every attempt but the last was blocked or met
    an overloaded server.  The last attempt decides: an answer that is not
    blocked is handed over with the counters untouched; a blocked answer,
    which can only be the fifth, marks the keyframe as blocked and counts
    its prompt tokens; an exception leaves the loop. *)
Theorem rewrite_retried_on_overload_or_block (generate_content : client Prompt)
    (rewrite_prompt : Prompt) (tokens : Tokens) (log log' : list Prompt)
    (r : result (bool * Response * Tokens)) :
  rewrite_attempts generate_content max_retries rewrite_prompt tokens log = (r, log') ->
  exists attempts,
    1 <= attempts <= 5
    /\ log' = log ++ replicate attempts rewrite_prompt
    /\ (forall i, i < attempts - 1 ->
          rewrite_retried
            (generate_content (log ++ replicate i rewrite_prompt) rewrite_prompt) = true)
    /\ let last :=
         generate_content (log ++ replicate (attempts - 1) rewrite_prompt) rewrite_prompt in
       (rewrite_retried last = true -> attempts = 5)
       /\ match last with
          | Ok resp =>
              if blocked resp
              then r = (tokens' ← count_blocked_usage resp tokens;
                        Ok (true, resp, tokens'))
              else r = Ok (false, resp, tokens)
          | Raise e => r = Raise e
          end.
Proof.
  intros Hrun. apply rewrite_attempts_spec in Hrun as (k & Hk & -> & Hbefore & Hlast).
  exists (S k). replace (S k - 1) with k by lia.
  split_and!; [lia|lia|done|done|]. simpl in *. destruct Hlast as [Hn Hr].
  split; [|done]. intros H. by rewrite (Hn H).
Qed.

Lemma rewrite_retried_on_overload_or_block_witness :
  rewrite_attempts blocking_twice max_retries
    (build_rewrite_prompt a_style_guide (keyframe "KF_B1_01" "A gate")) no_tokens
    [build_style_guide_prompt input_plan None]
  = (Ok (false, answer (Some " A painted gate at dawn ") None, no_tokens),
     build_style_guide_prompt input_plan None
     :: replicate 3 (build_rewrite_prompt a_style_guide (keyframe "KF_B1_01" "A gate")))
  /\ exists attempts,
       1 <= attempts <= 5
       /\ build_style_guide_prompt input_plan None
          :: replicate 3 (build_rewrite_prompt a_style_guide (keyframe "KF_B1_01" "A gate"))
          = [build_style_guide_prompt input_plan None]
            ++ replicate attempts
                 (build_rewrite_prompt a_style_guide (keyframe "KF_B1_01" "A gate")).
Proof.
  split; [reflexivity|].
  destruct (rewrite_retried_on_overload_or_block blocking_twice
              (build_rewrite_prompt a_style_guide (keyframe "KF_B1_01" "A gate"))
              no_tokens [build_style_guide_prompt input_plan None] _ _ eq_refl)
    as (attempts & Hn & Hlog & _).
  exists attempts. split; [exact Hn|exact Hlog].
Defined.

(** X22. A run that writes a styled plan has sent the style-guide request
    one to five times and then, keyframe after keyframe in the order of the
    plan, the rewrite request of that keyframe one to five times.  Every
    rewrite request carries the keyframe as it is in the input plan and one
    and the same style guide, the one decoded from the style-guide answer;
    so a run sends at most five requests for the style guide and five for
    each keyframe. *)
Theorem styled_plan_requests (generate_content : client Prompt)
    (decode : string -> option TrailerStyleGuide) (plan new_plan : KeyframePlan)
    (world_profile : option json) (tokens : Tokens) (log log' : list Prompt) :
  main generate_content decode plan world_profile log = (Ok (new_plan, tokens), log') ->
  exists style_attempts_made style_resp style_raw style_guide counts,
    1 <= style_attempts_made <= 5
    /\ generate_content
         (log ++ replicate (style_attempts_made - 1)
                   (build_style_guide_prompt plan world_profile))
         (build_style_guide_prompt plan world_profile) = Ok style_resp
    /\ response_raw style_resp = Ok (Some style_raw)
    /\ decode style_raw = Some style_guide
    /\ length counts = length (keyframes plan)
    /\ Forall (fun k => 1 <= k <= 5) counts
    /\ log' = log ++ replicate style_attempts_made
                       (build_style_guide_prompt plan world_profile)
                  ++ rewrite_requests style_guide counts (keyframes plan)
    /\ length log' <= length log + 5 * (1 + length (keyframes plan)).
Proof.
  unfold main. unfold mbind at 1, M_bind at 1.
  destruct (style_attempts _ _ _ _) as [[style_resp|e] log1] eqn:Hstyle; [|done].
  apply style_attempts_spec in Hstyle as (k & Hk & -> & _ & Hresp & _).
  unfold mbind at 1, M_bind at 1, lift at 1.
  destruct (response_raw style_resp) as [style_raw|e] eqn:Hraw; [|done].
  unfold mbind at 1, M_bind at 1, lift at 1.
  destruct (model_validate_json decode style_raw) as [style_guide|e] eqn:Hdec; [|done].
  unfold mbind at 1, M_bind at 1, lift at 1.
  destruct (count_usage style_resp _) as [tokens1|e]; [|done].
  unfold mbind at 1, M_bind at 1.
  destruct (keyframes_loop _ _ _ _ _ _) as [[[out tokens2]|e] log2] eqn:Hloop; [|done].
  intros [= _ _ <-].
  apply keyframes_loop_log in Hloop as (counts & Hlen & Hall & ->).
  unfold model_validate_json in Hdec.
  destruct style_raw as [style_raw|]; [|done].
  destruct (decode style_raw) as [sg|] eqn:Hsg; [|done]. injection Hdec as ->.
  exists (S k), style_resp, style_raw, style_guide, counts.
  replace (S k - 1) with k by lia.
  split_and!; [lia|lia|done|done|done|done|done|by rewrite <- app_assoc|].
  rewrite !length_app, length_replicate.
  assert (length (rewrite_requests style_guide counts (keyframes plan))
          <= 5 * length (keyframes plan)) as Hle.
  { rewrite <- Hlen. clear -Hall. unfold rewrite_requests.
    revert Hall. generalize (keyframes plan) as kfs.
    induction counts as [|c counts IH]; intros kfs Hall; [simpl; lia|].
    destruct kfs as [|kf kfs]; [simpl; lia|].
    apply Forall_cons in Hall as [Hc Hall]. specialize (IH kfs Hall).
    simpl. rewrite length_app, length_replicate.
    unfold max_retries in Hc. simpl in *. lia. }
  lia.
Qed.

Lemma styled_plan_requests_witness :
  exists style_guide counts,
    length counts = 2
    /\ (main blocking_twice (fun _ => Some a_style_guide) input_plan None []).2
       = [] ++ replicate 1 (build_style_guide_prompt input_plan None)
            ++ rewrite_requests style_guide counts (keyframes input_plan).
Proof.
  destruct (styled_plan_requests blocking_twice (fun _ => Some a_style_guide)
              input_plan _ None _ [] _ eq_refl)
    as (n & style_resp & style_raw & style_guide & counts
        & Hn & Hresp & Hraw & Hdec & Hlen & Hall & Hlog & _).
  exists style_guide, counts. split; [exact Hlen|].
  assert (n = 1) as ->.
  { destruct n as [|[|n]]; [lia|done|]. exfalso.
    apply (f_equal (fun l => l !! 1)) in Hlog. simpl in Hlog.
    destruct n; simpl in Hlog; discriminate Hlog. }
  exact Hlog.
Defined.

(** X23. The keyframe the rewriter appends is decided by the answer to
    the last attempt of its rewrite request.  An answer that is not blocked
    and has a text that is not blank gives the keyframe with that text,
    stripped, as its [image_prompt], which is then not empty.  So the
    rewriter leaves a keyframe with an empty [image_prompt] only if the
    prompt was empty before, or through the fallback: the answer was not
    blocked, its text was blank and the first part of its first candidate
    held a text that is blank as well. *)
Theorem empty_prompt_only_through_fallback (generate_content : client Prompt)
    (style_guide : TrailerStyleGuide) (kf kf' : Keyframe) (tokens tokens' : Tokens)
    (log log' : list Prompt) :
  rewrite_keyframe generate_content style_guide kf tokens log
    = (Ok (kf', tokens'), log') ->
  let rewrite_prompt := build_rewrite_prompt style_guide kf in
  exists attempts resp,
    1 <= attempts <= 5
    /\ log' = log ++ replicate attempts rewrite_prompt
    /\ generate_content (log ++ replicate (attempts - 1) rewrite_prompt) rewrite_prompt
       = Ok resp
    /\ (blocked resp = true -> kf' = kf)
    /\ (forall t, blocked resp = false -> text resp = Some t -> blank (Some t) = false ->
          kf' = set_image_prompt (strip t) kf
          /\ truthy (image_prompt kf') = true)
    /\ (truthy (image_prompt kf') = false ->
        truthy (image_prompt kf) = false
        \/ (blocked resp = false
            /\ blank (text resp) = true
            /\ exists t, candidate_text resp = Ok (Some t) /\ blank (Some t) = true)).
Proof.
  intros Hrun rewrite_prompt. revert Hrun.
  unfold rewrite_keyframe. fold rewrite_prompt. unfold mbind at 1, M_bind at 1.
  destruct (rewrite_attempts _ _ _ _ _) as [[[[content_blocked resp] tokens1]|e] log1]
    eqn:Hattempts; [|done].
  apply rewrite_attempts_spec in Hattempts as (k & Hk & -> & _ & _ & Hlast).
  assert (generate_content (log ++ replicate k rewrite_prompt) rewrite_prompt = Ok resp
          /\ blocked resp = content_blocked) as [Hresp Hblocked].
  { destruct (generate_content _ _) as [resp0|e] eqn:Hresp0; [|done].
    destruct (blocked resp0) eqn:Hblocked0.
    - unfold mbind, result_bind in Hlast.
      destruct (count_blocked_usage resp0 tokens); [|done].
      by injection Hlast as -> -> _.
    - by injection Hlast as -> -> _. }
  clear Hlast. intros Hrun.
  assert (log' = log ++ replicate (S k) rewrite_prompt) as Hlog.
  { revert Hrun. destruct content_blocked; [by intros [= _ _ <-]|].
    unfold mbind at 1, M_bind at 1.
    destruct (blank (text resp)).
    - unfold try_except, mbind at 1, M_bind at 1, lift at 1, mret at 1, M_ret at 1.
      destruct (candidate_text resp) as [new_prompt|e].
      + unfold mbind, M_bind, lift, raise, mret, M_ret.
        destruct (count_usage resp tokens1); [|done].
        by destruct new_prompt; intros [= _ _ <-].
      + unfold mret, M_ret. by intros [= _ _ <-].
    - unfold mret at 1, M_ret at 1, mbind, M_bind, lift, raise, mret, M_ret.
      destruct (count_usage resp tokens1); [|done].
      by destruct (text resp); intros [= _ _ <-]. }
  exists (S k), resp. replace (S k - 1) with k by lia.
  split; [unfold max_retries in Hk; lia|]. split; [exact Hlog|]. split; [exact Hresp|].
  revert Hrun. rewrite <- Hblocked. clear Hlog.
  destruct (blocked resp) eqn:Hb.
  { intros [= <- _ _]. split_and!; [done|done|]. intros Hempty. by left. }
  unfold mbind at 1, M_bind at 1.
  destruct (blank (text resp)) eqn:Hblank.
  - unfold try_except, mbind at 1, M_bind at 1, lift at 1, mret at 1, M_ret at 1.
    destruct (candidate_text resp) as [new_prompt|e] eqn:Hcand.
    + unfold mbind, M_bind, lift, raise, mret, M_ret.
      destruct (count_usage resp tokens1); [|done].
      destruct new_prompt as [t|]; [|done].
      intros [= <- _ _]. split_and!; [done| |].
      * intros t' _ Ht Hnb. by rewrite Ht, Hnb in Hblank.
      * intros Hempty. right. split_and!; [done..|]. exists t. split; [done|].
        simpl in *. by rewrite Hempty.
    + unfold mret, M_ret. intros [= <- _ _]. split_and!; [done| |].
      * intros t' _ Ht Hnb. by rewrite Ht, Hnb in Hblank.
      * intros Hempty. by left.
  - unfold mret at 1, M_ret at 1, mbind, M_bind, lift, raise, mret, M_ret.
    destruct (count_usage resp tokens1); [|done].
    destruct (text resp) as [t|] eqn:Ht; [|done].
    intros [= <- _ _]. split_and!; [done| |].
    + intros t' _ [= <-] Hnb. split; [done|].
      simpl in *. by apply negb_false_iff in Hnb.
    + intros Hempty. simpl in *. by rewrite Hempty in Hblank.
Qed.

Lemma empty_prompt_only_through_fallback_witness :
  (exists attempts resp t,
     rewrite_prompt_answer attempts = Ok resp
     /\ blank (text resp) = true
     /\ candidate_text resp = Ok (Some t))
  /\ (rewrite_keyframe blocking_twice a_style_guide (keyframe "KF_B1_01" "A gate")
        no_tokens [build_style_guide_prompt input_plan None]).1
     = Ok (keyframe "KF_B1_01" "A painted gate at dawn", no_tokens).
Proof.
  split.
  - destruct (empty_prompt_only_through_fallback
                (client_answering (answer (Some "") (Some [candidate_with (Some "  ")])))
                a_style_guide (keyframe "KF_B1_01" "A gate") _ no_tokens _ [] _ eq_refl)
      as (attempts & resp & _ & _ & Hresp & _ & _ & Hempty).
    destruct (Hempty eq_refl) as [Hkf|(_ & Hblank & t & Hcand & _)]; [done|].
    by exists attempts, resp, t.
  - destruct (empty_prompt_only_through_fallback blocking_twice
                a_style_guide (keyframe "KF_B1_01" "A gate") _ no_tokens _
                [build_style_guide_prompt input_plan None] _ eq_refl)
      as (attempts & resp & _ & _ & _ & _ & _ & _).
    reflexivity.
Defined.



End StyleRunFacts.

(** ** Further properties of the beat planner *)

Module BeatPlannerFacts.
Import SceneToTrailer PyFacts.


End BeatPlannerFacts.
